(** * Elektron Fast Image Kompressor: a shallow embedding of the
      compression pipeline (file-name sanitizer, size analyzer, batch sizing,
      sequential orchestrator, chunked orchestrator, progress throttle) and
      the properties established about it. *)

From Stdlib Require Import ZArith NArith QArith Qround Qminmax Lia List Bool String Ascii
  DecimalString.
From stdpp Require Import gmap list.

Local Open Scope N_scope.

(** ** JavaScript strings

    A JavaScript string is a sequence of UTF-16 code units; the regular
    expressions of the program carry no [u] flag, so they too work on code
    units. *)

Definition jsstring := list N.

(** Literals are written as ASCII text and converted. *)
Definition js (s : string) : jsstring :=
  map N_of_ascii (list_ascii_of_string s).

Definition charCodeAt (s : jsstring) (i : nat) : N := nth i s 0.

(** [String.prototype.slice(start, end)]: negative indices count from the
    end, everything is clamped to the string. *)
Definition slice (s : jsstring) (start stop : Z) : jsstring :=
  let len := Z.of_nat (length s) in
  let from := if (start <? 0)%Z then Z.max (len + start) 0 else Z.min start len in
  let to := if (stop <? 0)%Z then Z.max (len + stop) 0 else Z.min stop len in
  firstn (Z.to_nat (to - from)) (skipn (Z.to_nat from) s).

(** [String.prototype.substring(0, n)]. *)
Definition substring0 (n : nat) (s : jsstring) : jsstring := firstn n s.

Definition jseqb (a b : jsstring) : bool := bool_decide (a = b).

(** [String.prototype.includes]. *)
Fixpoint startsWith (needle s : jsstring) : bool :=
  match needle, s with
  | [], _ => true
  | _ :: _, [] => false
  | a :: needle', b :: s' => (a =? b) && startsWith needle' s'
  end.

Fixpoint includes (s needle : jsstring) : bool :=
  startsWith needle s ||
  match s with
  | [] => false
  | _ :: s' => includes s' needle
  end.

(** Character classes of the regular expressions. *)
Definition between (lo hi c : N) : bool := (lo <=? c) && (c <=? hi).

(** [\w] *)
Definition isWordChar (c : N) : bool :=
  between 48 57 c || between 65 90 c || between 97 122 c || (c =? 95).

(** [\s]: white space and line terminators. *)
Definition isWhiteSpace (c : N) : bool :=
  between 9 13 c || (c =? 32) || (c =? 160) || (c =? 5760) ||
  between 8192 8202 c || (c =? 8232) || (c =? 8233) || (c =? 8239) ||
  (c =? 8287) || (c =? 12288) || (c =? 65279).

Definition UNDERSCORE : N := 95.

(** ** Node's [path] module

    [path.extname] and [path.basename] are transcribed from the loops of
    Node's [lib/path.js]; the two flavours ([path.posix], [path.win32])
    differ by the separator test and by the drive-letter prefix that the
    Windows flavour skips. *)
Module Path.

Inductive platform := Posix | Win32.

Definition CHAR_FORWARD_SLASH : N := 47.
Definition CHAR_BACKWARD_SLASH : N := 92.
Definition CHAR_DOT : N := 46.
Definition CHAR_COLON : N := 58.

Definition isPathSeparator (pf : platform) (code : N) : bool :=
  match pf with
  | Posix => code =? CHAR_FORWARD_SLASH
  | Win32 => (code =? CHAR_FORWARD_SLASH) || (code =? CHAR_BACKWARD_SLASH)
  end.

Definition sep (pf : platform) : N :=
  match pf with Posix => CHAR_FORWARD_SLASH | Win32 => CHAR_BACKWARD_SLASH end.

Definition isWindowsDeviceRoot (code : N) : bool :=
  between 65 90 code || between 97 122 code.

(** Index at which the scanning loops stop: 2 behind a drive letter on
    Windows, 0 otherwise. *)
Definition rootSkip (pf : platform) (path : jsstring) : nat :=
  match pf with
  | Posix => 0
  | Win32 =>
      if (2 <=? length path)%nat && isWindowsDeviceRoot (charCodeAt path 0)
         && (charCodeAt path 1 =? CHAR_COLON)
      then 2 else 0
  end.

(** State of the [extname] loop; [-1] is the "not seen yet" mark of the
    source. *)
Record ext_state := mkExt {
  startDot : Z; startPart : Z; endIdx : Z; matchedSlash : bool; preDotState : Z
}.

Definition ext_step (code : N) (i : nat) (st : ext_state) : ext_state :=
  let st1 :=
    if (endIdx st =? -1)%Z
    then mkExt (startDot st) (startPart st) (Z.of_nat i + 1) false (preDotState st)
    else st in
  if code =? CHAR_DOT then
    if (startDot st1 =? -1)%Z
    then mkExt (Z.of_nat i) (startPart st1) (endIdx st1) (matchedSlash st1) (preDotState st1)
    else if negb (preDotState st1 =? 1)%Z
         then mkExt (startDot st1) (startPart st1) (endIdx st1) (matchedSlash st1) 1
         else st1
  else if negb (startDot st1 =? -1)%Z
       then mkExt (startDot st1) (startPart st1) (endIdx st1) (matchedSlash st1) (-1)
       else st1.

(** [for (let i = path.length - 1; i >= start; --i)]; the counter [n] is
    [i + 1]. *)
Fixpoint extname_loop (pf : platform) (path : jsstring) (start n : nat)
    (st : ext_state) : ext_state :=
  match n with
  | O => st
  | S i =>
      if (i <? start)%nat then st
      else
        let code := charCodeAt path i in
        if isPathSeparator pf code then
          if negb (matchedSlash st)
          then mkExt (startDot st) (Z.of_nat i + 1) (endIdx st) (matchedSlash st)
                     (preDotState st)
          else extname_loop pf path start i st
        else extname_loop pf path start i (ext_step code i st)
  end.

Definition extname (pf : platform) (path : jsstring) : jsstring :=
  let start := rootSkip pf path in
  let st := extname_loop pf path start (length path)
              (mkExt (-1) (Z.of_nat start) (-1) true 0) in
  if (startDot st =? -1)%Z || (endIdx st =? -1)%Z || (preDotState st =? 0)%Z
     || ((preDotState st =? 1)%Z && (startDot st =? endIdx st - 1)%Z
         && (startDot st =? startPart st + 1)%Z)
  then []
  else slice path (startDot st) (endIdx st).

(** State of the [basename] loops. *)
Record base_state := mkBase {
  bStart : Z; bEnd : Z; bMatchedSlash : bool; extIdx : Z; firstNonSlashEnd : Z
}.

(** The loop taken when a non-empty suffix no longer than the path is
    given. *)
Fixpoint basename_suffix_loop (pf : platform) (path suffix : jsstring)
    (start n : nat) (st : base_state) : base_state :=
  match n with
  | O => st
  | S i =>
      if (i <? start)%nat then st
      else
        let code := charCodeAt path i in
        if isPathSeparator pf code then
          if negb (bMatchedSlash st)
          then mkBase (Z.of_nat i + 1) (bEnd st) (bMatchedSlash st) (extIdx st)
                      (firstNonSlashEnd st)
          else basename_suffix_loop pf path suffix start i st
        else
          let st1 :=
            if (firstNonSlashEnd st =? -1)%Z
            then mkBase (bStart st) (bEnd st) false (extIdx st) (Z.of_nat i + 1)
            else st in
          let st2 :=
            if (0 <=? extIdx st1)%Z then
              if code =? charCodeAt suffix (Z.to_nat (extIdx st1)) then
                if (extIdx st1 - 1 =? -1)%Z
                then mkBase (bStart st1) (Z.of_nat i) (bMatchedSlash st1)
                            (extIdx st1 - 1) (firstNonSlashEnd st1)
                else mkBase (bStart st1) (bEnd st1) (bMatchedSlash st1)
                            (extIdx st1 - 1) (firstNonSlashEnd st1)
              else mkBase (bStart st1) (firstNonSlashEnd st1) (bMatchedSlash st1)
                          (-1) (firstNonSlashEnd st1)
            else st1 in
          basename_suffix_loop pf path suffix start i st2
  end.

(** The loop taken without a usable suffix. *)
Fixpoint basename_plain_loop (pf : platform) (path : jsstring)
    (start n : nat) (st : base_state) : base_state :=
  match n with
  | O => st
  | S i =>
      if (i <? start)%nat then st
      else
        if isPathSeparator pf (charCodeAt path i) then
          if negb (bMatchedSlash st)
          then mkBase (Z.of_nat i + 1) (bEnd st) (bMatchedSlash st) (extIdx st)
                      (firstNonSlashEnd st)
          else basename_plain_loop pf path start i st
        else if (bEnd st =? -1)%Z
             then basename_plain_loop pf path start i
                    (mkBase (bStart st) (Z.of_nat i + 1) false (extIdx st)
                            (firstNonSlashEnd st))
             else basename_plain_loop pf path start i st
  end.

Definition basename (pf : platform) (path suffix : jsstring) : jsstring :=
  let start := rootSkip pf path in
  if negb (length suffix =? 0)%nat && (length suffix <=? length path)%nat then
    if jseqb suffix path then []
    else
      let st := basename_suffix_loop pf path suffix start (length path)
                  (mkBase (Z.of_nat start) (-1) true
                          (Z.of_nat (length suffix) - 1) (-1)) in
      let stop :=
        if (bStart st =? bEnd st)%Z then firstNonSlashEnd st
        else if (bEnd st =? -1)%Z then Z.of_nat (length path)
             else bEnd st in
      slice path (bStart st) stop
  else
    let st := basename_plain_loop pf path start (length path)
                (mkBase (Z.of_nat start) (-1) true (-1) (-1)) in
    if (bEnd st =? -1)%Z then [] else slice path (bStart st) (bEnd st).

End Path.

(** ** fileNameSanitizer.js: [sanitizeFileName] *)
Module Sanitizer.

Import Path.

(** [/[^\w\s\-_.()[\]]/]: a character is problematic when it is outside
    this class. *)
Definition inSafeClass (c : N) : bool :=
  isWordChar c || isWhiteSpace c ||
  (c =? 45) || (c =? 95) || (c =? 46) || (c =? 40) || (c =? 41) ||
  (c =? 91) || (c =? 93).

(** [.replace(this.problematicChars, '_')] *)
Definition replaceProblematic (s : jsstring) : jsstring :=
  map (fun c => if inSafeClass c then c else UNDERSCORE) s.

(** [.replace(/\s+/g, '_')]: the scanner emits one underscore when a run
    of white space starts and swallows the rest of the run. *)
Fixpoint replaceSpaces (inRun : bool) (s : jsstring) : jsstring :=
  match s with
  | [] => []
  | c :: s' =>
      if isWhiteSpace c
      then (if inRun then replaceSpaces true s' else UNDERSCORE :: replaceSpaces true s')
      else c :: replaceSpaces false s'
  end.

(** [.replace(/^_+|_+$/g, '')] *)
Fixpoint dropLeadingUnderscores (s : jsstring) : jsstring :=
  match s with
  | c :: s' => if c =? UNDERSCORE then dropLeadingUnderscores s' else s
  | [] => []
  end.

Definition stripUnderscores (s : jsstring) : jsstring :=
  rev (dropLeadingUnderscores (rev (dropLeadingUnderscores s))).

Definition fallbackName : jsstring := js "sanitized_file".

Definition sanitizeFileName (pf : platform) (originalName : jsstring) : jsstring :=
  let ext := extname pf originalName in
  let baseName := basename pf originalName ext in
  let sanitized :=
    substring0 100 (replaceSpaces false (replaceProblematic baseName)) in
  let sanitized := stripUnderscores sanitized in
  let sanitized :=
    match sanitized with [] => fallbackName | _ => sanitized end in
  sanitized ++ ext.

End Sanitizer.

(** The sanitizer as the specification words it, step by step: a white-space
    character becomes one underscore when the character before it is not
    white space and disappears otherwise. *)
Module SanitizerSpec.

Definition replace_unsafe (s : jsstring) : jsstring :=
  map (fun c => if Sanitizer.inSafeClass c then c else UNDERSCORE) s.

Definition with_predecessor (s : jsstring) : list (option N * N) :=
  combine (None :: map Some s) s.

Definition collapse_whitespace (s : jsstring) : jsstring :=
  concat (map (fun pc : option N * N =>
                 let (prev, c) := pc in
                 if isWhiteSpace c then
                   match prev with
                   | Some p => if isWhiteSpace p then [] else [UNDERSCORE]
                   | None => [UNDERSCORE]
                   end
                 else [c])
              (with_predecessor s)).

Definition only_underscores (s : jsstring) : Prop := Forall (fun c => c = UNDERSCORE) s.

(** [core] is [s] with its leading and trailing underscores trimmed. *)
Definition trimmed_of (s core : jsstring) : Prop :=
  exists lead trail,
    s = lead ++ core ++ trail /\ only_underscores lead /\ only_underscores trail /\
    head core <> Some UNDERSCORE /\ last core <> Some UNDERSCORE.

End SanitizerSpec.

(** ** Names without separators, and the shape of a sanitized base

    A name is plain when it holds no separator of either flavour and no
    colon; on such names the loops of [extname] and [basename] are single
    right-to-left passes. *)
Module PlainNames.
Import Path.

Definition plainChar (c : N) : bool :=
  negb (c =? CHAR_FORWARD_SLASH) && negb (c =? CHAR_BACKWARD_SLASH) && negb (c =? CHAR_COLON).

Definition plain (s : jsstring) : Prop := List.Forall (fun c => plainChar c = true) s.
Definition dotFree (s : jsstring) : Prop := List.Forall (fun c => c <> CHAR_DOT) s.

(** The [extname] loop without separators: a right-to-left pass; the
    element at the head of the reversed list has index [k + length rest]. *)
Fixpoint ext_run (k : nat) (rl : jsstring) (st : ext_state) : ext_state :=
  match rl with
  | [] => st
  | c :: rl' => ext_run k rl' (ext_step c (k + length rl') st)
  end.

(** The state [extname] starts its loop in. *)
Definition ext_init : ext_state := mkExt (-1) 0 (-1) true 0.

(** [sanitizeFileName] without the extension: what the three replacements,
    the cut at 100 and the fallback make of a base name. *)
Definition sanitizedBase (b : jsstring) : jsstring :=
  match Sanitizer.stripUnderscores
          (substring0 100 (Sanitizer.replaceSpaces false (Sanitizer.replaceProblematic b))) with
  | [] => Sanitizer.fallbackName
  | c :: s => c :: s
  end.

(** What the sanitized base looks like: safe characters without white
    space, at most 100 of them, no underscore at either end, not empty. *)
Definition cleanChar (c : N) : Prop := Sanitizer.inSafeClass c = true /\ isWhiteSpace c = false.

Definition clean (t : jsstring) : Prop :=
  List.Forall cleanChar t /\ (length t <= 100)%nat /\
  head t <> Some UNDERSCORE /\ last t <> Some UNDERSCORE /\ t <> [].

End PlainNames.

(** ** Completions of JavaScript code: a value or a thrown [Error(message)]. *)
Inductive Res (A : Type) : Type :=
| Ok (a : A)
| Throw (message : jsstring).
Arguments Ok {A} a.
Arguments Throw {A} message.

(** ** fileSizeAnalyzer.js *)
Module SizeAnalyzer.

(** Entries of the [files] arrays; the objects built by the source have
    different shapes, absent properties are [None]. *)
Record SizeRecord := mkSizeRecord {
  sr_name : jsstring;
  sr_path : option jsstring;
  sr_size : Z;
  sr_extension : option jsstring;
  sr_originalName : option jsstring;
  sr_error : option jsstring
}.

Record InputData := mkInputData {
  in_files : list SizeRecord; in_totalSize : Z; in_totalFiles : Z
}.

Record OutputData := mkOutputData {
  out_files : list SizeRecord; out_totalSize : Z; out_totalFiles : Z;
  out_successfulFiles : Z
}.

Record Analyzer := mkAnalyzer {
  inputStats : option InputData;
  outputStats : option OutputData
}.

Record CompressionStats := mkStats {
  inputSize : Z; outputSize : Z; savings : Z; compressionRatio : Q;
  inputFiles : Z; outputFiles : Z; failedFiles : Z
}.

(** Sizes and counts are integers; the ratio is computed in exact rational
    arithmetic (the rounding of JavaScript numbers is not modelled). *)
Definition calculateStats (a : Analyzer) : Res CompressionStats :=
  match inputStats a, outputStats a with
  | Some i, Some o =>
      let inputSize := in_totalSize i in
      let outputSize := out_totalSize o in
      let savings := (inputSize - outputSize)%Z in
      let compressionRatio :=
        if (0 <? inputSize)%Z
        then ((inject_Z savings / inject_Z inputSize) * 100)%Q
        else 0%Q in
      Ok (mkStats inputSize outputSize savings compressionRatio
            (in_totalFiles i) (out_successfulFiles o)
            (in_totalFiles i - out_successfulFiles o)%Z)
  | _, _ => Throw (js "Must measure both input and output sizes first")
  end.

Definition reset (a : Analyzer) : Analyzer := mkAnalyzer None None.

End SizeAnalyzer.

(** [path.join] and [path.dirname], after the POSIX algorithms of Node with
    the separator test of the flavour; the Windows treatment of drive and
    UNC roots is not modelled (a drive prefix is an ordinary first
    segment). *)
Module PathJoin.
Import Path.

Fixpoint splitSegments (pf : platform) (s cur : jsstring) : list jsstring :=
  match s with
  | [] => [rev cur]
  | c :: s' =>
      if isPathSeparator pf c then rev cur :: splitSegments pf s' []
      else splitSegments pf s' (c :: cur)
  end.

(** One step of [normalizeString]; the stack holds the kept segments, last
    first. *)
Definition normalizeStep (allowAboveRoot : bool) (stack : list jsstring)
    (seg : jsstring) : list jsstring :=
  if jseqb seg [] || jseqb seg (js ".") then stack
  else if jseqb seg (js "..") then
    match stack with
    | top :: rest =>
        if jseqb top (js "..")
        then (if allowAboveRoot then seg :: stack else stack)
        else rest
    | [] => if allowAboveRoot then [seg] else []
    end
  else seg :: stack.

Fixpoint intercalate (s : jsstring) (parts : list jsstring) : jsstring :=
  match parts with
  | [] => []
  | [p] => p
  | p :: rest => p ++ s ++ intercalate s rest
  end.

Definition normalize (pf : platform) (path : jsstring) : jsstring :=
  match path with
  | [] => js "."
  | c0 :: _ =>
      let isAbsolute := isPathSeparator pf c0 in
      let trailing := isPathSeparator pf (List.last path 0) in
      let kept := rev (fold_left (normalizeStep (negb isAbsolute))
                                 (splitSegments pf path []) []) in
      let body := intercalate [sep pf] kept in
      match body with
      | [] => if isAbsolute then [sep pf]
              else if trailing then js "." ++ [sep pf] else js "."
      | _ => (if isAbsolute then [sep pf] else []) ++ body ++
             (if trailing then [sep pf] else [])
      end
  end.

Definition join (pf : platform) (parts : list jsstring) : jsstring :=
  match List.filter (fun p => negb (jseqb p [])) parts with
  | [] => js "."
  | used => normalize pf (intercalate [sep pf] used)
  end.

(** [for (let i = path.length - 1; i >= 1; --i)] of [dirname]; the result
    is [end], [-1] when no separator ends a parent. *)
Fixpoint dirname_loop (pf : platform) (path : jsstring) (n : nat)
    (matchedSlash : bool) : Z :=
  match n with
  | O => -1
  | S i =>
      if (i <? 1)%nat then -1
      else if isPathSeparator pf (charCodeAt path i) then
             if negb matchedSlash then Z.of_nat i
             else dirname_loop pf path i matchedSlash
           else dirname_loop pf path i false
  end.

Definition dirname (pf : platform) (path : jsstring) : jsstring :=
  match path with
  | [] => js "."
  | c0 :: _ =>
      let hasRoot := isPathSeparator pf c0 in
      let stop := dirname_loop pf path (length path) true in
      if (stop =? -1)%Z then (if hasRoot then [sep pf] else js ".")
      else if hasRoot && (stop =? 1)%Z then [sep pf; sep pf]
      else slice path 0 stop
  end.

(** [q] is [p] or lies below the directory [p]. *)
Definition under (pf : platform) (p q : jsstring) : bool :=
  jseqb q p ||
  (startsWith p q &&
   match nth_error q (length p) with
   | Some c => isPathSeparator pf c
   | None => false
   end).

End PathJoin.

(** ** Processor state, filesystem and environment *)
Module Runtime.
Import Path PathJoin.

Record ImageFile := mkImageFile {
  name : jsstring; fullPath : jsstring; extension : jsstring; relativePath : jsstring
}.

(** The result objects: [{original, compressed, success: true, finalPath}]
    (the imagemin variant leaves [finalPath] out) or
    [{original, error, success: false}]. *)
Inductive ProcessingResult :=
| Success (original compressed : jsstring) (finalPath : option jsstring)
| Failure (original error : jsstring).

Definition succeeded (r : ProcessingResult) : bool :=
  match r with Success _ _ _ => true | Failure _ _ => false end.

Definition originalOf (r : ProcessingResult) : jsstring :=
  match r with Success o _ _ => o | Failure o _ => o end.

Record ProgressEvent := mkProgress {
  current : Z; total : Z; percent : Q; message : jsstring
}.

(** What a recursive walk meets below a folder, in the order in which
    [scanRecursively] comes to it: a file with a supported extension (the
    object pushed for it), any other entry that is not a directory, or a
    sub-folder, whose own entries follow it. The walk does nothing when it
    leaves a sub-folder, so the order of the visits is all it depends on. *)
Inductive Visit :=
| Picture (file : ImageFile)
| Skipped
| Subfolder.

Fixpoint pictures (visits : list Visit) : list ImageFile :=
  match visits with
  | [] => []
  | Picture file :: rest => file :: pictures rest
  | _ :: rest => pictures rest
  end.

(** What can happen while the program is suspended at an [await]: the user
    asks for cancellation and [cancel()] runs, with every removal it
    attempts done ([CancelRequested]) or with the given outcome for each
    of them in turn, [Some message] for a removal that [fs.rm] rejects,
    and those beyond the list done ([CancelHindered]); or the user removes
    a folder. *)
Inductive Ext :=
| CancelRequested
| CancelHindered (rejections : list (option jsstring))
| FolderRemoved (path : jsstring).

(** The environment's part in one [await]: events before and after the
    awaited operation takes effect, an external failure of the operation
    (when [Some message]), the byte size it produces, the time it takes. *)
Record Tick := mkTick {
  before : list Ext; failure : option jsstring; bytes : Z; elapsed : Z;
  after : list Ext
}.

Definition idle : Tick := mkTick [] None 0 0 [].

Record TempInfo := mkTempInfo { ti_original : jsstring; ti_originalName : jsstring }.

Record State := mkState {
  (* the fields of ImageProcessor, its size analyzer and its sanitizer *)
  isCancelled : bool;
  progressCallback : bool;
  processingStartTime : option Z;
  processedCount : Z;
  avgProcessingTime : Q;
  currentOutputPath : option jsstring;
  tempDirectories : list jsstring;
  sizeAnalyzer : SizeAnalyzer.Analyzer;
  tempFileMap : gmap jsstring TempInfo;
  (* the world: directories, files with their sizes, what a recursive walk
     meets below a folder, the clock, [new Date().toISOString()],
     [Math.random().toString(36)], and the script of the awaits to come *)
  dirs : gset jsstring;
  files : gmap jsstring Z;
  below : jsstring -> list Visit;
  clock : Z;
  isoNow : jsstring;
  randomDraw : jsstring;
  script : list Tick;
  (* observations: the events handed to the progress callback, the
     directories made by [mkdir], the value of [processedCount] when
     [cancel()] first ran, the paths whose removal [fs.rm] rejected *)
  emitted : list ProgressEvent;
  created : list jsstring;
  cancelledAt : option Z;
  rejected : list jsstring
}.

Definition set_isCancelled (v : bool) (st : State) : State :=
  mkState v (progressCallback st) (processingStartTime st)
    (processedCount st) (avgProcessingTime st) (currentOutputPath st)
    (tempDirectories st) (sizeAnalyzer st) (tempFileMap st) (dirs st)
    (files st) (below st) (clock st) (isoNow st) (randomDraw st)
    (script st) (emitted st) (created st) (cancelledAt st) (rejected st).

Definition set_progressCallback (v : bool) (st : State) : State :=
  mkState (isCancelled st) v (processingStartTime st) (processedCount st)
    (avgProcessingTime st) (currentOutputPath st) (tempDirectories st)
    (sizeAnalyzer st) (tempFileMap st) (dirs st) (files st) (below st)
    (clock st) (isoNow st) (randomDraw st) (script st) (emitted st)
    (created st) (cancelledAt st) (rejected st).

Definition set_processingStartTime (v : option Z) (st : State) : State :=
  mkState (isCancelled st) (progressCallback st) v (processedCount st)
    (avgProcessingTime st) (currentOutputPath st) (tempDirectories st)
    (sizeAnalyzer st) (tempFileMap st) (dirs st) (files st) (below st)
    (clock st) (isoNow st) (randomDraw st) (script st) (emitted st)
    (created st) (cancelledAt st) (rejected st).

Definition set_processedCount (v : Z) (st : State) : State :=
  mkState (isCancelled st) (progressCallback st) (processingStartTime st) v
    (avgProcessingTime st) (currentOutputPath st) (tempDirectories st)
    (sizeAnalyzer st) (tempFileMap st) (dirs st) (files st) (below st)
    (clock st) (isoNow st) (randomDraw st) (script st) (emitted st)
    (created st) (cancelledAt st) (rejected st).

Definition set_avgProcessingTime (v : Q) (st : State) : State :=
  mkState (isCancelled st) (progressCallback st) (processingStartTime st)
    (processedCount st) v (currentOutputPath st) (tempDirectories st)
    (sizeAnalyzer st) (tempFileMap st) (dirs st) (files st) (below st)
    (clock st) (isoNow st) (randomDraw st) (script st) (emitted st)
    (created st) (cancelledAt st) (rejected st).

Definition set_currentOutputPath (v : option jsstring) (st : State) : State :=
  mkState (isCancelled st) (progressCallback st) (processingStartTime st)
    (processedCount st) (avgProcessingTime st) v (tempDirectories st)
    (sizeAnalyzer st) (tempFileMap st) (dirs st) (files st) (below st)
    (clock st) (isoNow st) (randomDraw st) (script st) (emitted st)
    (created st) (cancelledAt st) (rejected st).

Definition set_tempDirectories (v : list jsstring) (st : State) : State :=
  mkState (isCancelled st) (progressCallback st) (processingStartTime st)
    (processedCount st) (avgProcessingTime st) (currentOutputPath st) v
    (sizeAnalyzer st) (tempFileMap st) (dirs st) (files st) (below st)
    (clock st) (isoNow st) (randomDraw st) (script st) (emitted st)
    (created st) (cancelledAt st) (rejected st).

Definition set_sizeAnalyzer (v : SizeAnalyzer.Analyzer) (st : State) : State :=
  mkState (isCancelled st) (progressCallback st) (processingStartTime st)
    (processedCount st) (avgProcessingTime st) (currentOutputPath st)
    (tempDirectories st) v (tempFileMap st) (dirs st) (files st) (below st)
    (clock st) (isoNow st) (randomDraw st) (script st) (emitted st)
    (created st) (cancelledAt st) (rejected st).

Definition set_tempFileMap (v : gmap jsstring TempInfo) (st : State) : State :=
  mkState (isCancelled st) (progressCallback st) (processingStartTime st)
    (processedCount st) (avgProcessingTime st) (currentOutputPath st)
    (tempDirectories st) (sizeAnalyzer st) v (dirs st) (files st)
    (below st) (clock st) (isoNow st) (randomDraw st) (script st)
    (emitted st) (created st) (cancelledAt st) (rejected st).

Definition set_dirs (v : gset jsstring) (st : State) : State :=
  mkState (isCancelled st) (progressCallback st) (processingStartTime st)
    (processedCount st) (avgProcessingTime st) (currentOutputPath st)
    (tempDirectories st) (sizeAnalyzer st) (tempFileMap st) v (files st)
    (below st) (clock st) (isoNow st) (randomDraw st) (script st)
    (emitted st) (created st) (cancelledAt st) (rejected st).

Definition set_files (v : gmap jsstring Z) (st : State) : State :=
  mkState (isCancelled st) (progressCallback st) (processingStartTime st)
    (processedCount st) (avgProcessingTime st) (currentOutputPath st)
    (tempDirectories st) (sizeAnalyzer st) (tempFileMap st) (dirs st) v
    (below st) (clock st) (isoNow st) (randomDraw st) (script st)
    (emitted st) (created st) (cancelledAt st) (rejected st).

Definition set_clock (v : Z) (st : State) : State :=
  mkState (isCancelled st) (progressCallback st) (processingStartTime st)
    (processedCount st) (avgProcessingTime st) (currentOutputPath st)
    (tempDirectories st) (sizeAnalyzer st) (tempFileMap st) (dirs st)
    (files st) (below st) v (isoNow st) (randomDraw st) (script st)
    (emitted st) (created st) (cancelledAt st) (rejected st).

Definition set_script (v : list Tick) (st : State) : State :=
  mkState (isCancelled st) (progressCallback st) (processingStartTime st)
    (processedCount st) (avgProcessingTime st) (currentOutputPath st)
    (tempDirectories st) (sizeAnalyzer st) (tempFileMap st) (dirs st)
    (files st) (below st) (clock st) (isoNow st) (randomDraw st) v
    (emitted st) (created st) (cancelledAt st) (rejected st).

Definition set_emitted (v : list ProgressEvent) (st : State) : State :=
  mkState (isCancelled st) (progressCallback st) (processingStartTime st)
    (processedCount st) (avgProcessingTime st) (currentOutputPath st)
    (tempDirectories st) (sizeAnalyzer st) (tempFileMap st) (dirs st)
    (files st) (below st) (clock st) (isoNow st) (randomDraw st)
    (script st) v (created st) (cancelledAt st) (rejected st).

Definition set_created (v : list jsstring) (st : State) : State :=
  mkState (isCancelled st) (progressCallback st) (processingStartTime st)
    (processedCount st) (avgProcessingTime st) (currentOutputPath st)
    (tempDirectories st) (sizeAnalyzer st) (tempFileMap st) (dirs st)
    (files st) (below st) (clock st) (isoNow st) (randomDraw st)
    (script st) (emitted st) v (cancelledAt st) (rejected st).

Definition set_cancelledAt (v : option Z) (st : State) : State :=
  mkState (isCancelled st) (progressCallback st) (processingStartTime st)
    (processedCount st) (avgProcessingTime st) (currentOutputPath st)
    (tempDirectories st) (sizeAnalyzer st) (tempFileMap st) (dirs st)
    (files st) (below st) (clock st) (isoNow st) (randomDraw st)
    (script st) (emitted st) (created st) v (rejected st).

Definition set_rejected (v : list jsstring) (st : State) : State :=
  mkState (isCancelled st) (progressCallback st) (processingStartTime st)
    (processedCount st) (avgProcessingTime st) (currentOutputPath st)
    (tempDirectories st) (sizeAnalyzer st) (tempFileMap st) (dirs st)
    (files st) (below st) (clock st) (isoNow st) (randomDraw st)
    (script st) (emitted st) (created st) (cancelledAt st) v.

(** The image files a walk below [p] collects: the pictures among what it
    meets, in that order. *)
Definition listing (st : State) (p : jsstring) : list ImageFile := pictures (below st p).

(** ** Computations: state passing with exceptions *)
Definition M (A : Type) : Type := State -> Res A * State.

#[global] Instance M_ret : MRet M := fun A a st => (Ok a, st).

#[global] Instance M_bind : MBind M := fun A B f m st =>
  match m st with
  | (Ok a, st') => f a st'
  | (Throw e, st') => (Throw e, st')
  end.

Definition throw {A} (message : jsstring) : M A := fun st => (Throw message, st).

Definition tryCatch {A} (body : M A) (handler : jsstring -> M A) : M A :=
  fun st =>
    match body st with
    | (Ok a, st') => (Ok a, st')
    | (Throw e, st') => handler e st'
    end.

Definition get : M State := fun st => (Ok st, st).
Definition gets {A} (f : State -> A) : M A := fun st => (Ok (f st), st).
Definition modify (f : State -> State) : M unit := fun st => (Ok tt, f st).

Definition ENOENT : jsstring := js "ENOENT: no such file or directory".

Definition pathExists (p : jsstring) (st : State) : bool :=
  bool_decide (p ∈ dirs st) || bool_decide (is_Some (files st !! p)).

Definition rm_rf (pf : platform) (p : jsstring) (st : State) : State :=
  set_dirs (filter (fun q => under pf p q = false) (dirs st))
    (set_files (filter (fun kv : jsstring * Z => under pf p kv.1 = false) (files st)) st).

Record Stats := mkStats { st_size : Z; st_isDirectory : bool }.

Section Awaits.

Variable pf : platform.

(** How the program reacts to an external event. *)
Variable handle : Ext -> State -> State.

Definition interfere (events : list Ext) (st : State) : State :=
  fold_left (fun s e => handle e s) events st.

(** One [await]: the next tick of the script is consumed (an idle tick when
    the script is exhausted), its events run around the operation. *)
Definition await {A} (op : Tick -> M A) : M A := fun st =>
  let t := match script st with [] => idle | t :: _ => t end in
  let st0 := set_script (tail (script st)) st in
  let st1 := interfere (before t) st0 in
  let st2 := set_clock (clock st1 + elapsed t)%Z st1 in
  let (r, st3) := op t st2 in
  (r, interfere (after t) st3).

(** The tick the next [await] consumes, and the state in which the awaited
    operation then runs: the events that came first have been handled and
    the clock has advanced. *)
Definition nextTick (st : State) : Tick :=
  match script st with [] => idle | t :: _ => t end.

Definition resumed (st : State) : State :=
  let st1 := interfere (before (nextTick st)) (set_script (tail (script st)) st) in
  set_clock (clock st1 + elapsed (nextTick st))%Z st1.

(** An operation that the environment can make fail. *)
Definition fallible {A} (t : Tick) (op : M A) : M A :=
  match failure t with
  | Some message => throw message
  | None => op
  end.

Definition fs_access (p : jsstring) : M unit :=
  await (fun _ => ok ← gets (pathExists p); if ok : bool then mret tt else throw ENOENT).

Definition fs_stat (p : jsstring) : M Stats :=
  await (fun t => fallible t (
    st ← get;
    if bool_decide (p ∈ dirs st) then mret (mkStats 0 true)
    else match files st !! p with
         | Some n => mret (mkStats n false)
         | None => throw ENOENT
         end)).

(** [fs.mkdir(p, { recursive: true })] *)
Definition fs_mkdir (p : jsstring) : M unit :=
  await (fun t => fallible t (
    modify (fun st => set_created (created st ++ [p]) (set_dirs ({[p]} ∪ dirs st) st)))).

(** [fs.rm(p, { recursive: true, force: true })]: removes the tree and does
    not complain when it is absent, but can still be rejected (EPERM,
    EBUSY, ENOTEMPTY); then [p] stays, and the rejection is noted. What a
    rejected removal has already taken away below [p] is not modelled. *)
Definition fs_rm (p : jsstring) : M unit :=
  await (fun t =>
    match failure t with
    | Some message =>
        modify (fun st => set_rejected (rejected st ++ [p]) st);;
        throw message
    | None => modify (rm_rf pf p)
    end).

Definition fs_unlink (p : jsstring) : M unit :=
  await (fun t => fallible t (
    st ← get;
    match files st !! p with
    | Some _ => modify (fun st => set_files (delete p (files st)) st)
    | None => throw ENOENT
    end)).

Definition fs_copyFile (src dst : jsstring) : M unit :=
  await (fun t => fallible t (
    st ← get;
    match files st !! src with
    | Some n => modify (fun st => set_files (<[dst := n]> (files st)) st)
    | None => throw ENOENT
    end)).

Definition fs_rename (src dst : jsstring) : M unit :=
  await (fun t => fallible t (
    st ← get;
    match files st !! src with
    | Some n => modify (fun st => set_files (<[dst := n]> (delete src (files st))) st)
    | None => throw ENOENT
    end)).

(** [fs.readdir(p, { withFileTypes: true })] for the folder the walk
    starts from: the entries below it come back as the visits the walk
    will make. *)
Definition fs_readdir (p : jsstring) : M (list Visit) :=
  await (fun t => fallible t (st ← get; mret (below st p))).

(** [fs.readdir] for a sub-folder met on the way: its entries are already
    among the visits to come. *)
Definition fs_readdir_sub : M unit :=
  await (fun t => fallible t (mret tt)).

End Awaits.

End Runtime.

(** ** imageProcessor.js, Sharp variant: the sequential orchestrator *)
Module Sharp.
Import Path PathJoin Runtime.

Record WebPSettings := mkWebP {
  quality : Z; effort : Z; alphaQuality : Z; lossless : bool
}.

(** [toLowerCase] on the ASCII letters, enough for the comparison with
    [.png] and [.svg]. *)
Definition toLowerCase (s : jsstring) : jsstring :=
  map (fun c => if between 65 90 c then c + 32 else c) s.

Definition getWebPSettings (inputFormat inputPath : jsstring) : WebPSettings :=
  let baseSettings := mkWebP 75 1 75 false in
  let fmt := toLowerCase inputFormat in
  if jseqb fmt (js ".png") then mkWebP 80 1 80 false
  else if jseqb fmt (js ".svg") then mkWebP 75 1 75 true
  else baseSettings.

Definition getProgressInterval (totalFiles : Z) : Z := 1.

(** [/[^\w\s\-_.()[\]]/g.test(filename)] *)
Definition needsSanitization (filename : jsstring) : bool :=
  existsb (fun c => negb (Sanitizer.inSafeClass c)) filename.

(** Decimal text of an integer, as a template literal prints it. *)
Definition showZ (z : Z) : jsstring := js (NilZero.string_of_int (Z.to_int z)).

(** The text [" • "] that opens the time messages. *)
Definition bullet : jsstring := [32; 8226; 32].

Record RunResult := mkRunResult {
  processedFiles : Z; totalFiles : Z; outputPath : jsstring;
  results : list ProcessingResult;
  compressionStats : SizeAnalyzer.CompressionStats
}.

(** How an iteration of the file loop ends; both carry the loop's local
    variables [tempDirCreated] and [results]. *)
Inductive Outcome :=
| Next (tempDirCreated : bool) (results : list ProcessingResult)
| Break (tempDirCreated : bool) (results : list ProcessingResult).

Section Flow.

Variable pf : platform.
Variable handle : Ext -> State -> State.

(** [await sharp(src).webp(settings).toFile(dst)]: the codec is external,
    the environment decides whether it fails and how many bytes it
    writes. *)
Definition sharp_toFile (src : jsstring) (settings : WebPSettings) (dst : jsstring) : M unit :=
  await handle (fun t => fallible t (
    modify (fun st => set_files (<[dst := bytes t]> (files st)) st))).

Definition updateProgress (current total : Z) (percent : Q) (message : jsstring) : M unit :=
  st ← get;
  if progressCallback st && negb (isCancelled st)
  then modify (fun st => set_emitted (emitted st ++ [mkProgress current total percent message]) st)
  else mret tt.

Definition updateProcessingStats (processingTime : Z) : M unit :=
  modify (fun st =>
    if (processedCount st =? 0)%Z
    then set_avgProcessingTime (inject_Z processingTime) st
    else set_avgProcessingTime
           (avgProcessingTime st * (7 # 10) + inject_Z processingTime * (3 # 10))%Q st).

Definition calculateETA (totalFiles : Z) : M jsstring :=
  st ← get;
  let noStart := match processingStartTime st with
                 | None => true
                 | Some t => (t =? 0)%Z
                 end in
  if (processedCount st =? 0)%Z || noStart || isCancelled st
  then mret (bullet ++ js "calculating time...")
  else
    let remainingFiles := (totalFiles - processedCount st)%Z in
    if (remainingFiles <=? 0)%Z then mret (bullet ++ js "finishing...")
    else
      let estimatedMs := (inject_Z remainingFiles * avgProcessingTime st)%Q in
      let estimatedSeconds := Qceiling (estimatedMs / 1000) in
      if (60 <? estimatedSeconds)%Z then
        let minutes := Qceiling (inject_Z estimatedSeconds / 60) in
        mret (bullet ++ js "~" ++ showZ minutes ++ js "min remaining")
      else if (5 <? estimatedSeconds)%Z then
        mret (bullet ++ js "~" ++ showZ estimatedSeconds ++ js "s remaining")
      else mret (bullet ++ js "almost done...").

(** The [for ... of this.tempDirectories] of [performCleanup]; a failing
    removal is logged and the loop goes on. *)
Fixpoint removeTempDirectories (ds : list jsstring) : M unit :=
  match ds with
  | [] => mret tt
  | tempDir :: rest =>
      tryCatch (fs_rm pf handle tempDir) (fun _ => mret tt);;
      removeTempDirectories rest
  end.

Definition performCleanup : M unit :=
  tryCatch (
    ds ← gets tempDirectories;
    removeTempDirectories ds;;
    st ← get;
    match currentOutputPath st with
    | Some out =>
        if negb (jseqb out []) && (processedCount st =? 0)%Z
        then tryCatch (fs_rm pf handle out) (fun _ => mret tt)
        else mret tt
    | None => mret tt
    end)
  (fun _ => mret tt).

(** [cancel()]; the first call also notes, for the record, how many files
    had been processed. *)
Definition cancel : M unit :=
  modify (fun st =>
    set_cancelledAt (match cancelledAt st with
                     | None => Some (processedCount st)
                     | Some n => Some n
                     end)
      (set_isCancelled true st));;
  performCleanup.

(** The [for (const file of files)] loops of [scanRecursively], over the
    visits in order: the flag is checked at every entry, a picture is
    pushed, a sub-folder is entered, with the check and the [readdir] that
    open [scanRecursively]. *)
Fixpoint scanEntries (visits : list Visit) (imageFiles : list ImageFile)
    : M (list ImageFile) :=
  match visits with
  | [] => mret imageFiles
  | visit :: rest =>
      c ← gets isCancelled;
      if c : bool then throw (js "Scanning cancelled by user")
      else
        match visit with
        | Picture file => scanEntries rest (imageFiles ++ [file])
        | Skipped => scanEntries rest imageFiles
        | Subfolder =>
            c ← gets isCancelled;
            if c : bool then throw (js "Scanning cancelled by user")
            else fs_readdir_sub handle;; scanEntries rest imageFiles
        end
  end.

Definition scanForImages (folderPath : jsstring) : M (list ImageFile) :=
  tryCatch (
    c ← gets isCancelled;
    if c : bool then throw (js "Scanning cancelled by user")
    else
      visits ← fs_readdir handle folderPath;
      scanEntries visits [])
  (fun message =>
    c ← gets isCancelled;
    if c || includes message (js "cancelled")
    then throw (js "Folder scanning was cancelled by user")
    else throw (js "Failed to scan folder: " ++ message)).

(** [new Date().toISOString().replace(/[:.]/g, '-').slice(0, -5)] *)
Definition timestamp (st : State) : jsstring :=
  slice (map (fun c => if (c =? 58) || (c =? 46) then 45 else c) (isoNow st)) 0 (-5).

(** [sanitizer.getTempDirName()] *)
Definition getTempDirName : M jsstring :=
  st ← get;
  mret (js "temp_imagemin_" ++ timestamp st ++ js "_" ++ skipn 7 (randomDraw st)).

Definition createOutputFolder (inputPath : jsstring) : M jsstring :=
  c ← gets isCancelled;
  if c : bool then throw (js "Cancelled before creating output folder")
  else
    inputStats ← fs_stat handle inputPath;
    let outputPath :=
      if st_isDirectory inputStats
      then join pf [dirname pf inputPath; basename pf inputPath [] ++ js "_compressed"]
      else join pf [dirname pf inputPath; js "compressed_images"] in
    outputPath ← tryCatch (
        fs_access handle outputPath;;
        st ← get;
        mret (outputPath ++ js "_" ++ timestamp st))
      (fun _ => mret outputPath);
    fs_mkdir handle outputPath;;
    modify (set_currentOutputPath (Some outputPath));;
    mret outputPath.

Definition processSharpClean (file : ImageFile) (outputPath : jsstring) : M ProcessingResult :=
  tryCatch (
    c ← gets isCancelled;
    if c : bool then throw (js "Processing cancelled before Sharp processing")
    else
      let outputBaseName := basename pf (name file) (extname pf (name file)) in
      let outputFileName := outputBaseName ++ js ".webp" in
      let outputFilePath := join pf [outputPath; outputFileName] in
      let webpSettings := getWebPSettings (extension file) (fullPath file) in
      sharp_toFile (fullPath file) webpSettings outputFilePath;;
      c ← gets isCancelled;
      if c : bool then
        tryCatch (fs_unlink handle outputFilePath) (fun _ => mret tt);;
        throw (js "Processing cancelled after Sharp processing")
      else mret (Success (name file) outputFileName (Some outputFilePath)))
  (fun message =>
    c ← gets isCancelled;
    if c || includes message (js "cancelled") then throw message
    else if includes message (js "Input file is missing")
    then throw (js "File not found: " ++ name file)
    else if includes message (js "Input file contains unsupported image format")
    then throw (js "Unsupported format in " ++ name file)
    else if includes message (js "Input image exceeds pixel limit")
    then throw (js "Image too large: " ++ name file)
    else throw (js "Sharp processing failed for " ++ name file ++ js ": " ++ message)).

Definition processSharpSanitized (file : ImageFile) (outputPath tempDir : jsstring)
    : M ProcessingResult :=
  tryCatch (
    c ← gets isCancelled;
    if c : bool then throw (js "Processing cancelled before sanitized Sharp processing")
    else
      let sanitizedName := Sanitizer.sanitizeFileName pf (name file) in
      let tempPath := join pf [tempDir; sanitizedName] in
      fs_copyFile handle (fullPath file) tempPath;;
      let originalBaseName := basename pf (name file) (extname pf (name file)) in
      let finalName := originalBaseName ++ js ".webp" in
      let finalPath := join pf [outputPath; finalName] in
      let webpSettings := getWebPSettings (extension file) tempPath in
      sharp_toFile tempPath webpSettings finalPath;;
      tryCatch (fs_unlink handle tempPath) (fun _ => mret tt);;
      c ← gets isCancelled;
      if c : bool then
        tryCatch (fs_unlink handle finalPath) (fun _ => mret tt);;
        throw (js "Processing cancelled after sanitized Sharp processing")
      else mret (Success (name file) finalName (Some finalPath)))
  (fun message =>
    c ← gets isCancelled;
    if c || includes message (js "cancelled") then throw message
    else throw (js "Sharp sanitized processing failed for " ++ name file ++ js ": " ++ message)).

(** The [catch] of the loop body. *)
Definition onFileError (file : ImageFile) (tempDirCreated : bool)
    (results : list ProcessingResult) (message : jsstring) : M Outcome :=
  c ← gets isCancelled;
  if c || includes message (js "cancelled") then mret (Break tempDirCreated results)
  else
    modify (fun st => set_processedCount (processedCount st + 1) st);;
    mret (Next tempDirCreated (results ++ [Failure (name file) message])).

(** The end of the [try] of the loop body, once the file has its result. *)
Definition recordResult (file : ImageFile) (count : Z) (fileStartTime : Z)
    (tempDirCreated : bool) (results : list ProcessingResult)
    (result : ProcessingResult) : M Outcome :=
  now ← gets clock;
  updateProcessingStats (now - fileStartTime);;
  modify (fun st => set_processedCount (processedCount st + 1) st);;
  processed ← gets processedCount;
  let currentProgress := (inject_Z processed / inject_Z count * 100)%Q in
  etaMessage ← calculateETA count;
  updateProgress processed count currentProgress (name file ++ etaMessage);;
  mret (Next tempDirCreated (results ++ [result])).

(** One iteration of the file loop. The [try] block is cut where
    [tempDirCreated] is assigned, so that the handler reads the value the
    variable has when the exception is thrown: [prepareFile] is the block up
    to that point, with the handler; [convertFile] is the rest, with the
    same handler. *)
Definition prepareFile (outputPath tempDir : jsstring) (file : ImageFile)
    (tempDirCreated : bool) (results : list ProcessingResult) : M (Outcome + bool) :=
  tryCatch (
    c ← gets isCancelled;
    if c : bool then mret (inl (Break tempDirCreated results))
    else
      tryCatch (fs_access handle outputPath)
        (fun _ => throw (js "Output folder was removed - processing cancelled"));;
      if needsSanitization (name file) then
        (if negb tempDirCreated then
           fs_mkdir handle tempDir;;
           modify (fun st => set_tempDirectories (tempDirectories st ++ [tempDir]) st)
         else mret tt);;
        mret (inr true)
      else mret (inr tempDirCreated))
  (fun message => o ← onFileError file tempDirCreated results message; mret (inl o)).

Definition convertFile (outputPath tempDir : jsstring) (count : Z) (file : ImageFile)
    (fileStartTime : Z) (tempDirCreated : bool) (results : list ProcessingResult)
    : M Outcome :=
  tryCatch (
    result ← (if needsSanitization (name file)
              then processSharpSanitized file outputPath tempDir
              else processSharpClean file outputPath);
    recordResult file count fileStartTime tempDirCreated results result)
  (onFileError file tempDirCreated results).

Definition processFile (outputPath tempDir : jsstring) (count : Z) (file : ImageFile)
    (tempDirCreated : bool) (results : list ProcessingResult) : M Outcome :=
  c ← gets isCancelled;
  if c : bool then mret (Break tempDirCreated results)
  else
    fileStartTime ← gets clock;
    prepared ← prepareFile outputPath tempDir file tempDirCreated results;
    match prepared with
    | inl o => mret o
    | inr tempDirCreated =>
        convertFile outputPath tempDir count file fileStartTime tempDirCreated results
    end.

Fixpoint fileLoop (outputPath tempDir : jsstring) (count : Z) (imageFiles : list ImageFile)
    (tempDirCreated : bool) (results : list ProcessingResult)
    : M (bool * list ProcessingResult) :=
  match imageFiles with
  | [] => mret (tempDirCreated, results)
  | file :: rest =>
      o ← processFile outputPath tempDir count file tempDirCreated results;
      match o with
      | Next created' results' => fileLoop outputPath tempDir count rest created' results'
      | Break created' results' => mret (created', results')
      end
  end.

Definition processSharpSequential (imageFiles : list ImageFile) (outputPath : jsstring)
    (progressInterval : Z) : M (list ProcessingResult) :=
  modify (fun st => set_processingStartTime (Some (clock st)) st);;
  tempDirName ← getTempDirName;
  let tempDir := join pf [outputPath; js ".."; tempDirName] in
  loopEnd ← fileLoop outputPath tempDir (Z.of_nat (length imageFiles)) imageFiles false [];
  let tempDirCreated := loopEnd.1 in
  let results := loopEnd.2 in
  c ← gets isCancelled;
  (if tempDirCreated && negb c then
     tryCatch (
       fs_rm pf handle tempDir;;
       modify (fun st =>
         set_tempDirectories
           (List.filter (fun dir => negb (jseqb dir tempDir)) (tempDirectories st)) st))
     (fun _ => mret tt)
   else mret tt);;
  mret results.

(** [sizeAnalyzer.measureInputSizes] *)
Fixpoint measureInputLoop (imageFiles : list ImageFile) (inputData : SizeAnalyzer.InputData)
    : M SizeAnalyzer.InputData :=
  match imageFiles with
  | [] => mret inputData
  | imageFile :: rest =>
      inputData ← tryCatch (
          stats ← fs_stat handle (fullPath imageFile);
          mret (SizeAnalyzer.mkInputData
                  (SizeAnalyzer.in_files inputData ++
                   [SizeAnalyzer.mkSizeRecord (name imageFile) (Some (fullPath imageFile))
                      (st_size stats) (Some (extension imageFile)) None None])
                  (SizeAnalyzer.in_totalSize inputData + st_size stats)
                  (SizeAnalyzer.in_totalFiles inputData)))
        (fun message =>
          mret (SizeAnalyzer.mkInputData
                  (SizeAnalyzer.in_files inputData ++
                   [SizeAnalyzer.mkSizeRecord (name imageFile) (Some (fullPath imageFile))
                      0 None None (Some message)])
                  (SizeAnalyzer.in_totalSize inputData)
                  (SizeAnalyzer.in_totalFiles inputData)));
      measureInputLoop rest inputData
  end.

Definition measureInputSizes (imageFiles : list ImageFile) : M SizeAnalyzer.InputData :=
  inputData ← measureInputLoop imageFiles
                 (SizeAnalyzer.mkInputData [] 0 (Z.of_nat (length imageFiles)));
  modify (fun st =>
    set_sizeAnalyzer
      (SizeAnalyzer.mkAnalyzer (Some inputData) (SizeAnalyzer.outputStats (sizeAnalyzer st)))
      st);;
  mret inputData.

(** [sizeAnalyzer.measureOutputSizes] *)
Fixpoint measureOutputLoop (outputPath : jsstring) (processingResults : list ProcessingResult)
    (outputData : SizeAnalyzer.OutputData) : M SizeAnalyzer.OutputData :=
  match processingResults with
  | [] => mret outputData
  | Failure original error :: rest =>
      measureOutputLoop outputPath rest
        (SizeAnalyzer.mkOutputData
           (SizeAnalyzer.out_files outputData ++
            [SizeAnalyzer.mkSizeRecord original None 0 None None
               (Some (match error with [] => js "Processing failed" | _ => error end))])
           (SizeAnalyzer.out_totalSize outputData)
           (SizeAnalyzer.out_totalFiles outputData)
           (SizeAnalyzer.out_successfulFiles outputData))
  | Success original compressed finalPath :: rest =>
      outputData ← tryCatch (
          let compressedFilePath :=
            match finalPath with
            | Some (c :: p) => c :: p
            | _ =>
                match compressed with
                | _ :: _ => join pf [outputPath; compressed]
                | [] => join pf [outputPath;
                                 basename pf original (extname pf original) ++ js ".webp"]
                end
            end in
          stats ← fs_stat handle compressedFilePath;
          mret (SizeAnalyzer.mkOutputData
                  (SizeAnalyzer.out_files outputData ++
                   [SizeAnalyzer.mkSizeRecord
                      (match compressed with [] => original | _ => compressed end)
                      (Some compressedFilePath) (st_size stats) None (Some original) None])
                  (SizeAnalyzer.out_totalSize outputData + st_size stats)
                  (SizeAnalyzer.out_totalFiles outputData)
                  (SizeAnalyzer.out_successfulFiles outputData + 1)))
        (fun message =>
          mret (SizeAnalyzer.mkOutputData
                  (SizeAnalyzer.out_files outputData ++
                   [SizeAnalyzer.mkSizeRecord original None 0 None None (Some message)])
                  (SizeAnalyzer.out_totalSize outputData)
                  (SizeAnalyzer.out_totalFiles outputData)
                  (SizeAnalyzer.out_successfulFiles outputData)));
      measureOutputLoop outputPath rest outputData
  end.

Definition measureOutputSizes (outputPath : jsstring)
    (processingResults : list ProcessingResult) : M SizeAnalyzer.OutputData :=
  outputData ← measureOutputLoop outputPath processingResults
                  (SizeAnalyzer.mkOutputData [] 0 0 0);
  let outputData :=
    SizeAnalyzer.mkOutputData (SizeAnalyzer.out_files outputData)
      (SizeAnalyzer.out_totalSize outputData)
      (Z.of_nat (length (SizeAnalyzer.out_files outputData)))
      (SizeAnalyzer.out_successfulFiles outputData) in
  modify (fun st =>
    set_sizeAnalyzer
      (SizeAnalyzer.mkAnalyzer (SizeAnalyzer.inputStats (sizeAnalyzer st)) (Some outputData))
      st);;
  mret outputData.

Definition calculateStats : M SizeAnalyzer.CompressionStats :=
  fun st => (SizeAnalyzer.calculateStats (sizeAnalyzer st), st).

(** The assignments that open [processImages]. *)
Definition startRun (progressCallback : bool) (st : State) : State :=
  set_tempDirectories [] (set_currentOutputPath None (set_avgProcessingTime 0
    (set_processedCount 0 (set_processingStartTime None (set_isCancelled false
      (set_progressCallback progressCallback st)))))).

(** The [try] block of [processImages]; the display strings of
    [formatStatsForUI] are left out, the statistics are returned as
    numbers. *)
Definition processImagesTry (inputPath : jsstring) : M RunResult :=
  updateProgress 0 0 0 (js "Scanning for images...");;
  imageFiles ← scanForImages inputPath;
  c ← gets isCancelled;
  if c : bool then throw (js "Processing cancelled during scan")
  else if (length imageFiles =? 0)%nat
  then throw (js "No supported image files found in the selected folder. Supported formats: JPG, PNG, GIF, SVG, TIFF, BMP")
  else
    let count := Z.of_nat (length imageFiles) in
    let progressInterval := getProgressInterval count in
    updateProgress 0 count 0 (js "Measuring file sizes...");;
    measureInputSizes imageFiles;;
    c ← gets isCancelled;
    if c : bool then throw (js "Processing cancelled during input measurement")
    else
      updateProgress 0 count 0 (js "Creating output folder...");;
      outputPath ← createOutputFolder inputPath;
      c ← gets isCancelled;
      if c : bool then throw (js "Processing cancelled during output folder creation")
      else
        results ← processSharpSequential imageFiles outputPath progressInterval;
        c ← gets isCancelled;
        if c : bool then
          performCleanup;;
          throw (js "Processing was cancelled by user")
        else
          let successfulFiles := Z.of_nat (length (List.filter succeeded results)) in
          updateProgress successfulFiles count 100
            (js "Calculating compression statistics...");;
          measureOutputSizes outputPath results;;
          compressionStats ← calculateStats;
          mret (mkRunResult successfulFiles count outputPath results compressionStats).

(** [processImages]: the [try] block, and the [catch] that resets the
    analyzer, cleans up after a cancellation and rethrows. *)
Definition processImages (inputPath : jsstring) (progressCallback : bool) : M RunResult :=
  modify (startRun progressCallback);;
  tryCatch (processImagesTry inputPath)
  (fun message =>
    modify (fun st => set_sizeAnalyzer (SizeAnalyzer.reset (sizeAnalyzer st)) st);;
    c ← gets isCancelled;
    (if c || includes message (js "cancelled") then performCleanup else mret tt);;
    throw (js "Image processing failed: " ++ message)).

End Flow.

(** No further event is handled while [cancel()] itself is at work. *)
Definition quiet (e : Ext) (st : State) : State := st.

(** The awaits of a [cancel()] whose removals meet the given outcomes. *)
Definition hindrances (rejections : list (option jsstring)) : list Tick :=
  map (fun rejection => mkTick [] rejection 0 0 []) rejections.

(** What an event does to the state: a cancellation request runs
    [cancel()] to its end, each of its removals done or rejected as the
    event says; a removal by the user takes the folder away.

    [cancel()] is run in one piece inside the await at which the request
    arrives; in the program its removals are settled while [processImages]
    goes on. For the folders that are left this makes no difference. Once
    the flag is up [processedCount] stays as it is (a check of the flag
    follows every await of a conversion, and the [catch] of the file loop
    breaks before it counts), so the test of [performCleanup] reads the
    same counter whenever it runs; [cancel()] removes registered
    directories only, and [processImages] removes every registered
    directory once more, with [performCleanup], before it throws. *)
Definition onEvent (pf : platform) (e : Ext) (st : State) : State :=
  match e with
  | CancelRequested => set_script (script st) (cancel pf quiet (set_script [] st)).2
  | CancelHindered rejections =>
      set_script (script st) (cancel pf quiet (set_script (hindrances rejections) st)).2
  | FolderRemoved p => rm_rf pf p st
  end.

(** A processor fresh from its constructor, in a given world. *)
Definition newProcessor (dirs : gset jsstring) (files : gmap jsstring Z)
    (below : jsstring -> list Visit) (clock : Z) (isoNow randomDraw : jsstring)
    (script : list Tick) : State :=
  mkState false false None 0 0 None [] (SizeAnalyzer.mkAnalyzer None None) ∅
    dirs files below clock isoNow randomDraw script [] [] None [].

End Sharp.

(** ** fileNameSanitizer.js: staging and restoring *)
Module Staging.
Import Path PathJoin Runtime.

Record TempFile := mkTempFile {
  tf_originalName : jsstring; tf_originalPath : jsstring; tf_sanitizedName : jsstring;
  tf_tempPath : jsstring; tf_extension : jsstring
}.

(** What the codec hands back for a processed file. *)
Record CodecOutput := mkCodecOutput { sourcePath : jsstring; destinationPath : jsstring }.

(** [file.sourcePath.replace(/\//g, '\\')] *)
Definition normalizeSourcePath (p : jsstring) : jsstring :=
  map (fun c => if c =? CHAR_FORWARD_SLASH then CHAR_BACKWARD_SLASH else c) p.

Section Flow.

Variable pf : platform.
Variable handle : Ext -> State -> State.

Fixpoint createTempLoop (imageFiles : list ImageFile) (tempDir : jsstring)
    (tempFiles : list TempFile) : M (list TempFile) :=
  match imageFiles with
  | [] => mret tempFiles
  | imageFile :: rest =>
      let sanitizedName := Sanitizer.sanitizeFileName pf (name imageFile) in
      let tempPath := join pf [tempDir; sanitizedName] in
      fs_copyFile handle (fullPath imageFile) tempPath;;
      modify (fun st =>
        set_tempFileMap
          (<[tempPath := mkTempInfo (fullPath imageFile) (name imageFile)]> (tempFileMap st))
          st);;
      createTempLoop rest tempDir
        (tempFiles ++ [mkTempFile (name imageFile) (fullPath imageFile) sanitizedName
                         tempPath (extension imageFile)])
  end.

Definition createTempFiles (imageFiles : list ImageFile) (tempDir : jsstring)
    : M (list TempFile) :=
  fs_mkdir handle tempDir;;
  createTempLoop imageFiles tempDir [].

Fixpoint restoreLoop (processedFiles : list CodecOutput) (outputDir : jsstring)
    (restoredFiles : list ProcessingResult) : M (list ProcessingResult) :=
  match processedFiles with
  | [] => mret restoredFiles
  | file :: rest =>
      let normalizedSourcePath := normalizeSourcePath (sourcePath file) in
      tempInfo ← gets (fun st => tempFileMap st !! normalizedSourcePath);
      match tempInfo with
      | None =>
          restoreLoop rest outputDir
            (restoredFiles ++ [Failure (js "unknown") (js "No mapping found")])
      | Some tempInfo =>
          let originalBaseName :=
            basename pf (ti_originalName tempInfo) (extname pf (ti_originalName tempInfo)) in
          let newFileName := originalBaseName ++ js ".webp" in
          let newPath := join pf [outputDir; newFileName] in
          restoredFiles ← tryCatch (
              fs_rename handle (destinationPath file) newPath;;
              mret (restoredFiles ++
                    [Success (ti_originalName tempInfo) newFileName (Some newPath)]))
            (fun message =>
              mret (restoredFiles ++ [Failure (ti_originalName tempInfo) message]));
          restoreLoop rest outputDir restoredFiles
      end
  end.

Definition restoreOriginalNames (processedFiles : list CodecOutput) (outputDir : jsstring)
    : M (list ProcessingResult) :=
  restoreLoop processedFiles outputDir [].

Definition cleanup (tempDir : jsstring) : M unit :=
  tryCatch (
    fs_rm pf handle tempDir;;
    modify (set_tempFileMap ∅))
  (fun _ => mret tt).

End Flow.

End Staging.

(** ** imageProcessor.js, imagemin variant *)
Module Imagemin.
Import Path Runtime.

(** [os.totalmem()] and [os.freemem()] are integers; the arithmetic between
    them and the final integer is done in exact rationals. *)
Definition getOptimalChunkSize (totalMemory freeMemory : Z) : Z :=
  let availableMemory :=
    Qmin (inject_Z totalMemory * (3 # 10)) (inject_Z freeMemory * (1 # 2)) in
  let estimatedMemoryPerImage := (10 * 1024 * 1024)%Z in
  let optimalChunkSize := Qfloor (availableMemory / inject_Z estimatedMemoryPerImage) in
  Z.max 10 (Z.min 100 optimalChunkSize).

Definition updateProgress (current total : Z) (percent : Q) (message : jsstring) : M unit :=
  st ← get;
  if progressCallback st
  then modify (fun st => set_emitted (emitted st ++ [mkProgress current total percent message]) st)
  else mret tt.

Definition cancel : M unit := modify (set_isCancelled true).

(** A cancellation request only raises the flag in this variant: it
    attempts no removal. *)
Definition onEvent (pf : platform) (e : Ext) (st : State) : State :=
  match e with
  | CancelRequested | CancelHindered _ => (cancel st).2
  | FolderRemoved p => rm_rf pf p st
  end.

End Imagemin.

(** ** What the specification says of [restoreNames], as a relation

    [restored pf handle outputDir files st results st'] reads: going through
    the descriptors from state [st], the lookup key is the source path with
    every [/] turned into a backslash; without an entry the result is the
    failure "No mapping found" and the pass goes on; with an entry the
    artifact is renamed to [<originalBaseName>.webp] inside [outputDir] and
    the result is a success, or, when the rename throws, a failure that
    carries its message. *)
Module RestoreSpec.
Import Path PathJoin Runtime Staging.

Definition restoredName (pf : platform) (info : TempInfo) : jsstring :=
  basename pf (ti_originalName info) (extname pf (ti_originalName info)) ++ js ".webp".

Inductive restored (pf : platform) (handle : Ext -> State -> State) (outputDir : jsstring)
  : list CodecOutput -> State -> list ProcessingResult -> State -> Prop :=
| restored_nil st :
    restored pf handle outputDir [] st [] st
| restored_unmapped file rest st results st' :
    tempFileMap st !! normalizeSourcePath (sourcePath file) = None ->
    restored pf handle outputDir rest st results st' ->
    restored pf handle outputDir (file :: rest) st
      (Failure (js "unknown") (js "No mapping found") :: results) st'
| restored_renamed file rest st info st1 results st' :
    tempFileMap st !! normalizeSourcePath (sourcePath file) = Some info ->
    fs_rename handle (destinationPath file)
      (join pf [outputDir; restoredName pf info]) st = (Ok tt, st1) ->
    restored pf handle outputDir rest st1 results st' ->
    restored pf handle outputDir (file :: rest) st
      (Success (ti_originalName info) (restoredName pf info)
         (Some (join pf [outputDir; restoredName pf info])) :: results) st'
| restored_rename_failed file rest st info message st1 results st' :
    tempFileMap st !! normalizeSourcePath (sourcePath file) = Some info ->
    fs_rename handle (destinationPath file)
      (join pf [outputDir; restoredName pf info]) st = (Throw message, st1) ->
    restored pf handle outputDir rest st1 results st' ->
    restored pf handle outputDir (file :: rest) st
      (Failure (ti_originalName info) message :: results) st'.

(** The claim's reading of the lookup key: the source path with the
    separators of the host turned into the host's own separator. *)
Definition hostNormalized (pf : platform) (p : jsstring) : jsstring :=
  map (fun c => if isPathSeparator pf c then sep pf else c) p.

End RestoreSpec.

(** ** Invariants of a run *)
Module Invariants.
Import Runtime.

(** A directory the cleanup knows of. *)
Definition registered (st : State) (p : jsstring) : Prop :=
  currentOutputPath st = Some p \/ p ∈ tempDirectories st.

(** [pend] lists directories just made and not yet registered. *)
Record Inv (pend : list jsstring) (st : State) : Prop := mkInv {
  inv_flag : cancelledAt st <> None -> isCancelled st = true;
  inv_count : forall n, cancelledAt st = Some n -> processedCount st = n;
  inv_reg : forall p, p ∈ created st -> p ∈ dirs st -> registered st p \/ p ∈ pend;
  inv_out : currentOutputPath st <> Some []
}.

(** After a cancellation requested before any file completed, no directory
    made by the run is left, unless a removal has been rejected. *)
Definition Cleared (st : State) : Prop :=
  cancelledAt st = Some 0%Z -> rejected st = [] ->
  forall p, p ∈ created st -> p ∉ dirs st.

(** What the environment and the file operations other than [mkdir] may do
    to the state. *)
Record Env (st st' : State) : Prop := mkEnv {
  env_count : processedCount st' = processedCount st;
  env_created : created st' = created st;
  env_out : currentOutputPath st' = currentOutputPath st;
  env_temps : tempDirectories st' = tempDirectories st;
  env_dirs : dirs st' ⊆ dirs st;
  env_rejected : rejected st `prefix_of` rejected st';
  env_flag : isCancelled st = true -> isCancelled st' = true;
  env_inv : forall pend, Inv pend st -> Inv pend st';
  env_cleared : Inv [] st -> Cleared st -> Cleared st'
}.

(** A handler of external events is benign when every event is such a
    step. *)
Definition Benign (handle : Ext -> State -> State) : Prop :=
  forall e st, Env st (handle e st).

(** Weakest precondition of a computation. *)
Definition wp {A} (m : M A) (st : State) (Q : Res A -> State -> Prop) : Prop :=
  Q (m st).1 (m st).2.

(** The state right after [mkdir] has made [p]. *)
Definition made (p : jsstring) (st : State) : State :=
  set_created (created st ++ [p]) (set_dirs ({[p]} ∪ dirs st) st).

(** After a cleanup none of whose removals was rejected, every registered
    staging directory is gone, and so is the output directory when no file
    has been processed. *)
Definition CleanedUp (st : State) : Prop :=
  (forall t, t ∈ tempDirectories st -> t ∉ dirs st) /\
  (processedCount st = 0%Z ->
   forall out, currentOutputPath st = Some out -> out <> [] -> out ∉ dirs st).

(** The state right after [cancel()] has raised the flag. *)
Definition flagged (st : State) : State :=
  set_cancelledAt (match cancelledAt st with
                   | None => Some (processedCount st)
                   | Some n => Some n
                   end)
    (set_isCancelled true st).

(** What one iteration of the file loop does to the counter and to the
    results: one more of each, or a break that leaves both as they were. *)
Definition stepPost (file : ImageFile) (results : list ProcessingResult) (st : State)
    (r : Res Sharp.Outcome) (st' : State) : Prop :=
  currentOutputPath st' = currentOutputPath st /\
  (Inv [] st -> Inv [] st') /\
  match r with
  | Ok (Sharp.Next _ results') =>
      processedCount st' = (processedCount st + 1)%Z /\
      exists x, results' = results ++ [x] /\ originalOf x = name file
  | Ok (Sharp.Break _ results') =>
      processedCount st' = processedCount st /\ results' = results
  | Throw _ => False
  end.

(** The first block of an iteration either ends it, or hands over to the
    conversion with the counter untouched. *)
Definition preparePost (file : ImageFile) (results : list ProcessingResult) (st : State)
    (r : Res (Sharp.Outcome + bool)) (st' : State) : Prop :=
  match r with
  | Ok (inl o) => stepPost file results st (Ok o) st'
  | Ok (inr _) =>
      currentOutputPath st' = currentOutputPath st /\ (Inv [] st -> Inv [] st') /\
      processedCount st' = processedCount st
  | Throw _ => False
  end.

(** The loop: results are appended in scan order, one per file, up to the
    file at which the loop breaks. *)
Definition loopPost (imageFiles : list ImageFile) (results : list ProcessingResult)
    (st : State) (r : Res (bool * list ProcessingResult)) (st' : State) : Prop :=
  currentOutputPath st' = currentOutputPath st /\
  (Inv [] st -> Inv [] st') /\
  exists tdc added,
    r = Ok (tdc, results ++ added) /\
    processedCount st' = (processedCount st + Z.of_nat (length added))%Z /\
    Forall2 (fun f x => originalOf x = name f) (firstn (length added) imageFiles) added.
End Invariants.

(** ** Worlds and scripts for the concrete runs *)
Module Examples.
Import Path PathJoin Runtime.

Definition photo (n : string) : ImageFile :=
  mkImageFile (js n) (js "/photos/" ++ js n) (extname Posix (js n)) (js n).

Definition isoNow0 : jsstring := js "2026-11-03T07:05:00.123Z".
Definition randomDraw0 : jsstring := js "0.q1w2e3r4t5y".
Definition clock0 : Z := 1762153500000.

(** A folder [/photos] with two pictures. *)
Definition dirs0 : gset jsstring := {[ js "/photos" ]}.

Definition files0 : gmap jsstring Z :=
  <[ js "/photos/a.png" := 1000%Z ]> (<[ js "/photos/b.png" := 2000%Z ]> ∅).

Definition below0 (p : jsstring) : list Visit :=
  if jseqb p (js "/photos") then [Picture (photo "a.png"); Picture (photo "b.png")] else [].

Definition fresh (script : list Tick) : State :=
  Sharp.newProcessor dirs0 files0 below0 clock0 isoNow0 randomDraw0 script.

(** The same folder when the first picture is called [order_cancelled.png]. *)
Definition files1 : gmap jsstring Z :=
  <[ js "/photos/order_cancelled.png" := 1000%Z ]> (<[ js "/photos/b.png" := 2000%Z ]> ∅).

Definition below1 (p : jsstring) : list Visit :=
  if jseqb p (js "/photos")
  then [Picture (photo "order_cancelled.png"); Picture (photo "b.png")] else [].

Definition fresh1 (script : list Tick) : State :=
  Sharp.newProcessor dirs0 files1 below1 clock0 isoNow0 randomDraw0 script.

(** Ticks: an await during which nothing happens, a codec call that writes
    [n] bytes, a codec call that fails, an await during which an event
    arrives first. *)
Definition calm : Tick := mkTick [] None 0 5 [].
Definition wrote (n : Z) : Tick := mkTick [] None n 120 [].
Definition failed (message : string) : Tick := mkTick [] (Some (js message)) 0 40 [].
Definition struck (e : Ext) : Tick := mkTick [e] None 0 5 [].

Definition outputDir : jsstring := js "/photos_compressed".

(** The awaits up to the file loop: the walk, the two [stat]s of the input
    measurement, then [stat], [access] and [mkdir] of
    [createOutputFolder]. *)
Definition prelude : list Tick := [calm; calm; calm; calm; calm; calm].

(** The user removes the output folder while the second file waits for its
    existence check; the first file has been converted. *)
Definition folderRemovedBeforeSecond : list Tick :=
  prelude ++ [calm; wrote 400; struck (FolderRemoved outputDir)].

(** The first picture cannot be decoded; nobody cancels, nothing is
    removed. *)
Definition firstFileCorrupt : list Tick :=
  prelude ++ [calm; failed "Input file contains unsupported image format";
              calm; wrote 800].

(** Cancellation arrives while the codec works on the first file. *)
Definition cancelledInFlight : list Tick :=
  prelude ++ [calm; struck CancelRequested].

(** What [fs.rm] says while another program holds the output folder. *)
Definition busy : string := "EBUSY: resource busy or locked, rmdir '/photos_compressed'".

(** Cancellation arrives while the codec works on the first file, and the
    output folder cannot be removed: the removal by [cancel()] is rejected,
    the unfinished output file is unlinked, and the removals of the two
    cleanups that [processImages] then runs are rejected as well. *)
Definition cancelledFolderBusy : list Tick :=
  prelude ++ [calm; struck (CancelHindered [Some (js busy)]); calm; failed busy; failed busy].

(** The first picture cannot be decoded, then cancellation arrives while
    the second waits for its existence check. *)
Definition failureThenCancel : list Tick :=
  prelude ++ [calm; failed "Input file contains unsupported image format";
              struck CancelRequested].

(** A processor that has made its output folder and stands before the
    file loop. *)
Definition underway (script : list Tick) : State :=
  set_currentOutputPath (Some outputDir)
    (set_created [outputDir] (set_dirs ({[outputDir]} ∪ dirs0) (fresh script))).

Definition stagingDir : jsstring := js "/temp_imagemin_2026-11-03T07-05-00_3r4t5y".

(** Whole runs on the folder [/photos]. *)
Definition run (world : list Tick -> State) (script : list Tick)
    : Res Sharp.RunResult * State :=
  Sharp.processImages Posix (Sharp.onEvent Posix) (js "/photos") true (world script).

(** A staged copy on a POSIX host and what the codec hands back for it. *)
Definition stagedPosix : State :=
  set_tempFileMap
    {[ js "/stage/pic_1.png" := mkTempInfo (js "/photos/pic#1.png") (js "pic#1.png") ]}
    (set_files {[ js "/out/pic_1.png" := 300%Z ]} (fresh [])).

Definition codecPosix : Staging.CodecOutput :=
  Staging.mkCodecOutput (js "/stage/pic_1.png") (js "/out/pic_1.png").

(** A staged copy on a Windows host; the codec reports forward slashes and
    its artifact is no longer where it says. *)
Definition stagedWin32 : State :=
  set_tempFileMap
    {[ js "C:\stage\pic_1.png" := mkTempInfo (js "C:\photos\pic#1.png") (js "pic#1.png") ]}
    (fresh []).

Definition codecWin32 : Staging.CodecOutput :=
  Staging.mkCodecOutput (js "C:/stage/pic_1.png") (js "C:\out\pic_1.png").

End Examples.

(** ** Names as the scanner reads them, quiet stretches of the environment *)
Module Quiet.
Import Path PathJoin Runtime.

(** A name without a separator of either flavour and without a colon, as
    [readdir] hands them out on Windows and as most names are elsewhere. *)
Definition separatorFree (s : jsstring) : Prop :=
  List.Forall (fun c => c <> CHAR_FORWARD_SLASH /\ c <> CHAR_BACKWARD_SLASH /\ c <> CHAR_COLON) s.

(** No event arrives and no operation is made to fail during the awaits
    that the script still holds (the awaits after its end are idle). *)
Definition uneventful (st : State) : Prop :=
  List.Forall (fun t => before t = [] /\ failure t = None /\ after t = []) (script st).

(** The state in which an awaited operation runs when nothing happens
    first: the tick is consumed and the clock has advanced. *)
Definition advanced (st : State) : State :=
  set_clock (clock st + elapsed (nextTick st))%Z (set_script (tail (script st)) st).

(** What a conversion reports for a picture whose name is used as it
    is. *)
Definition converted (pf : platform) (outputPath : jsstring) (file : ImageFile)
    : ProcessingResult :=
  Success (name file)
    (basename pf (name file) (extname pf (name file)) ++ js ".webp")
    (Some (join pf [outputPath;
                    basename pf (name file) (extname pf (name file)) ++ js ".webp"])).

(** From [st] to [st'] the program has gone forward on its own: awaits
    have been consumed, files may have been written, the rest of the world
    and the processor's settings are as they were. *)
Record Onward (st st' : State) : Prop := mkOnward {
  onward_flag : isCancelled st' = isCancelled st;
  onward_script : exists n, script st' = drop n (script st);
  onward_dirs : dirs st' = dirs st;
  onward_files : forall p, is_Some (files st !! p) -> is_Some (files st' !! p);
  onward_temp : tempDirectories st' = tempDirectories st;
  onward_analyzer : sizeAnalyzer st' = sizeAnalyzer st;
  onward_output : currentOutputPath st' = currentOutputPath st;
  onward_callback : progressCallback st' = progressCallback st;
  onward_listing : listing st' = listing st;
  onward_iso : isoNow st' = isoNow st;
  onward_random : randomDraw st' = randomDraw st;
  onward_created : created st' = created st
}.

End Quiet.

(** ** More worlds for concrete runs *)
Module Scenes.
Import Path PathJoin Runtime.

(** A Windows host with one picture whose name needs sanitizing; nothing
    happens during the awaits. *)
Definition winPicture : ImageFile :=
  mkImageFile (js "pic#1.png") (js "C:\photos\pic#1.png") (js ".png") (js "pic#1.png").

Definition winWorld : State :=
  Sharp.newProcessor {[ js "C:\photos" ]} {[ js "C:\photos\pic#1.png" := 5000%Z ]}
    (fun p => if jseqb p (js "C:\photos") then [Picture winPicture] else [])
    Examples.clock0 Examples.isoNow0 Examples.randomDraw0 [].

(** A folder that holds no picture. *)
Definition emptyWorld : State :=
  Sharp.newProcessor {[ js "/empty" ]} ∅ (fun _ => []) Examples.clock0 Examples.isoNow0
    Examples.randomDraw0 [].

(** An album with a picture, a sub-folder that holds another picture and
    a text file, and an empty sub-folder last. *)
Definition albumWorld : State :=
  Sharp.newProcessor {[ js "/album" ]} ∅
    (fun p => if jseqb p (js "/album")
              then [Picture (mkImageFile (js "a.png") (js "/album/a.png") (js ".png") (js "a.png"));
                    Subfolder;
                    Picture (mkImageFile (js "b.jpg") (js "/album/trip/b.jpg") (js ".jpg")
                               (js "trip/b.jpg"));
                    Skipped;
                    Subfolder]
              else [])
    Examples.clock0 Examples.isoNow0 Examples.randomDraw0 [].

End Scenes.

(** ** Sums over the entries of a measurement *)
Module Totals.
Import Runtime.

Definition sumSizes (records : list SizeAnalyzer.SizeRecord) : Z :=
  fold_right (fun r acc => (SizeAnalyzer.sr_size r + acc)%Z) 0%Z records.

(** An entry that carries no [error] property. *)
Definition measured (r : SizeAnalyzer.SizeRecord) : bool :=
  match SizeAnalyzer.sr_error r with None => true | Some _ => false end.

End Totals.

(** ** What the file operations and the environment leave alone *)
Module Frames.
Import Runtime Invariants.

(** The parts of the state that only the processor's own bookkeeping
    writes: neither an event nor a file operation touches them. *)
Record Still (st st' : State) : Prop := mkStill {
  still_listing : listing st' = listing st;
  still_analyzer : sizeAnalyzer st' = sizeAnalyzer st;
  still_map : tempFileMap st' = tempFileMap st;
  still_callback : progressCallback st' = progressCallback st;
  still_iso : isoNow st' = isoNow st;
  still_random : randomDraw st' = randomDraw st
}.

(** A handler of external events that leaves them alone. *)
Definition Discreet (handle : Ext -> State -> State) : Prop :=
  forall e st, Still st (handle e st).

(** A computation that leaves them alone, whatever its result. *)
Definition keeps {A} (m : M A) : Prop :=
  forall st0 st, Still st0 st -> wp m st (fun _ st' => Still st0 st').

End Frames.

(** ** [sizeAnalyzer.getDetailedComparison]

    The texts of the rows come from [formatBytes] and [toFixed(1)], which
    work on floating-point numbers; the comparison takes them as they
    are. *)
Module Comparison.
Import Runtime.

Record Row := mkRow {
  filename : jsstring;
  originalSize : jsstring;
  compressedSize : jsstring;
  savings : jsstring;
  ratio : jsstring;
  success : bool;
  error : option jsstring
}.

(** A property that is present and not the empty string. *)
Definition truthy (s : option jsstring) : bool :=
  match s with Some (_ :: _) => true | _ => false end.

(** The [Map] filled by the first [forEach], one entry at a time: an
    entry without original name is passed over, a later entry of the same
    original name replaces the earlier one. *)
Definition setOutput (outputs : gmap jsstring SizeAnalyzer.SizeRecord)
    (file : SizeAnalyzer.SizeRecord) : gmap jsstring SizeAnalyzer.SizeRecord :=
  match SizeAnalyzer.sr_originalName file with
  | Some (c :: n) => <[c :: n := file]> outputs
  | _ => outputs
  end.

Definition outputMap (files : list SizeAnalyzer.SizeRecord)
    : gmap jsstring SizeAnalyzer.SizeRecord :=
  fold_left setOutput files ∅.

Section Formatting.

Variable formatBytes : Z -> jsstring.
Variable toFixed1 : Q -> jsstring.

(** The body of the second [forEach]. *)
Definition compareFile (outputs : gmap jsstring SizeAnalyzer.SizeRecord)
    (inputFile : SizeAnalyzer.SizeRecord) : Row :=
  let failed (reason : jsstring) :=
    mkRow (SizeAnalyzer.sr_name inputFile) (formatBytes (SizeAnalyzer.sr_size inputFile))
      (js "Failed") (js "0 B") (js "0%") false (Some reason) in
  match outputs !! SizeAnalyzer.sr_name inputFile with
  | Some outputFile =>
      if truthy (SizeAnalyzer.sr_error outputFile)
      then failed (default [] (SizeAnalyzer.sr_error outputFile))
      else
        let savings := (SizeAnalyzer.sr_size inputFile - SizeAnalyzer.sr_size outputFile)%Z in
        let ratio :=
          if (0 <? SizeAnalyzer.sr_size inputFile)%Z
          then (inject_Z savings / inject_Z (SizeAnalyzer.sr_size inputFile) * 100)%Q
          else 0%Q in
        mkRow (SizeAnalyzer.sr_name inputFile) (formatBytes (SizeAnalyzer.sr_size inputFile))
          (formatBytes (SizeAnalyzer.sr_size outputFile)) (formatBytes savings)
          (toFixed1 ratio ++ js "%") true None
  | None => failed (js "Processing failed")
  end.

Definition getDetailedComparison (a : SizeAnalyzer.Analyzer) : option (list Row) :=
  match SizeAnalyzer.inputStats a, SizeAnalyzer.outputStats a with
  | Some i, Some o =>
      Some (map (compareFile (outputMap (SizeAnalyzer.out_files o))) (SizeAnalyzer.in_files i))
  | _, _ => None
  end.

End Formatting.

End Comparison.

(** ** The progress callback of the [compress-images] handler (main.js)

    [lastProgressSent] and [lastProgressData] are the handler's two
    variables; [sent] lists what went to the window through
    [event.sender.send], each event with the time of its sending. The
    callback and [sendFinalProgress] read [processor.isCancelled] and
    [Date.now()]; both are arguments here. *)
Module Throttle.
Import Runtime.

Definition PROGRESS_THROTTLE : Z := 100.

Record Sender := mkSender {
  lastProgressSent : Z;
  lastProgressData : option ProgressEvent;
  sent : list (Z * ProgressEvent)
}.

Definition start : Sender := mkSender 0 None [].

Definition progressCallback (isCancelled : bool) (now : Z) (progressData : ProgressEvent)
    (s : Sender) : Sender :=
  if isCancelled then s
  else if (PROGRESS_THROTTLE <=? now - lastProgressSent s)%Z
          || Qle_bool 100 (percent progressData)
       then mkSender now (Some progressData) (sent s ++ [(now, progressData)])
       else mkSender (lastProgressSent s) (Some progressData) (sent s).

Definition sendFinalProgress (isCancelled : bool) (now : Z) (s : Sender) : Sender :=
  match lastProgressData s with
  | Some d =>
      if (PROGRESS_THROTTLE <=? now - lastProgressSent s)%Z && negb isCancelled
      then mkSender (lastProgressSent s) (lastProgressData s) (sent s ++ [(now, d)])
      else s
  | None => s
  end.

(** One call of the callback: the flag and the clock at that moment, and
    the event. *)
Record Call := mkCall { flag : bool; time : Z; data : ProgressEvent }.

Definition callbacks (calls : list Call) (s : Sender) : Sender :=
  fold_left (fun s c => progressCallback (flag c) (time c) (data c) s) calls s.

(** What the callback keeps: two successive sendings are 100 ms apart or
    the later one is a final update, and [lastProgressSent] is the time of
    the last sending. *)
Inductive Spaced : Z -> list (Z * ProgressEvent) -> Prop :=
| Spaced_nil last : Spaced last []
| Spaced_snoc last l t d :
    Spaced last l ->
    (PROGRESS_THROTTLE <= t - last)%Z \/ (100 <= percent d)%Q ->
    Spaced t (l ++ [(t, d)]).

End Throttle.

(** ** imageProcessor.js, imagemin variant: chunks

    The codec call [this.imagemin(inputPaths, { destination, plugins })]
    and the dynamic imports of [initializeImagemin] belong to libraries:
    both are taken as they come, the first as a computation that yields
    the descriptors of the files it has written. *)
Module ImageminRun.
Import Path PathJoin Runtime Staging.

Definition imageSuffixes : list jsstring :=
  [js ".jpg"; js ".jpeg"; js ".png"; js ".gif"; js ".svg"; js ".tif"; js ".tiff";
   js ".bmp"; js ".webp"].

Definition endsWith (s suffix : jsstring) : bool :=
  (length suffix <=? length s)%nat && jseqb (skipn (length s - length suffix) s) suffix.

(** [oldPath.replace(/\.(jpe?g|png|gif|svg|tiff?|bmp|webp)$/i, '.webp')];
    the pattern is ASCII and has no [u] flag, so only ASCII letters match
    its letters in either case. *)
Definition toWebp (oldPath : jsstring) : jsstring :=
  match find (endsWith (Sharp.toLowerCase oldPath)) imageSuffixes with
  | Some suffix => firstn (length oldPath - length suffix) oldPath ++ js ".webp"
  | None => oldPath
  end.

Section Flow.

Variable pf : platform.
Variable handle : Ext -> State -> State.
Variable imagemin : list jsstring -> jsstring -> M (list CodecOutput).
Variable initializeImagemin : M unit.

(** The walk over the visits, as in the Sharp variant; this one checks no
    flag. *)
Fixpoint scanEntries (visits : list Visit) (imageFiles : list ImageFile)
    : M (list ImageFile) :=
  match visits with
  | [] => mret imageFiles
  | Picture file :: rest => scanEntries rest (imageFiles ++ [file])
  | Skipped :: rest => scanEntries rest imageFiles
  | Subfolder :: rest => fs_readdir_sub handle;; scanEntries rest imageFiles
  end.

Definition scanForImages (folderPath : jsstring) : M (list ImageFile) :=
  tryCatch (
    visits ← fs_readdir handle folderPath;
    scanEntries visits [])
  (fun message => throw (js "Failed to scan folder: " ++ message)).

Definition createOutputFolder (inputPath : jsstring) : M jsstring :=
  inputStats ← fs_stat handle inputPath;
  let outputPath :=
    if st_isDirectory inputStats
    then join pf [dirname pf inputPath; basename pf inputPath [] ++ js "_compressed"]
    else join pf [dirname pf inputPath; js "compressed_images"] in
  outputPath ← tryCatch (
      fs_access handle outputPath;;
      st ← get;
      mret (outputPath ++ js "_" ++ Sharp.timestamp st))
    (fun _ => mret outputPath);
  fs_mkdir handle outputPath;;
  mret outputPath.

(** The inner [try] of the sanitizing branch up to its [push]: what it
    would leave in [results], or the error that ends it before. *)
Definition sanitizeOne (imageFile : ImageFile) (outputPath tempDir : jsstring)
    (results : list ProcessingResult) : M (list ProcessingResult + jsstring) :=
  tryCatch (
    tempFiles ← createTempFiles pf handle [imageFile] tempDir;
    let inputPaths := map tf_tempPath tempFiles in
    sanitizedFiles ← imagemin inputPaths outputPath;
    match sanitizedFiles with
    | _ :: _ =>
        restoredFiles ← restoreOriginalNames pf handle sanitizedFiles outputPath;
        mret (inl (results ++ restoredFiles))
    | [] =>
        mret (inl (results ++
                   [Failure (name imageFile) (js "Sanitizer failed to process file")]))
    end)
  (fun sanitizerError => mret (inr sanitizerError)).

(** The body of the loop of [processIndividually]. [results] is an array
    that the [catch] blocks push to: each handler below is given the
    array as it is when its error is thrown. The inner [try] ends with
    [await this.sanitizer.cleanup(tempDir)], after the [push]. *)
Definition processOne (outputPath : jsstring) (currentOffset totalFiles : Z) (count : nat)
    (i : nat) (imageFile : ImageFile) (results : list ProcessingResult)
    : M (list ProcessingResult) :=
  let currentFileIndex := (currentOffset + Z.of_nat i + 1)%Z in
  let shownTotal := if (totalFiles =? 0)%Z then Z.of_nat count else totalFiles in
  Imagemin.updateProgress currentFileIndex shownTotal
    (inject_Z currentFileIndex / inject_Z shownTotal * 100)%Q
    (js "Processing: " ++ name imageFile);;
  tryCatch (
    files ← imagemin [fullPath imageFile] outputPath;
    match files with
    | file :: _ =>
        let oldPath := destinationPath file in
        let newPath := toWebp oldPath in
        (if jseqb oldPath newPath then mret tt else fs_rename handle oldPath newPath);;
        mret (results ++ [Success (name imageFile) (basename pf newPath []) None])
    | [] =>
        tempDirName ← Sharp.getTempDirName;
        let tempDir := join pf [outputPath; js ".."; tempDirName] in
        staged ← sanitizeOne imageFile outputPath tempDir results;
        match staged with
        | inl pushed =>
            tryCatch (
              tryCatch (cleanup pf handle tempDir;; mret pushed)
                (fun sanitizerError =>
                   cleanup pf handle tempDir;;
                   mret (pushed ++ [Failure (name imageFile) sanitizerError])))
            (fun error => mret (pushed ++ [Failure (name imageFile) error]))
        | inr sanitizerError =>
            cleanup pf handle tempDir;;
            mret (results ++ [Failure (name imageFile) sanitizerError])
        end
    end)
  (fun error => mret (results ++ [Failure (name imageFile) error])).

Fixpoint individualLoop (imageFiles : list ImageFile) (outputPath : jsstring)
    (currentOffset totalFiles : Z) (count : nat) (i : nat)
    (results : list ProcessingResult) : M (list ProcessingResult) :=
  match imageFiles with
  | [] => mret results
  | imageFile :: rest =>
      results ← processOne outputPath currentOffset totalFiles count i imageFile results;
      individualLoop rest outputPath currentOffset totalFiles count (S i) results
  end.

Definition processIndividually (imageFiles : list ImageFile) (outputPath : jsstring)
    (currentOffset totalFiles : Z) : M (list ProcessingResult) :=
  individualLoop imageFiles outputPath currentOffset totalFiles (length imageFiles) 0 [].

(** The callbacks of [files.map(async ...)]: each runs up to its first
    [await] when it is created, so all the progress events come first, in
    order. [totalFiles] is not zero where the program calls [processChunk];
    a division by zero is not modelled. *)
Fixpoint announceAll (files : list CodecOutput) (currentOffset totalFiles : Z) (index : nat)
    : M unit :=
  match files with
  | [] => mret tt
  | file :: rest =>
      let currentFileIndex := (currentOffset + Z.of_nat index + 1)%Z in
      Imagemin.updateProgress currentFileIndex totalFiles
        (inject_Z currentFileIndex / inject_Z totalFiles * 100)%Q
        (js "Processing: " ++ basename pf (sourcePath file) []);;
      announceAll rest currentOffset totalFiles (S index)
  end.

(** The rest of one callback. *)
Definition renameOne (file : CodecOutput) : M ProcessingResult :=
  let oldPath := destinationPath file in
  let newPath := toWebp oldPath in
  if jseqb oldPath newPath
  then mret (Success (basename pf (sourcePath file) []) (basename pf oldPath []) None)
  else
    tryCatch (
      fs_rename handle oldPath newPath;;
      mret (Success (basename pf (sourcePath file) []) (basename pf newPath []) None))
    (fun message => mret (Failure (basename pf (sourcePath file) []) message)).

(** [Promise.all]: the renames have been started together; they are taken
    to complete in the order of the array. *)
Fixpoint renameAll (files : list CodecOutput) : M (list ProcessingResult) :=
  match files with
  | [] => mret []
  | file :: rest =>
      result ← renameOne file;
      results ← renameAll rest;
      mret (result :: results)
  end.

Definition processChunk (imageFiles : list ImageFile) (outputPath : jsstring)
    (currentOffset totalFiles : Z) : M (list ProcessingResult) :=
  initializeImagemin;;
  let inputPaths := map fullPath imageFiles in
  tryCatch (
    files ← imagemin inputPaths outputPath;
    if (length files <? length imageFiles)%nat
    then processIndividually imageFiles outputPath currentOffset totalFiles
    else
      announceAll files currentOffset totalFiles 0;;
      renameAll files)
  (fun _ => processIndividually imageFiles outputPath currentOffset totalFiles).

(** The [for] loop of [processImages] from index [i] on; [steps] bounds
    the number of iterations, and the number of files is enough for it
    since a chunk holds at least one file. The last [updateProgress] of the
    [try] cannot throw, so its handler only sees [results] as they were. *)
Fixpoint chunkLoop (steps : nat) (imageFiles : list ImageFile) (outputPath : jsstring)
    (chunkSize : nat) (i : nat) (processedFiles : Z) (results : list ProcessingResult)
    : M (Z * list ProcessingResult) :=
  match steps with
  | O => mret (processedFiles, results)
  | S steps =>
      if (i <? length imageFiles)%nat then
        c ← gets isCancelled;
        if c : bool then mret (processedFiles, results)
        else
          let totalFiles := Z.of_nat (length imageFiles) in
          let chunk := firstn chunkSize (skipn i imageFiles) in
          let chunkNum := (Z.of_nat i / Z.of_nat chunkSize + 1)%Z in
          let totalChunks := Qceiling (inject_Z totalFiles / inject_Z (Z.of_nat chunkSize)) in
          Imagemin.updateProgress processedFiles totalFiles
            (inject_Z processedFiles / inject_Z totalFiles * 100)%Q
            (js "Processing chunk " ++ Sharp.showZ chunkNum ++ js "/" ++
             Sharp.showZ totalChunks ++ js "...");;
          next ← tryCatch (
              chunkResults ← processChunk chunk outputPath processedFiles totalFiles;
              let processedFiles := (processedFiles + Z.of_nat (length chunk))%Z in
              Imagemin.updateProgress processedFiles totalFiles
                (inject_Z processedFiles / inject_Z totalFiles * 100)%Q
                (js "Completed " ++ Sharp.showZ processedFiles ++ js "/" ++
                 Sharp.showZ totalFiles ++ js " images");;
              mret (processedFiles, results ++ chunkResults))
            (fun _ => mret (processedFiles, results));
          chunkLoop steps imageFiles outputPath chunkSize (i + chunkSize) next.1 next.2
      else mret (processedFiles, results)
  end.

(** [processImages]; [totalMemory] and [freeMemory] are what [os.totalmem()]
    and [os.freemem()] answer. The display strings of [formatStatsForUI]
    are left out, as for the Sharp variant. *)
Definition processImages (totalMemory freeMemory : Z) (inputPath : jsstring)
    (progressCallback : bool) : M Sharp.RunResult :=
  modify (fun st => set_isCancelled false (set_progressCallback progressCallback st));;
  tryCatch (
    Imagemin.updateProgress 0 0 0 (js "Initializing compression modules...");;
    initializeImagemin;;
    Imagemin.updateProgress 0 0 0 (js "Scanning for images...");;
    imageFiles ← scanForImages inputPath;
    if (length imageFiles =? 0)%nat
    then throw (js "No supported image files found in the selected folder. Supported formats: JPG, PNG, GIF, SVG, TIFF, BMP")
    else
      let totalFiles := Z.of_nat (length imageFiles) in
      Imagemin.updateProgress 0 totalFiles 0 (js "Measuring file sizes...");;
      Sharp.measureInputSizes handle imageFiles;;
      Imagemin.updateProgress 0 totalFiles 0 (js "Creating output folder...");;
      outputPath ← createOutputFolder inputPath;
      let chunkSize := Z.to_nat (Imagemin.getOptimalChunkSize totalMemory freeMemory) in
      loopEnd ← chunkLoop (length imageFiles) imageFiles outputPath chunkSize 0 0 [];
      let processedFiles := loopEnd.1 in
      let results := loopEnd.2 in
      c ← gets isCancelled;
      if c : bool then throw (js "Processing was cancelled by user")
      else
        Imagemin.updateProgress processedFiles totalFiles 100
          (js "Calculating compression statistics...");;
        Sharp.measureOutputSizes pf handle outputPath results;;
        compressionStats ← Sharp.calculateStats;
        let successfulFiles := Z.of_nat (length (List.filter succeeded results)) in
        mret (Sharp.mkRunResult successfulFiles totalFiles outputPath results
                compressionStats))
  (fun message =>
    modify (fun st => set_sizeAnalyzer (SizeAnalyzer.reset (sizeAnalyzer st)) st);;
    throw (js "Image processing failed: " ++ message)).

End Flow.

End ImageminRun.

(** ** A codec for concrete runs of the imagemin variant *)
Module Codecs.
Import Path PathJoin Runtime Staging.

(** A codec that writes, for every input path, 300 bytes under the same
    file name inside the destination, and skips nothing. *)
Definition writingCodec (inputPaths : list jsstring) (destination : jsstring)
    : M (list CodecOutput) :=
  modify (fun st =>
    set_files
      (fold_right (fun p m => <[join Posix [destination; basename Posix p []] := 300%Z]> m)
         (files st) inputPaths) st);;
  mret (map (fun p => mkCodecOutput p (join Posix [destination; basename Posix p []]))
          inputPaths).

(** The codec modules are loaded already. *)
Definition loaded : M unit := mret tt.

End Codecs.

(* ================================================================== *)
(** * Properties *)
(* ================================================================== *)

Import Path PlainNames.

(** ** Sanitizer *)

Lemma replaceSpaces_collapse_aux (s : jsstring) (prev : option N) :
  Sanitizer.replaceSpaces (match prev with Some p => isWhiteSpace p | None => false end) s =
  concat (map (fun pc : option N * N =>
                 let (prev, c) := pc in
                 if isWhiteSpace c then
                   match prev with
                   | Some p => if isWhiteSpace p then [] else [UNDERSCORE]
                   | None => [UNDERSCORE]
                   end
                 else [c])
              (combine (prev :: map Some s) s)).
Proof.
  revert prev. induction s as [|c s IH]; intros prev; [reflexivity|].
  cbn [Sanitizer.replaceSpaces map combine concat].
  specialize (IH (Some c)). cbn beta iota in IH.
  destruct (isWhiteSpace c) eqn:Ec.
  - rewrite IH. destruct prev as [p|]; [destruct (isWhiteSpace p)|]; reflexivity.
  - rewrite IH. reflexivity.
Qed.

Lemma replaceSpaces_collapse (s : jsstring) :
  Sanitizer.replaceSpaces false s = SanitizerSpec.collapse_whitespace s.
Proof. exact (replaceSpaces_collapse_aux s None). Qed.

Lemma dropLeading_split (s : jsstring) :
  exists lead, s = lead ++ Sanitizer.dropLeadingUnderscores s /\
               SanitizerSpec.only_underscores lead /\
               head (Sanitizer.dropLeadingUnderscores s) <> Some UNDERSCORE.
Proof.
  induction s as [|c s (lead & Hs & Hl & Hh)].
  - exists []. repeat split; [constructor | discriminate].
  - cbn [Sanitizer.dropLeadingUnderscores].
    destruct (c =? UNDERSCORE) eqn:Ec.
    + apply N.eqb_eq in Ec. subst c. exists (UNDERSCORE :: lead).
      split; [cbn; congruence|]. split; [constructor; auto | exact Hh].
    + exists []. repeat split; [constructor|].
      cbn. intros [= E]. apply N.eqb_neq in Ec. contradiction.
Qed.

Lemma last_rev_head {A} (l : list A) : last (rev l) = head l.
Proof. destruct l as [|a l]; [reflexivity|]. cbn. apply last_snoc. Qed.

Lemma only_underscores_rev (l : jsstring) :
  SanitizerSpec.only_underscores l -> SanitizerSpec.only_underscores (rev l).
Proof. apply List.Forall_rev. Qed.

Lemma stripUnderscores_trimmed (s : jsstring) :
  SanitizerSpec.trimmed_of s (Sanitizer.stripUnderscores s).
Proof.
  unfold SanitizerSpec.trimmed_of, Sanitizer.stripUnderscores.
  destruct (dropLeading_split s) as (lead & Hs & Hlead & Hhead).
  set (t := Sanitizer.dropLeadingUnderscores s) in *.
  destruct (dropLeading_split (rev t)) as (trail & Ht & Htrail & Hhead').
  set (u := Sanitizer.dropLeadingUnderscores (rev t)) in *.
  assert (Et : t = rev u ++ rev trail).
  { rewrite <- rev_app_distr, <- Ht. symmetry. apply rev_involutive. }
  exists lead, (rev trail). repeat split.
  - rewrite <- Et. exact Hs.
  - exact Hlead.
  - by apply only_underscores_rev.
  - destruct (rev u) as [|a r] eqn:Er; [discriminate|].
    rewrite Et in Hhead. exact Hhead.
  - rewrite last_rev_head. exact Hhead'.
Qed.

(** C5 (as amended). For every name, [sanitizeFileName] strips the
    extension ([basename] by [extname]), replaces each character outside
    the safe class by an underscore, replaces each run of white space -- a
    single white-space character included -- by one underscore, keeps the
    first 100 characters, trims leading and trailing underscores, falls back
    to [sanitized_file] when nothing is left, and appends the extension
    unchanged. *)
Theorem sanitizeFileName_steps (pf : platform) (name : jsstring) :
  let ext := extname pf name in
  let base := basename pf name ext in
  exists core,
    SanitizerSpec.trimmed_of
      (firstn 100 (SanitizerSpec.collapse_whitespace (SanitizerSpec.replace_unsafe base)))
      core /\
    Sanitizer.sanitizeFileName pf name =
      (match core with [] => js "sanitized_file" | _ => core end) ++ ext.
Proof.
  intros ext base.
  exists (Sanitizer.stripUnderscores
            (firstn 100 (SanitizerSpec.collapse_whitespace (SanitizerSpec.replace_unsafe base)))).
  split; [apply stripUnderscores_trimmed|].
  unfold Sanitizer.sanitizeFileName, substring0.
  rewrite replaceSpaces_collapse. reflexivity.
Qed.

(** C5, as stated, fails: a single space is not kept, it becomes an
    underscore. *)
Lemma sanitizeFileName_single_space_replaced :
  Sanitizer.sanitizeFileName Posix (js "a b.png") = js "a_b.png" /\
  isWhiteSpace 32 = true /\ Sanitizer.inSafeClass 32 = true /\
  In 32 (js "a b.png") /\
  ~ In 32 (Sanitizer.sanitizeFileName Posix (js "a b.png")).
Proof.
  repeat split; try reflexivity.
  - vm_compute. tauto.
  - vm_compute. intros H. repeat (destruct H as [H|H]; [discriminate H|]). exact H.
Qed.

(** ** Size analyzer *)

(** C4 (as amended). For measured snapshots the statistics satisfy
    [savings = inputSize - outputSize] and
    [failedFiles = inputFiles - outputFiles]; the ratio is the percentage
    [savings / inputSize * 100] for a positive input size and [0] when the
    input size is [0]. *)
Theorem calculateStats_spec (i : SizeAnalyzer.InputData) (o : SizeAnalyzer.OutputData) :
  exists s,
    SizeAnalyzer.calculateStats (SizeAnalyzer.mkAnalyzer (Some i) (Some o)) = Ok s /\
    SizeAnalyzer.inputSize s = SizeAnalyzer.in_totalSize i /\
    SizeAnalyzer.outputSize s = SizeAnalyzer.out_totalSize o /\
    SizeAnalyzer.savings s = (SizeAnalyzer.inputSize s - SizeAnalyzer.outputSize s)%Z /\
    SizeAnalyzer.failedFiles s = (SizeAnalyzer.inputFiles s - SizeAnalyzer.outputFiles s)%Z /\
    ((0 < SizeAnalyzer.inputSize s)%Z ->
       (SizeAnalyzer.compressionRatio s ==
        inject_Z (SizeAnalyzer.savings s) / inject_Z (SizeAnalyzer.inputSize s) * 100)%Q) /\
    (SizeAnalyzer.inputSize s = 0%Z -> (SizeAnalyzer.compressionRatio s == 0)%Q).
Proof.
  eexists. split; [reflexivity|]. cbn.
  repeat split; try reflexivity.
  - intros H. apply Z.ltb_lt in H. rewrite H. reflexivity.
  - intros H. rewrite H. reflexivity.
Qed.

(** C4, as stated, fails: with 4 input bytes and 2 output bytes the ratio
    is 50, not 2/4. *)
Lemma calculateStats_ratio_is_percentage :
  exists s,
    SizeAnalyzer.calculateStats
      (SizeAnalyzer.mkAnalyzer (Some (SizeAnalyzer.mkInputData [] 4 1))
                               (Some (SizeAnalyzer.mkOutputData [] 2 1 1))) = Ok s /\
    (SizeAnalyzer.compressionRatio s == 50)%Q /\
    ~ (SizeAnalyzer.compressionRatio s ==
       inject_Z (SizeAnalyzer.savings s) / inject_Z (SizeAnalyzer.inputSize s))%Q.
Proof.
  eexists. split; [reflexivity|]. split; [reflexivity|].
  cbn. intros H. discriminate H.
Qed.

(** ** Batch sizing *)

(** C9. Whatever the total and free memory, the chunk size lies in
    [10, 100]. *)
Theorem getOptimalChunkSize_bounds (totalMemory freeMemory : Z) :
  (10 <= Imagemin.getOptimalChunkSize totalMemory freeMemory <= 100)%Z.
Proof. unfold Imagemin.getOptimalChunkSize. lia. Qed.

(** ** Node's path functions on plain names

    A name is plain when it holds no separator of either flavour and no
    colon: the names the scanner reads from a directory, and every name made
    of safe characters. *)

Lemma isPathSeparator_plain pf c : plainChar c = true -> isPathSeparator pf c = false.
Proof.
  unfold plainChar, isPathSeparator. intros H.
  apply andb_true_iff in H as [H Hc]. apply andb_true_iff in H as [Hf Hb].
  apply negb_true_iff in Hf, Hb. destruct pf; rewrite ?Hf, ?Hb; reflexivity.
Qed.

Lemma plain_nth (s : jsstring) i : plain s -> (i < length s)%nat -> plainChar (charCodeAt s i) = true.
Proof.
  intros H Hi. unfold plain in H. rewrite List.Forall_forall in H.
  apply H. apply nth_In. exact Hi.
Qed.

Lemma rootSkip_plain pf (s : jsstring) : plain s -> rootSkip pf s = 0%nat.
Proof.
  intros H. destruct pf; [reflexivity|]. unfold rootSkip.
  destruct (2 <=? length s)%nat eqn:E; [|reflexivity].
  apply Nat.leb_le in E.
  pose proof (plain_nth s 1 H ltac:(lia)) as H1.
  unfold plainChar in H1. apply andb_true_iff in H1 as [_ H1].
  apply negb_true_iff in H1. rewrite H1, andb_false_r. reflexivity.
Qed.

Lemma ext_run_app k a b st :
  ext_run k (a ++ b) st = ext_run k b (ext_run (k + length b) a st).
Proof.
  revert st. induction a as [|c a IH]; intros st; [reflexivity|].
  cbn [app ext_run]. rewrite IH. rewrite length_app.
  replace (k + (length a + length b))%nat with (k + length b + length a)%nat by lia.
  reflexivity.
Qed.

Lemma firstn_S_nth (s : jsstring) i :
  (i < length s)%nat -> firstn (S i) s = firstn i s ++ [charCodeAt s i].
Proof.
  revert i. induction s as [|c s IH]; intros i Hi; [cbn in Hi; lia|].
  destruct i as [|i]; [reflexivity|]. cbn in Hi.
  cbn [firstn app]. rewrite (IH i) by lia. reflexivity.
Qed.

Lemma extname_loop_plain pf (s : jsstring) n st :
  plain s -> (n <= length s)%nat ->
  extname_loop pf s 0 n st = ext_run 0 (rev (firstn n s)) st.
Proof.
  intros Hs. revert st. induction n as [|i IH]; intros st Hn; [reflexivity|].
  cbn [extname_loop]. replace (i <? 0)%nat with false by (symmetry; apply Nat.ltb_ge; lia).
  rewrite (isPathSeparator_plain pf) by (apply plain_nth; [exact Hs|lia]).
  rewrite IH by lia. rewrite firstn_S_nth by lia.
  rewrite rev_app_distr. cbn [rev app ext_run].
  rewrite length_rev, length_firstn. replace (0 + Nat.min i (length s))%nat with i by lia.
  reflexivity.
Qed.

(** Characters right of the last dot only fix the end of the extension. *)
Lemma ext_run_dotFree k x st :
  dotFree x -> startDot st = (-1)%Z ->
  let st' := ext_run k (rev x) st in
  startDot st' = (-1)%Z /\ preDotState st' = preDotState st /\
  startPart st' = startPart st /\
  endIdx st' = (if (endIdx st =? -1)%Z
                then match x with [] => -1 | _ => Z.of_nat (k + length x) end
                else endIdx st)%Z.
Proof.
  intros Hx. revert st. induction x as [|c x IH] using rev_ind; intros st Hsd.
  - cbn. repeat split; try assumption. destruct (endIdx st =? -1)%Z eqn:E; [|reflexivity].
    apply Z.eqb_eq in E. exact E.
  - apply List.Forall_app in Hx as [Hx Hc]. inversion Hc as [|? ? Hc' _]; subst.
    rewrite rev_app_distr. cbn [rev app ext_run].
    rewrite length_rev.
    set (st1 := ext_step c (k + length x) st).
    assert (H1 : startDot st1 = (-1)%Z /\ preDotState st1 = preDotState st /\
                 startPart st1 = startPart st /\
                 endIdx st1 = (if (endIdx st =? -1)%Z then Z.of_nat (k + length x) + 1 else endIdx st)%Z).
    { unfold st1, ext_step. apply N.eqb_neq in Hc'. rewrite Hc'.
      destruct st as [sd sp e ms pd]. cbn in Hsd |- *. subst sd.
      destruct (e =? -1)%Z; cbn; repeat split; reflexivity. }
    destruct H1 as (Ha & Hb & Hc1 & Hd).
    specialize (IH Hx st1 Ha). cbn zeta in IH. destruct IH as (I1 & I2 & I3 & I4).
    repeat split; [exact I1 | congruence | congruence |].
    rewrite I4, Hd. rewrite length_app. cbn [length].
    destruct (endIdx st =? -1)%Z eqn:E.
    + replace (Z.of_nat (k + length x) + 1 =? -1)%Z with false by (symmetry; apply Z.eqb_neq; lia).
      destruct (x ++ [c]) eqn:Ex; [destruct x; discriminate|]. lia.
    + rewrite E. reflexivity.
Qed.

(** Once the dot has been seen, the characters left of it only set
    [preDotState]. *)
Lemma ext_run_seen k l st :
  startDot st <> (-1)%Z -> endIdx st <> (-1)%Z ->
  let st' := ext_run k l st in
  startDot st' = startDot st /\ endIdx st' = endIdx st /\ startPart st' = startPart st.
Proof.
  revert st. induction l as [|c l IH]; intros st Hsd He; [cbn; auto|].
  cbn [ext_run]. set (st1 := ext_step c (k + length l) st).
  assert (H1 : startDot st1 = startDot st /\ endIdx st1 = endIdx st /\ startPart st1 = startPart st).
  { unfold st1, ext_step. apply Z.eqb_neq in Hsd, He. rewrite He, Hsd. cbn.
    destruct (c =? CHAR_DOT); [destruct (negb (preDotState st =? 1)%Z)|]; cbn; auto. }
  destruct H1 as (Ha & Hb & Hc).
  destruct (IH st1) as (I1 & I2 & I3); [congruence | congruence |].
  cbn zeta. repeat split; congruence.
Qed.

Lemma ext_step_seen_pre c i st :
  startDot st <> (-1)%Z -> endIdx st <> (-1)%Z ->
  preDotState (ext_step c i st) = if c =? CHAR_DOT then 1%Z else (-1)%Z.
Proof.
  intros Hsd He. unfold ext_step. apply Z.eqb_neq in Hsd, He. rewrite He, Hsd. cbn.
  destruct (c =? CHAR_DOT); [|reflexivity].
  destruct (preDotState st =? 1)%Z eqn:E; cbn; [apply Z.eqb_eq in E; exact E | reflexivity].
Qed.

Lemma ext_run_seen_pre c pre st :
  startDot st <> (-1)%Z -> endIdx st <> (-1)%Z ->
  preDotState (ext_run 0 (rev (c :: pre)) st) = if c =? CHAR_DOT then 1%Z else (-1)%Z.
Proof.
  intros Hsd He. cbn [rev]. rewrite ext_run_app. cbn [ext_run length].
  destruct (ext_run_seen (0 + 1) (rev pre) st Hsd He) as (I1 & I2 & _).
  apply ext_step_seen_pre; congruence.
Qed.

Lemma slice_suffix (a b : jsstring) :
  slice (a ++ b) (Z.of_nat (length a)) (Z.of_nat (length (a ++ b))) = b.
Proof.
  unfold slice. rewrite length_app.
  replace (Z.of_nat (length a) <? 0)%Z with false by (symmetry; apply Z.ltb_ge; lia).
  replace (Z.of_nat (length a + length b) <? 0)%Z with false by (symmetry; apply Z.ltb_ge; lia).
  rewrite !Z.min_l by lia.
  rewrite Nat2Z.id. rewrite skipn_app, skipn_all, Nat.sub_diag. cbn [app skipn].
  apply firstn_all2. lia.
Qed.

Lemma slice_prefix (a b : jsstring) :
  slice (a ++ b) 0 (Z.of_nat (length a)) = a.
Proof.
  unfold slice. rewrite length_app. cbn [Z.ltb Z.compare].
  replace (Z.of_nat (length a) <? 0)%Z with false by (symmetry; apply Z.ltb_ge; lia).
  rewrite !Z.min_l by lia. rewrite Z.sub_0_r, Nat2Z.id.
  change (Z.to_nat 0) with 0%nat. rewrite drop_0.
  rewrite firstn_app, Nat.sub_diag, firstn_all. cbn. apply app_nil_r.
Qed.

Lemma extname_plain_unfold pf (s : jsstring) :
  plain s ->
  extname pf s =
    let st := ext_run 0 (rev s) ext_init in
    if (startDot st =? -1)%Z || (endIdx st =? -1)%Z || (preDotState st =? 0)%Z
       || ((preDotState st =? 1)%Z && (startDot st =? endIdx st - 1)%Z
           && (startDot st =? startPart st + 1)%Z)
    then []
    else slice s (startDot st) (endIdx st).
Proof.
  intros Hs. unfold extname. rewrite rootSkip_plain by exact Hs.
  rewrite extname_loop_plain by (try exact Hs; lia).
  rewrite firstn_all. reflexivity.
Qed.

Lemma extname_plain_nodot pf (s : jsstring) :
  plain s -> dotFree s -> extname pf s = [].
Proof.
  intros Hs Hd. rewrite extname_plain_unfold by exact Hs. cbn zeta.
  destruct (ext_run_dotFree 0 s ext_init Hd eq_refl) as (H1 & _).
  cbn zeta in H1. rewrite H1. reflexivity.
Qed.

Lemma ext_step_first_dot i st :
  startDot st = (-1)%Z ->
  let st' := ext_step CHAR_DOT i st in
  startDot st' = Z.of_nat i /\ preDotState st' = preDotState st /\
  startPart st' = startPart st /\
  endIdx st' = (if (endIdx st =? -1)%Z then Z.of_nat i + 1 else endIdx st)%Z.
Proof.
  intros Hsd. unfold ext_step. rewrite N.eqb_refl.
  destruct st as [sd sp e ms pd]. cbn in Hsd |- *. subst sd.
  destruct (e =? -1)%Z; cbn; repeat split; reflexivity.
Qed.

(** With a last dot at [length pre], the extension runs from that dot to
    the end, unless the dot opens the name or the name is [..]. *)
Lemma extname_plain_dot pf (pre x : jsstring) :
  plain (pre ++ CHAR_DOT :: x) -> dotFree x ->
  extname pf (pre ++ CHAR_DOT :: x) =
    if bool_decide (pre = [] \/ (pre = [CHAR_DOT] /\ x = [])) then [] else CHAR_DOT :: x.
Proof.
  intros Hs Hx. rewrite extname_plain_unfold by exact Hs. cbn zeta.
  rewrite rev_app_distr. cbn [rev]. rewrite <- app_assoc. cbn [app].
  rewrite ext_run_app. cbn [ext_run length]. rewrite !length_rev.
  destruct (ext_run_dotFree (0 + S (length pre)) x ext_init Hx eq_refl) as (X1 & X2 & X3 & X4).
  cbn zeta in X1, X2, X3, X4.
  set (stx := ext_run (0 + S (length pre)) (rev x) ext_init) in *.
  set (std := ext_step CHAR_DOT (0 + length pre) stx).
  assert (D : startDot std = Z.of_nat (length pre) /\ preDotState std = 0%Z /\
              startPart std = 0%Z /\
              endIdx std = Z.of_nat (length (pre ++ CHAR_DOT :: x))).
  { destruct (ext_step_first_dot (0 + length pre) stx X1) as (S1 & S2 & S3 & S4).
    fold std in S1, S2, S3, S4. cbn in X2, X3, X4.
    rewrite S1, S2, S3, S4, X2, X3, X4. rewrite length_app. cbn [length].
    destruct x as [|c x].
    - change (-1 =? -1)%Z with true. cbn iota. cbn [length]. repeat split; lia.
    - replace (Z.of_nat (S (length pre + length (c :: x))) =? -1)%Z with false
        by (symmetry; apply Z.eqb_neq; lia).
      cbn [length]. repeat split; lia. }
  destruct D as (D1 & D2 & D3 & D4).
  assert (Hsd : startDot std <> (-1)%Z) by lia.
  assert (He : endIdx std <> (-1)%Z) by lia.
  destruct (ext_run_seen 0 (rev pre) std Hsd He) as (F1 & F2 & F3). cbn zeta in F1, F2, F3.
  rewrite F1, F2, F3, D1, D3, D4.
  replace (Z.of_nat (length pre) =? -1)%Z with false by (symmetry; apply Z.eqb_neq; lia).
  replace (Z.of_nat (length (pre ++ CHAR_DOT :: x)) =? -1)%Z with false
    by (symmetry; apply Z.eqb_neq; lia).
  cbn [orb]. rewrite slice_suffix. rewrite length_app. cbn [length].
  destruct pre as [|c pre].
  - cbn [rev ext_run]. rewrite D2. rewrite bool_decide_eq_true_2 by (left; reflexivity).
    reflexivity.
  - rewrite (ext_run_seen_pre c pre std Hsd He).
    destruct (c =? CHAR_DOT) eqn:Ec.
    + apply N.eqb_eq in Ec. subst c.
      replace (1 =? 0)%Z with false by reflexivity. rewrite Z.eqb_refl. cbn [orb andb length].
      destruct (decide (CHAR_DOT :: pre = [] \/ (CHAR_DOT :: pre = [CHAR_DOT] /\ x = [])))
        as [Hy|Hn].
      * rewrite (bool_decide_eq_true_2 _ Hy).
        destruct Hy as [H|[H1 H2]]; [discriminate H|].
        injection H1 as ->. subst x. reflexivity.
      * rewrite (bool_decide_eq_false_2 _ Hn).
        destruct ((Z.of_nat (S (length pre)) =? Z.of_nat (S (length pre) + S (length x)) - 1)%Z
                  && (Z.of_nat (S (length pre)) =? 0 + 1)%Z) eqn:E; [|reflexivity].
        exfalso. apply andb_true_iff in E as [E1 E2]. apply Z.eqb_eq in E1, E2.
        apply Hn. right. split.
        -- destruct pre; [reflexivity | cbn [length] in E2; lia].
        -- destruct x; [reflexivity | cbn [length] in E1; lia].
    + replace (-1 =? 0)%Z with false by reflexivity.
      replace (-1 =? 1)%Z with false by reflexivity. cbn [orb andb].
      rewrite bool_decide_eq_false_2; [reflexivity|].
      intros [H|[H _]]; [discriminate H|]. injection H as -> _. discriminate Ec.
Qed.

Lemma basename_plain_loop_plain pf (s : jsstring) n st :
  plain s -> (n <= length s)%nat ->
  basename_plain_loop pf s 0 n st =
    match n with
    | O => st
    | S _ => if (bEnd st =? -1)%Z
             then mkBase (bStart st) (Z.of_nat n) false (extIdx st)
                         (firstNonSlashEnd st)
             else st
    end.
Proof.
  intros Hs. revert st. induction n as [|i IH]; intros st Hn; [reflexivity|].
  cbn [basename_plain_loop].
  replace (i <? 0)%nat with false by (symmetry; apply Nat.ltb_ge; lia).
  rewrite (isPathSeparator_plain pf) by (apply plain_nth; [exact Hs|lia]).
  destruct (bEnd st =? -1)%Z eqn:E.
  - rewrite IH by lia. cbn [bEnd bStart extIdx firstNonSlashEnd].
    replace (Z.of_nat i + 1 =? -1)%Z with false by (symmetry; apply Z.eqb_neq; lia).
    destruct i; f_equal; lia.
  - rewrite IH by lia. rewrite E. destruct i; reflexivity.
Qed.

(** Without a suffix, the base name of a plain name is the name. *)
Lemma basename_plain_nosuffix pf (s : jsstring) :
  plain s -> basename pf s [] = s.
Proof.
  intros Hs. unfold basename. cbn [length Nat.eqb negb andb].
  rewrite rootSkip_plain by exact Hs.
  rewrite basename_plain_loop_plain by (try exact Hs; lia).
  destruct s as [|c s]; [reflexivity|].
  cbn [length bEnd bStart]. change (-1 =? -1)%Z with true. cbn iota.
  cbn [bEnd bStart].
  replace (Z.of_nat (length (c :: s)) =? -1)%Z with false by (symmetry; apply Z.eqb_neq; lia).
  change 0%Z with (Z.of_nat (length (@nil N))).
  apply (slice_suffix [] (c :: s)).
Qed.

(** After the suffix has been matched the rest of the pass changes
    nothing. *)
Lemma basename_suffix_loop_done pf (s e : jsstring) n st :
  plain s -> (n <= length s)%nat ->
  extIdx st = (-1)%Z -> firstNonSlashEnd st <> (-1)%Z ->
  basename_suffix_loop pf s e 0 n st = st.
Proof.
  intros Hs. revert st. induction n as [|i IH]; intros st Hn Hx Hf; [reflexivity|].
  cbn [basename_suffix_loop].
  replace (i <? 0)%nat with false by (symmetry; apply Nat.ltb_ge; lia).
  rewrite (isPathSeparator_plain pf) by (apply plain_nth; [exact Hs|lia]).
  apply Z.eqb_neq in Hf. rewrite Hf. rewrite Hx. cbn [Z.leb Z.compare].
  apply IH; [lia | exact Hx | apply Z.eqb_neq; exact Hf].
Qed.

Lemma charCodeAt_app_r (a b : jsstring) j :
  charCodeAt (a ++ b) (length a + j) = charCodeAt b j.
Proof. unfold charCodeAt. rewrite app_nth2 by lia. f_equal. lia. Qed.

(** The characters of the suffix are matched from the right. *)
Lemma basename_suffix_loop_match pf (b e : jsstring) j st :
  plain (b ++ e) -> (1 <= j <= length e)%nat ->
  extIdx st = (Z.of_nat j - 1)%Z ->
  firstNonSlashEnd st = (if (j =? length e)%nat then -1 else Z.of_nat (length (b ++ e)))%Z ->
  bStart st = 0%Z ->
  exists ms,
    basename_suffix_loop pf (b ++ e) e 0 (length b + j) st =
    mkBase 0 (Z.of_nat (length b)) ms (-1) (Z.of_nat (length (b ++ e))).
Proof.
  intros Hs. revert st. induction j as [|j IH]; intros st Hj Hx Hf Hb; [lia|].
  replace (length b + S j)%nat with (S (length b + j)) by lia.
  cbn [basename_suffix_loop].
  replace (length b + j <? 0)%nat with false by (symmetry; apply Nat.ltb_ge; lia).
  rewrite (isPathSeparator_plain pf)
    by (apply plain_nth; [exact Hs | rewrite length_app; lia]).
  rewrite charCodeAt_app_r.
  set (st1 := if (firstNonSlashEnd st =? -1)%Z
              then mkBase (bStart st) (bEnd st) false (extIdx st) (Z.of_nat (length b + j) + 1)
              else st).
  assert (H1 : extIdx st1 = Z.of_nat j /\ bStart st1 = 0%Z /\
               firstNonSlashEnd st1 = Z.of_nat (length (b ++ e))).
  { unfold st1. destruct (S j =? length e)%nat eqn:E; rewrite Hf.
    - apply Nat.eqb_eq in E. change (-1 =? -1)%Z with true. cbn.
      rewrite length_app. repeat split; lia.
    - apply Nat.eqb_neq in E.
      replace (Z.of_nat (length (b ++ e)) =? -1)%Z with false by (symmetry; apply Z.eqb_neq; lia).
      repeat split; [lia | exact Hb | exact Hf]. }
  destruct H1 as (Hx1 & Hb1 & Hf1).
  rewrite Hx1. replace (0 <=? Z.of_nat j)%Z with true by (symmetry; apply Z.leb_le; lia).
  rewrite Nat2Z.id, N.eqb_refl.
  destruct j as [|j'].
  - change (Z.of_nat 0 - 1 =? -1)%Z with true. cbn iota.
    rewrite Nat.add_0_r. eexists.
    rewrite basename_suffix_loop_done;
      [ rewrite Hb1, Hf1; reflexivity | exact Hs | rewrite length_app; lia
      | reflexivity | cbn; rewrite Hf1; lia ].
  - replace (Z.of_nat (S j') - 1 =? -1)%Z with false by (symmetry; apply Z.eqb_neq; lia).
    apply IH; cbn [extIdx firstNonSlashEnd bStart]; [lia | reflexivity | | exact Hb1].
    rewrite Hf1. replace (S j' =? length e)%nat with false
      by (symmetry; apply Nat.eqb_neq; lia). reflexivity.
Qed.

(** Stripping a non-empty suffix from a longer plain name. *)
Lemma basename_plain_suffix pf (b e : jsstring) :
  plain (b ++ e) -> b <> [] -> e <> [] -> basename pf (b ++ e) e = b.
Proof.
  intros Hs Hb He. unfold basename.
  rewrite rootSkip_plain by exact Hs.
  assert (Le : (1 <= length e)%nat) by (destruct e; [contradiction | cbn; lia]).
  assert (Lb : (1 <= length b)%nat) by (destruct b; [contradiction | cbn; lia]).
  replace (length e =? 0)%nat with false by (symmetry; apply Nat.eqb_neq; lia).
  replace (length e <=? length (b ++ e))%nat with true
    by (symmetry; apply Nat.leb_le; rewrite length_app; lia).
  cbn [negb andb]. unfold jseqb.
  rewrite bool_decide_eq_false_2.
  2:{ intros H. apply (f_equal (@length N)) in H. rewrite length_app in H. lia. }
  destruct (basename_suffix_loop_match pf b e (length e)
              (mkBase (Z.of_nat 0) (-1) true (Z.of_nat (length e) - 1) (-1)) Hs)
    as [ms Hloop]; cbn [extIdx firstNonSlashEnd bStart];
    [lia | reflexivity | rewrite Nat.eqb_refl; reflexivity | reflexivity |].
  rewrite <- length_app in Hloop. rewrite Hloop. cbn [bStart bEnd].
  replace (0 =? Z.of_nat (length b))%Z with false by (symmetry; apply Z.eqb_neq; lia).
  replace (Z.of_nat (length b) =? -1)%Z with false by (symmetry; apply Z.eqb_neq; lia).
  apply slice_prefix.
Qed.

(** ** Idempotence of the sanitizer *)

Lemma sanitizeFileName_eq pf name :
  Sanitizer.sanitizeFileName pf name =
  sanitizedBase (basename pf name (extname pf name)) ++ extname pf name.
Proof.
  unfold Sanitizer.sanitizeFileName, sanitizedBase.
  destruct (Sanitizer.stripUnderscores _); reflexivity.
Qed.

Section CharInvariant.
Variable P : N -> Prop.
Hypothesis P_underscore : P UNDERSCORE.

Lemma Forall_replaceProblematic s :
  List.Forall P s -> List.Forall P (Sanitizer.replaceProblematic s).
Proof.
  induction 1 as [|c s Hc _ IH]; cbn; constructor; [|exact IH].
  destruct (Sanitizer.inSafeClass c); assumption.
Qed.

Lemma Forall_replaceSpaces s b :
  List.Forall P s -> List.Forall P (Sanitizer.replaceSpaces b s).
Proof.
  intros H. revert b. induction H as [|c s Hc _ IH]; intros b; cbn; [constructor|].
  destruct (isWhiteSpace c); [destruct b|]; try constructor; auto.
Qed.

Lemma Forall_stripUnderscores s :
  List.Forall P s -> List.Forall P (Sanitizer.stripUnderscores s).
Proof.
  intros H. destruct (stripUnderscores_trimmed s) as (lead & trail & E & _).
  rewrite E in H. apply List.Forall_app in H as [_ H].
  apply List.Forall_app in H as [H _]. exact H.
Qed.

Lemma Forall_sanitizedBase b :
  List.Forall P Sanitizer.fallbackName -> List.Forall P b -> List.Forall P (sanitizedBase b).
Proof.
  intros Hf Hb. unfold sanitizedBase.
  assert (H : List.Forall P (Sanitizer.stripUnderscores
            (substring0 100 (Sanitizer.replaceSpaces false (Sanitizer.replaceProblematic b))))).
  { apply Forall_stripUnderscores, Forall_take, Forall_replaceSpaces,
      Forall_replaceProblematic, Hb. }
  destruct (Sanitizer.stripUnderscores _); [exact Hf | exact H].
Qed.
End CharInvariant.

Lemma cleanChar_replaced s b :
  List.Forall (fun c => Sanitizer.inSafeClass c = true) s ->
  List.Forall cleanChar (Sanitizer.replaceSpaces b s).
Proof.
  intros H. revert b. induction H as [|c s Hc _ IH]; intros b; cbn; [constructor|].
  destruct (isWhiteSpace c) eqn:E; [destruct b|]; try constructor; auto.
  - split; reflexivity.
  - split; assumption.
Qed.

Lemma safe_replaceProblematic s :
  List.Forall (fun c => Sanitizer.inSafeClass c = true) (Sanitizer.replaceProblematic s).
Proof.
  induction s as [|c s IH]; cbn; constructor; [|exact IH].
  destruct (Sanitizer.inSafeClass c) eqn:E; [exact E | reflexivity].
Qed.

Lemma clean_fallback : clean Sanitizer.fallbackName.
Proof.
  unfold clean. repeat split; try (cbn; lia); try discriminate.
  repeat constructor.
Qed.

Lemma clean_sanitizedBase b : clean (sanitizedBase b).
Proof.
  unfold sanitizedBase.
  set (s := substring0 100 (Sanitizer.replaceSpaces false (Sanitizer.replaceProblematic b))).
  assert (Hs : List.Forall cleanChar s)
    by (apply Forall_take, cleanChar_replaced, safe_replaceProblematic).
  assert (Ls : (length s <= 100)%nat) by (unfold s, substring0; rewrite length_firstn; lia).
  destruct (stripUnderscores_trimmed s) as (lead & trail & E & _ & _ & Hh & Hl).
  destruct (Sanitizer.stripUnderscores s) as [|c t] eqn:Et; [apply clean_fallback|].
  repeat split; try assumption; [| |discriminate].
  - rewrite E in Hs. apply List.Forall_app in Hs as [_ Hs].
    apply List.Forall_app in Hs as [Hs _]. exact Hs.
  - apply (f_equal (@length N)) in E. rewrite !length_app in E. lia.
Qed.

Lemma dropLeading_id (t : jsstring) :
  head t <> Some UNDERSCORE -> Sanitizer.dropLeadingUnderscores t = t.
Proof.
  destruct t as [|c t]; [reflexivity|]. cbn. intros H.
  destruct (c =? UNDERSCORE) eqn:E; [|reflexivity].
  apply N.eqb_eq in E. subst c. contradiction.
Qed.

Lemma sanitizedBase_clean t : clean t -> sanitizedBase t = t.
Proof.
  intros (Hc & Hl & Hh & Hla & Hn). unfold sanitizedBase.
  assert (E1 : Sanitizer.replaceProblematic t = t).
  { clear -Hc. induction Hc as [|c t [Hs _] _ IH]; cbn; [reflexivity|].
    rewrite Hs. f_equal. exact IH. }
  assert (E2 : forall b, Sanitizer.replaceSpaces b t = t).
  { clear -Hc. induction Hc as [|c t [_ Hw] _ IH]; intros b; cbn; [reflexivity|].
    rewrite Hw. f_equal. apply IH. }
  rewrite E1, E2. unfold substring0. rewrite firstn_all2 by exact Hl.
  unfold Sanitizer.stripUnderscores.
  rewrite (dropLeading_id t Hh).
  rewrite dropLeading_id.
  - rewrite rev_involutive. destruct t; [contradiction | reflexivity].
  - rewrite <- (rev_involutive t) in Hla. rewrite last_rev_head in Hla. exact Hla.
Qed.

Lemma inSafeClass_plainChar c : Sanitizer.inSafeClass c = true -> plainChar c = true.
Proof.
  intros H. unfold plainChar.
  destruct (c =? CHAR_FORWARD_SLASH) eqn:E1; [apply N.eqb_eq in E1; subst; discriminate H|].
  destruct (c =? CHAR_BACKWARD_SLASH) eqn:E2; [apply N.eqb_eq in E2; subst; discriminate H|].
  destruct (c =? CHAR_COLON) eqn:E3; [apply N.eqb_eq in E3; subst; discriminate H|].
  reflexivity.
Qed.

Lemma clean_plain t : clean t -> plain t.
Proof.
  intros (Hc & _). unfold plain. eapply List.Forall_impl; [|exact Hc].
  intros c [H _]. by apply inSafeClass_plainChar.
Qed.

Lemma dotFree_fallback : dotFree Sanitizer.fallbackName.
Proof. repeat constructor; discriminate. Qed.

Lemma dropLeading_snoc (l : jsstring) c :
  c <> UNDERSCORE ->
  exists u, Sanitizer.dropLeadingUnderscores (l ++ [c]) = u ++ [c] /\
            forall P : N -> Prop, List.Forall P l -> List.Forall P u.
Proof.
  intros Hc. induction l as [|a l (u & E & Hu)].
  - exists []. cbn. apply N.eqb_neq in Hc. rewrite Hc. split; [reflexivity | auto].
  - cbn [app Sanitizer.dropLeadingUnderscores]. destruct (a =? UNDERSCORE).
    + exists u. split; [exact E|]. intros P HP. inversion HP; subst. by apply Hu.
    + exists (a :: l). split; [reflexivity | auto].
Qed.

(** A base that opens with its only dot keeps that shape. *)
Lemma sanitizedBase_leading_dot x :
  dotFree x -> exists y, sanitizedBase (CHAR_DOT :: x) = CHAR_DOT :: y /\ dotFree y.
Proof.
  intros Hx. unfold sanitizedBase.
  change (Sanitizer.replaceProblematic (CHAR_DOT :: x))
    with (CHAR_DOT :: Sanitizer.replaceProblematic x).
  change (Sanitizer.replaceSpaces false (CHAR_DOT :: Sanitizer.replaceProblematic x))
    with (CHAR_DOT :: Sanitizer.replaceSpaces false (Sanitizer.replaceProblematic x)).
  change (substring0 100 (CHAR_DOT :: ?l)) with (CHAR_DOT :: firstn 99 l).
  set (l := firstn 99 (Sanitizer.replaceSpaces false (Sanitizer.replaceProblematic x))).
  assert (Hl : dotFree l).
  { apply Forall_take, Forall_replaceSpaces, Forall_replaceProblematic;
      [discriminate | discriminate | exact Hx]. }
  unfold Sanitizer.stripUnderscores.
  change (Sanitizer.dropLeadingUnderscores (CHAR_DOT :: l)) with (CHAR_DOT :: l).
  cbn [rev].
  destruct (dropLeading_snoc (rev l) CHAR_DOT ltac:(discriminate)) as (u & E & Hu).
  rewrite E, rev_app_distr. cbn [rev app].
  exists (rev u). split; [reflexivity|].
  apply List.Forall_rev, Hu, List.Forall_rev, Hl.
Qed.

Lemma dot_split (s : jsstring) :
  dotFree s \/ exists pre x, s = pre ++ CHAR_DOT :: x /\ dotFree x.
Proof.
  induction s as [|c s [IH|(pre & x & -> & Hx)]].
  - left. constructor.
  - destruct (N.eq_dec c CHAR_DOT) as [->|Hc].
    + right. exists [], s. split; [reflexivity | exact IH].
    + left. constructor; assumption.
  - right. exists (c :: pre), x. split; [reflexivity | exact Hx].
Qed.

Lemma sanitize_dotdot pf :
  Sanitizer.sanitizeFileName pf [CHAR_DOT; CHAR_DOT] = [CHAR_DOT; CHAR_DOT].
Proof. destruct pf; reflexivity. Qed.

Lemma sanitize_noext pf (s : jsstring) :
  plain s -> extname pf s = [] -> Sanitizer.sanitizeFileName pf s = sanitizedBase s.
Proof.
  intros Hs He. rewrite sanitizeFileName_eq, He, basename_plain_nosuffix by exact Hs.
  apply app_nil_r.
Qed.

Lemma sanitize_idempotent_plain pf (name : jsstring) :
  plain name ->
  Sanitizer.sanitizeFileName pf (Sanitizer.sanitizeFileName pf name) =
  Sanitizer.sanitizeFileName pf name.
Proof.
  intros Hn. destruct (dot_split name) as [Hd|(pre & x & -> & Hx)].
  - (* no dot at all *)
    rewrite (sanitize_noext pf name Hn (extname_plain_nodot pf name Hn Hd)).
    pose proof (clean_sanitizedBase name) as Hc.
    rewrite sanitize_noext.
    + by apply sanitizedBase_clean.
    + by apply clean_plain.
    + apply extname_plain_nodot; [by apply clean_plain|].
      apply Forall_sanitizedBase; [discriminate | apply dotFree_fallback | exact Hd].
  - pose proof (extname_plain_dot pf pre x Hn Hx) as He.
    destruct (decide (pre = [] \/ (pre = [CHAR_DOT] /\ x = []))) as [Hy|Hy].
    + rewrite (bool_decide_eq_true_2 _ Hy) in He.
      destruct Hy as [->|[-> ->]].
      * (* the only dot opens the name *)
        cbn [app] in *. rewrite (sanitize_noext pf _ Hn He).
        destruct (sanitizedBase_leading_dot x Hx) as (y & Ey & Hy).
        pose proof (clean_sanitizedBase (CHAR_DOT :: x)) as Hc.
        rewrite sanitize_noext.
        -- by apply sanitizedBase_clean.
        -- by apply clean_plain.
        -- apply clean_plain in Hc. rewrite Ey in Hc |- *.
           pose proof (extname_plain_dot pf [] y Hc Hy) as E0. cbn [app] in E0.
           rewrite E0, bool_decide_eq_true_2 by (left; reflexivity). reflexivity.
      * cbn [app]. rewrite !sanitize_dotdot. reflexivity.
    + rewrite (bool_decide_eq_false_2 _ Hy) in He.
      assert (Hpre : pre <> []) by (intros ->; apply Hy; left; reflexivity).
      rewrite (sanitizeFileName_eq pf (pre ++ CHAR_DOT :: x)), He.
      rewrite (basename_plain_suffix pf pre (CHAR_DOT :: x) Hn Hpre ltac:(discriminate)).
      pose proof (clean_sanitizedBase pre) as Hc.
      set (b1 := sanitizedBase pre) in *.
      assert (Hp1 : plain (b1 ++ CHAR_DOT :: x)).
      { apply List.Forall_app. split; [by apply clean_plain|].
        apply List.Forall_app in Hn as [_ Hn]. exact Hn. }
      assert (Hb1 : b1 <> []) by (destruct Hc as (_ & _ & _ & _ & H); exact H).
      pose proof (extname_plain_dot pf b1 x Hp1 Hx) as He1.
      destruct (decide (b1 = [] \/ (b1 = [CHAR_DOT] /\ x = []))) as [Hz|Hz].
      * destruct Hz as [Hz|[Hz ->]]; [contradiction|].
        rewrite Hz. cbn [app]. apply sanitize_dotdot.
      * rewrite (bool_decide_eq_false_2 _ Hz) in He1.
        rewrite sanitizeFileName_eq, He1.
        rewrite (basename_plain_suffix pf b1 (CHAR_DOT :: x) Hp1 Hb1 ltac:(discriminate)).
        rewrite (sanitizedBase_clean b1 Hc). reflexivity.
Qed.

(** C8. On a name made of safe characters only, sanitizing twice gives the
    same name as sanitizing once. *)
Theorem sanitizeFileName_idempotent (pf : platform) (name : jsstring) :
  List.Forall (fun c => Sanitizer.inSafeClass c = true) name ->
  Sanitizer.sanitizeFileName pf (Sanitizer.sanitizeFileName pf name) =
  Sanitizer.sanitizeFileName pf name.
Proof.
  intros H. apply sanitize_idempotent_plain.
  unfold plain. eapply List.Forall_impl; [|exact H].
  intros c. apply inSafeClass_plainChar.
Qed.

(** C8, at a concrete name with spaces, brackets and two dots, read as a
    Windows path. *)
Lemma sanitizeFileName_idempotent_witness :
  List.Forall (fun c => Sanitizer.inSafeClass c = true) (js "my photo (1).final.png") /\
  Sanitizer.sanitizeFileName Win32
    (Sanitizer.sanitizeFileName Win32 (js "my photo (1).final.png")) =
  Sanitizer.sanitizeFileName Win32 (js "my photo (1).final.png").
Proof.
  assert (H : List.Forall (fun c => Sanitizer.inSafeClass c = true) (js "my photo (1).final.png"))
    by (repeat constructor).
  split; [exact H | apply (sanitizeFileName_idempotent Win32 _ H)].
Defined.

(** ** Running computations *)

Import Runtime.

Lemma bind_run {A B} (m : M A) (f : A -> M B) st :
  (m ≫= f) st =
  match m st with
  | (Ok a, st') => f a st'
  | (Throw e, st') => (Throw e, st')
  end.
Proof. reflexivity. Qed.

Lemma tryCatch_run {A} (m : M A) (h : jsstring -> M A) st :
  tryCatch m h st =
  match m st with
  | (Ok a, st') => (Ok a, st')
  | (Throw e, st') => h e st'
  end.
Proof. reflexivity. Qed.

(** ** Restoring names *)

Import PathJoin Staging RestoreSpec.

Lemma fs_rename_unit handle src dst st :
  exists r st', fs_rename handle src dst st = (r, st') /\
                (r = Ok tt \/ exists message, r = Throw message).
Proof.
  destruct (fs_rename handle src dst st) as [[[]|message] st'] eqn:E;
    eexists _, _; (split; [reflexivity|]); eauto.
Qed.

Lemma restoreLoop_spec pf handle outputDir files acc st :
  exists results st',
    restoreLoop pf handle files outputDir acc st = (Ok (acc ++ results), st') /\
    restored pf handle outputDir files st results st'.
Proof.
  revert acc st. induction files as [|file rest IH]; intros acc st.
  - exists [], st. split; [cbn; by rewrite app_nil_r | constructor].
  - cbn [restoreLoop]. rewrite bind_run. cbn [gets].
    destruct (tempFileMap st !! normalizeSourcePath (sourcePath file)) as [info|] eqn:El.
    + rewrite bind_run, tryCatch_run, bind_run.
      match goal with
      | |- context [fs_rename handle ?a ?b st] =>
          destruct (fs_rename_unit handle a b st) as (r & st1 & Er & [->|[message ->]])
      end; rewrite Er.
      * destruct (IH (acc ++ [Success (ti_originalName info) (restoredName pf info)
                                 (Some (join pf [outputDir; restoredName pf info]))]) st1)
          as (results & st' & E & R).
        eexists _, st'. split.
        -- cbn. etransitivity; [exact E|]. rewrite <- app_assoc. reflexivity.
        -- eapply restored_renamed; eassumption.
      * destruct (IH (acc ++ [Failure (ti_originalName info) message]) st1)
          as (results & st' & E & R).
        eexists _, st'. split.
        -- cbn. etransitivity; [exact E|]. rewrite <- app_assoc. reflexivity.
        -- eapply restored_rename_failed; eassumption.
    + destruct (IH (acc ++ [Failure (js "unknown") (js "No mapping found")]) st)
        as (results & st' & E & R).
      eexists _, st'. split.
      * rewrite E, <- app_assoc. reflexivity.
      * by apply restored_unmapped.
Qed.

(** What [restoreOriginalNames] does on every host: it never throws and
    treats every descriptor in turn: the mapping is looked up under the
    source path with each [/] replaced by a backslash; without an entry
    the result is the failure "No mapping found" and the pass goes on; with
    an entry the artifact is renamed to [<originalBaseName>.webp] inside the
    output directory and a success is reported, or, when the rename fails,
    a failure carrying the error of the rename. *)
Lemma restoreOriginalNames_spec (pf : platform) (handle : Ext -> State -> State)
    (processedFiles : list CodecOutput) (outputDir : jsstring) (st : State) :
  exists results st',
    restoreOriginalNames pf handle processedFiles outputDir st = (Ok results, st') /\
    restored pf handle outputDir processedFiles st results st'.
Proof. apply (restoreLoop_spec pf handle outputDir processedFiles [] st). Qed.

(** C2: the code does not do what the claim, and its own comment
    "Normalize path separators for comparison", say. On a POSIX host the
    entry that [createTempFiles] stored exists under the staged path, which
    the host's separator leaves as it is, yet the lookup turns every [/]
    into a backslash, misses the entry and reports "No mapping found", the
    branch the code marks "this should not happen!"; the artifact is never
    renamed. (On a Windows host the lookup finds the entry; there a rename
    that fails gives a failure.) *)
Lemma restoreOriginalNames_misses_and_fails :
  (tempFileMap Examples.stagedPosix
     !! hostNormalized Posix (sourcePath Examples.codecPosix) =
   Some (mkTempInfo (js "/photos/pic#1.png") (js "pic#1.png")) /\
   (restoreOriginalNames Posix (Imagemin.onEvent Posix) [Examples.codecPosix]
      (js "/out") Examples.stagedPosix).1 =
   Ok [Failure (js "unknown") (js "No mapping found")]) /\
  (tempFileMap Examples.stagedWin32
     !! hostNormalized Win32 (sourcePath Examples.codecWin32) =
   Some (mkTempInfo (js "C:\photos\pic#1.png") (js "pic#1.png")) /\
   (restoreOriginalNames Win32 (Imagemin.onEvent Win32) [Examples.codecWin32]
      (js "C:\out") Examples.stagedWin32).1 =
   Ok [Failure (js "pic#1.png") ENOENT]).
Proof. repeat split; vm_compute; reflexivity. Qed.

(** ** Reasoning about computations *)

Import Invariants.

Lemma wp_ret {A} (a : A) st Q : wp (mret a) st Q <-> Q (Ok a) st.
Proof. reflexivity. Qed.

Lemma wp_throw {A} message st (Q : Res A -> State -> Prop) :
  wp (throw message) st Q <-> Q (Throw message) st.
Proof. reflexivity. Qed.

Lemma wp_bind {A B} (m : M A) (f : A -> M B) st Q :
  wp (m ≫= f) st Q <->
  wp m st (fun r st' => match r with
                        | Ok a => wp (f a) st' Q
                        | Throw e => Q (Throw e) st'
                        end).
Proof. unfold wp. rewrite bind_run. destruct (m st) as [[a|e] st']; reflexivity. Qed.

Lemma wp_tryCatch {A} (m : M A) (h : jsstring -> M A) st Q :
  wp (tryCatch m h) st Q <->
  wp m st (fun r st' => match r with
                        | Ok a => Q (Ok a) st'
                        | Throw e => wp (h e) st' Q
                        end).
Proof. unfold wp. rewrite tryCatch_run. destruct (m st) as [[a|e] st']; reflexivity. Qed.

Lemma wp_get st Q : wp get st Q <-> Q (Ok st) st.
Proof. reflexivity. Qed.

Lemma wp_gets {A} (f : State -> A) st Q : wp (gets f) st Q <-> Q (Ok (f st)) st.
Proof. reflexivity. Qed.

Lemma wp_modify f st Q : wp (modify f) st Q <-> Q (Ok tt) (f st).
Proof. reflexivity. Qed.

Lemma wp_mono {A} (m : M A) st (Q Q' : Res A -> State -> Prop) :
  wp m st Q -> (forall r st', Q r st' -> Q' r st') -> wp m st Q'.
Proof. unfold wp. auto. Qed.

Lemma wp_fallible {A} t (op : M A) st Q :
  wp (fallible t op) st Q <->
  match failure t with
  | Some message => Q (Throw message) st
  | None => wp op st Q
  end.
Proof. unfold fallible. destruct (failure t); reflexivity. Qed.

Ltac wp_simpl :=
  repeat first
    [ rewrite wp_bind | rewrite wp_tryCatch | rewrite wp_ret | rewrite wp_throw
    | rewrite wp_get | rewrite wp_gets | rewrite wp_modify | rewrite wp_fallible ].

(** ** Steps of the environment *)

Lemma Inv_frame pend st st' :
  isCancelled st' = isCancelled st -> cancelledAt st' = cancelledAt st ->
  processedCount st' = processedCount st -> created st' = created st ->
  currentOutputPath st' = currentOutputPath st ->
  tempDirectories st' = tempDirectories st -> dirs st' ⊆ dirs st ->
  Inv pend st -> Inv pend st'.
Proof.
  intros E1 E2 E3 E4 E5 E6 E7 [H1 H2 H3 H4].
  split; unfold registered; rewrite ?E1, ?E2, ?E3, ?E4, ?E5, ?E6; auto.
  intros q Hq Hd. apply (H3 q Hq). by apply E7.
Qed.

Lemma rejected_none (l1 l2 : list jsstring) : l1 `prefix_of` l2 -> l2 = [] -> l1 = [].
Proof. intros H ->. by apply prefix_nil_inv in H. Qed.

(** Between two states with the same rejections nothing was rejected. *)
Lemma prefix_squeeze (l1 l2 l3 : list jsstring) :
  l1 `prefix_of` l2 -> l2 `prefix_of` l3 -> l3 = l1 -> l2 = l1 /\ l3 = l2.
Proof.
  intros H12 H23 ->. assert (l2 = l1) as -> by (by apply (anti_symm prefix)). done.
Qed.

Lemma Cleared_frame st st' :
  cancelledAt st' = cancelledAt st -> created st' = created st ->
  dirs st' ⊆ dirs st -> rejected st `prefix_of` rejected st' -> Cleared st -> Cleared st'.
Proof.
  intros E1 E2 E3 E4 H. unfold Cleared. rewrite E1, E2.
  intros Hc Hr p Hp Hd. apply (H Hc (rejected_none _ _ E4 Hr) p Hp). by apply E3.
Qed.

Lemma Env_frame st st' :
  isCancelled st' = isCancelled st -> cancelledAt st' = cancelledAt st ->
  processedCount st' = processedCount st -> created st' = created st ->
  currentOutputPath st' = currentOutputPath st ->
  tempDirectories st' = tempDirectories st -> dirs st' ⊆ dirs st ->
  rejected st `prefix_of` rejected st' ->
  Env st st'.
Proof.
  intros E1 E2 E3 E4 E5 E6 E7 E8. split; try assumption.
  - congruence.
  - intros pend. by apply Inv_frame.
  - intros _. by apply Cleared_frame.
Qed.

Lemma Env_refl st : Env st st.
Proof. by apply Env_frame. Qed.

Lemma Env_trans st1 st2 st3 : Env st1 st2 -> Env st2 st3 -> Env st1 st3.
Proof.
  intros [A1 A2 A3 A4 A5 A9 A6 A7 A8] [B1 B2 B3 B4 B5 B9 B6 B7 B8].
  split; try congruence; auto.
  - set_solver.
  - by etransitivity.
Qed.

Ltac env_frame := apply Env_frame; first [reflexivity | set_solver].

(** No removal was rejected between two states. *)
Definition unhindered (st st' : State) : Prop := rejected st' = rejected st.

Lemma unhindered_split st1 st2 st3 :
  Env st1 st2 -> Env st2 st3 -> unhindered st1 st3 -> unhindered st1 st2 /\ unhindered st2 st3.
Proof.
  intros E1 E2 H.
  apply (prefix_squeeze _ _ _ (env_rejected _ _ E1) (env_rejected _ _ E2) H).
Qed.

Lemma rm_rf_Env pf p st : Env st (rm_rf pf p st).
Proof.
  apply Env_frame; try reflexivity.
  unfold rm_rf. cbn. intros q Hq. by apply elem_of_filter in Hq as [_ Hq].
Qed.

Lemma under_refl pf p : PathJoin.under pf p p = true.
Proof. unfold PathJoin.under, jseqb. by rewrite bool_decide_eq_true_2. Qed.

Lemma rm_rf_absent pf p st : p ∉ dirs (rm_rf pf p st).
Proof.
  unfold rm_rf. cbn. intros Hq. apply elem_of_filter in Hq as [Hq _].
  rewrite under_refl in Hq. discriminate Hq.
Qed.

Section Stage1.

Variable pf : platform.
Variable handle : Ext -> State -> State.
Hypothesis handle_benign : Benign handle.

Lemma interfere_Env events st : Env st (interfere handle events st).
Proof.
  revert st. induction events as [|e events IH]; intros st; [apply Env_refl|].
  cbn. eapply Env_trans; [apply handle_benign | apply IH].
Qed.

Lemma wp_await {A} (op : Tick -> M A) st Q :
  (forall t st2, Env st st2 ->
     wp (op t) st2 (fun r st3 => forall st4, Env st3 st4 -> Q r st4)) ->
  wp (await handle op) st Q.
Proof.
  intros H. unfold wp, await.
  set (t := match script st with [] => idle | t :: _ => t end).
  set (st2 := set_clock _ _).
  assert (E : Env st st2).
  { unfold st2. eapply Env_trans; [|eapply Env_trans; [apply interfere_Env|]]; [|].
    - instantiate (1 := set_script (tail (script st)) st). env_frame.
    - env_frame. }
  specialize (H t st2 E). unfold wp in H.
  destruct (op t st2) as [r st3]. cbn in H |- *. apply H, interfere_Env.
Qed.

(** Operations that only read, or only touch files. *)
Lemma fs_access_Env p st : wp (fs_access handle p) st (fun _ st' => Env st st').
Proof.
  apply wp_await. intros t st2 E. wp_simpl.
  destruct (pathExists p st2); wp_simpl; intros st4 E4; eauto using Env_trans.
Qed.

Lemma fs_stat_Env p st : wp (fs_stat handle p) st (fun _ st' => Env st st').
Proof.
  apply wp_await. intros t st2 E. wp_simpl.
  destruct (failure t); [intros st4 E4; eauto using Env_trans|]. wp_simpl.
  destruct (bool_decide _); [|destruct (files st2 !! p)]; wp_simpl;
    intros st4 E4; eauto using Env_trans.
Qed.

Lemma fs_readdir_Env p st : wp (fs_readdir handle p) st (fun _ st' => Env st st').
Proof.
  apply wp_await. intros t st2 E. wp_simpl.
  destruct (failure t); wp_simpl; intros st4 E4; eauto using Env_trans.
Qed.

Lemma fs_readdir_sub_Env st : wp (fs_readdir_sub handle) st (fun _ st' => Env st st').
Proof.
  apply wp_await. intros t st2 E. wp_simpl.
  destruct (failure t); wp_simpl; intros st4 E4; eauto using Env_trans.
Qed.

Lemma fs_unlink_Env p st : wp (fs_unlink handle p) st (fun _ st' => Env st st').
Proof.
  apply wp_await. intros t st2 E. wp_simpl.
  destruct (failure t); [intros st4 E4; eauto using Env_trans|]. wp_simpl.
  destruct (files st2 !! p); wp_simpl; intros st4 E4; [|eauto using Env_trans].
  eapply Env_trans; [exact E|]. eapply Env_trans; [|exact E4]. env_frame.
Qed.

Lemma fs_copyFile_Env src dst st :
  wp (fs_copyFile handle src dst) st (fun _ st' => Env st st').
Proof.
  apply wp_await. intros t st2 E. wp_simpl.
  destruct (failure t); [intros st4 E4; eauto using Env_trans|]. wp_simpl.
  destruct (files st2 !! src); wp_simpl; intros st4 E4; [|eauto using Env_trans].
  eapply Env_trans; [exact E|]. eapply Env_trans; [|exact E4]. env_frame.
Qed.

Lemma fs_rename_Env src dst st :
  wp (fs_rename handle src dst) st (fun _ st' => Env st st').
Proof.
  apply wp_await. intros t st2 E. wp_simpl.
  destruct (failure t); [intros st4 E4; eauto using Env_trans|]. wp_simpl.
  destruct (files st2 !! src); wp_simpl; intros st4 E4; [|eauto using Env_trans].
  eapply Env_trans; [exact E|]. eapply Env_trans; [|exact E4]. env_frame.
Qed.

Lemma sharp_toFile_Env src settings dst st :
  wp (Sharp.sharp_toFile handle src settings dst) st (fun _ st' => Env st st').
Proof.
  apply wp_await. intros t st2 E. wp_simpl.
  destruct (failure t); wp_simpl; intros st4 E4; [eauto using Env_trans|].
  eapply Env_trans; [exact E|]. eapply Env_trans; [|exact E4]. env_frame.
Qed.

Lemma rejected_grown p st st' :
  rejected st `prefix_of` rejected st' -> rejected st' ++ [p] <> rejected st.
Proof.
  intros H E. apply prefix_length in H. apply (f_equal length) in E.
  rewrite length_app in E. cbn in E. lia.
Qed.

(** A removal either takes [p] away or is rejected, and then noted. *)
Lemma fs_rm_spec p st :
  wp (fs_rm pf handle p) st (fun r st' =>
    Env st st' /\
    match r with
    | Ok _ => p ∉ dirs st'
    | Throw _ => ~ unhindered st st'
    end).
Proof.
  apply wp_await. intros t st2 E. destruct (failure t) as [message|].
  - wp_simpl. intros st4 E4. split.
    + eapply Env_trans; [exact E|]. eapply Env_trans; [|exact E4].
      apply Env_frame; try reflexivity. by apply prefix_app_r.
    + intros H. unfold unhindered in H.
      pose proof (env_rejected _ _ E) as P2. pose proof (env_rejected _ _ E4) as P4.
      cbn in P4. rewrite H in P4.
      assert (E' : rejected st2 ++ [p] = rejected st); [|by apply rejected_grown in E'].
      apply (anti_symm prefix); [exact P4|]. etransitivity; [exact P2|]. by apply prefix_app_r.
  - wp_simpl. intros st4 E4. split.
    + eapply Env_trans; [exact E|]. eapply Env_trans; [apply rm_rf_Env | exact E4].
    + intros Hp. apply (rm_rf_absent pf p st2). by apply (env_dirs _ _ E4).
Qed.

Lemma fs_mkdir_spec p st :
  wp (fs_mkdir handle p) st (fun r st' =>
    match r with
    | Ok _ => exists st2, Env st st2 /\ Env (made p st2) st'
    | Throw _ => Env st st'
    end).
Proof.
  apply wp_await. intros t st2 E. wp_simpl.
  destruct (failure t); wp_simpl; intros st4 E4; [eauto using Env_trans|].
  exists st2. split; assumption.
Qed.

Lemma made_Inv p pend st : Inv pend st -> Inv (p :: pend) (made p st).
Proof.
  intros [H1 H2 H3 H4]. split; try assumption.
  unfold made, registered. cbn. intros q Hq Hd.
  apply elem_of_app in Hq as [Hq|Hq].
  - apply elem_of_union in Hd as [Hd|Hd].
    + apply elem_of_singleton in Hd. subst q. right. left.
    + destruct (H3 q Hq Hd) as [Hr|Hr]; [left; exact Hr | right; by right].
  - apply list_elem_of_singleton in Hq. subst q. right. left.
Qed.

(** ** Cleanup *)

Lemma removeTempDirectories_spec ds st :
  wp (Sharp.removeTempDirectories pf handle ds) st (fun r st' =>
    r = Ok tt /\ Env st st' /\ (unhindered st st' -> forall t, t ∈ ds -> t ∉ dirs st')).
Proof.
  revert st. induction ds as [|d ds IH]; intros st.
  - cbn [Sharp.removeTempDirectories]. wp_simpl.
    split; [reflexivity|]. split; [apply Env_refl|]. intros _ t Ht. by apply elem_of_nil in Ht.
  - cbn [Sharp.removeTempDirectories]. wp_simpl.
    eapply wp_mono; [apply fs_rm_spec|]. intros r st1 (E1 & Hd).
    assert (G : wp (Sharp.removeTempDirectories pf handle ds) st1 (fun r st' =>
              r = Ok tt /\ Env st st' /\
              (unhindered st st' -> forall t, t ∈ d :: ds -> t ∉ dirs st'))).
    { eapply wp_mono; [apply IH|]. cbn beta. intros r' st2 (-> & E2 & Hds).
      split; [reflexivity|]. split; [eauto using Env_trans|].
      intros H. destruct (unhindered_split _ _ _ E1 E2 H) as [H1 H2].
      intros t Ht. apply elem_of_cons in Ht as [->|Ht]; [|by apply Hds].
      destruct r as [[]|message]; [|destruct (Hd H1)].
      intros Hin. apply Hd. by apply (env_dirs _ _ E2). }
    destruct r as [[]|message]; wp_simpl; exact G.
Qed.

Lemma performCleanup_spec st :
  wp (Sharp.performCleanup pf handle) st (fun r st' =>
    r = Ok tt /\ Env st st' /\ (unhindered st st' -> CleanedUp st')).
Proof.
  unfold Sharp.performCleanup. wp_simpl.
  eapply wp_mono; [apply removeTempDirectories_spec|]. cbn beta.
  intros r st1 (-> & E1 & Hds). wp_simpl.
  destruct (currentOutputPath st1) as [out|] eqn:Eo.
  - destruct (negb (jseqb out []) && (processedCount st1 =? 0)%Z) eqn:Ec.
    + wp_simpl. eapply wp_mono; [apply fs_rm_spec|]. cbn beta.
      intros r st2 (E2 & Hout).
      assert (G : Env st st2 /\ (unhindered st st2 -> CleanedUp st2)).
      { split; [eauto using Env_trans|].
        intros H. destruct (unhindered_split _ _ _ E1 E2 H) as [H1 H2]. split.
        - rewrite (env_temps _ _ E2). intros t Ht Hin.
          apply (Hds H1 t); [by rewrite <- (env_temps _ _ E1) | by apply (env_dirs _ _ E2)].
        - intros _ out' Ho _. rewrite (env_out _ _ E2), Eo in Ho. injection Ho as <-.
          destruct r as [[]|message]; [exact Hout | destruct (Hout H2)]. }
      destruct r as [[]|message]; wp_simpl; (split; [reflexivity | exact G]).
    + wp_simpl. split; [reflexivity|]. split; [exact E1|]. intros H. split.
      * intros t Ht. apply (Hds H). by rewrite <- (env_temps _ _ E1).
      * intros Hz out' Ho Hne. rewrite Eo in Ho. injection Ho as <-.
        rewrite Hz in Ec. cbn in Ec. rewrite andb_true_r in Ec.
        apply negb_false_iff in Ec. unfold jseqb in Ec. apply bool_decide_eq_true in Ec.
        contradiction.
  - wp_simpl. split; [reflexivity|]. split; [exact E1|]. intros H. split.
    + intros t Ht. apply (Hds H). by rewrite <- (env_temps _ _ E1).
    + intros _ out' Ho. rewrite Eo in Ho. discriminate Ho.
Qed.

Lemma CleanedUp_Cleared st : Inv [] st -> CleanedUp st -> Cleared st.
Proof.
  intros HI [Ht Ho] Hc _ p Hp Hd.
  destruct (inv_reg _ _ HI p Hp Hd) as [[Hr|Hr]|Hr].
  - apply (Ho (inv_count _ _ HI _ Hc) p Hr); [|exact Hd].
    intros ->. by apply (inv_out _ _ HI).
  - apply (Ht p Hr Hd).
  - by apply elem_of_nil in Hr.
Qed.

(** A cleanup establishes [Cleared], since [Cleared] speaks of the runs in
    which nothing was rejected. *)
Lemma cleanup_Cleared st st' :
  Inv [] st' -> Env st st' -> (unhindered st st' -> CleanedUp st') -> Cleared st'.
Proof.
  intros HI E C Hc Hr. apply CleanedUp_Cleared; [exact HI | | exact Hc | exact Hr].
  apply C. unfold unhindered. rewrite Hr. symmetry.
  apply (rejected_none _ _ (env_rejected _ _ E) Hr).
Qed.

Lemma CleanedUp_Env st st' : Env st st' -> CleanedUp st -> CleanedUp st'.
Proof.
  intros E [Ht Ho]. split.
  - rewrite (env_temps _ _ E). intros t Hin Hd. apply (Ht t Hin). by apply (env_dirs _ _ E).
  - rewrite (env_count _ _ E), (env_out _ _ E). intros Hz out Hout Hne Hd.
    apply (Ho Hz out Hout Hne). by apply (env_dirs _ _ E).
Qed.

Lemma flagged_Inv pend st : Inv pend st -> Inv pend (flagged st).
Proof.
  intros [H1 H2 H3 H4]. split; try assumption; unfold flagged; cbn.
  - reflexivity.
  - destruct (cancelledAt st) as [m|]; intros n [= <-]; [by apply H2 | reflexivity].
Qed.

Lemma cancel_run st :
  exists st', Sharp.cancel pf handle st = (Ok tt, st') /\
              Env (flagged st) st' /\ (unhindered st st' -> CleanedUp st').
Proof.
  pose proof (performCleanup_spec (flagged st)) as H. unfold wp in H.
  unfold Sharp.cancel. rewrite bind_run. cbn [modify]. fold (flagged st).
  destruct (Sharp.performCleanup pf handle (flagged st)) as [r st'].
  cbn in H. destruct H as (-> & E & C). exists st'. auto.
Qed.

(** [cancel()] as a whole is a step of the environment. *)
Lemma cancel_Env st : Env st (Sharp.cancel pf handle st).2.
Proof.
  destruct (cancel_run st) as (st' & -> & E & C). cbn [snd].
  destruct E as [E1 E2 E3 E4 E5 E9 E6 E7 E8].
  split; try assumption.
  - intros _. by apply E6.
  - intros pend HI. by apply E7, flagged_Inv.
  - intros HI _. apply (cleanup_Cleared (flagged st)); [by apply E7, flagged_Inv | | exact C].
    by split.
Qed.

End Stage1.

Lemma quiet_benign : Benign Sharp.quiet.
Proof. intros e st. apply Env_refl. Qed.

Lemma onEvent_benign pf : Benign (Sharp.onEvent pf).
Proof.
  intros [|rejections|p] st; cbn [Sharp.onEvent]; [| |apply rm_rf_Env].
  - eapply Env_trans; [|eapply Env_trans; [apply (cancel_Env pf Sharp.quiet quiet_benign)|]].
    + instantiate (1 := set_script [] st). env_frame.
    + env_frame.
  - eapply Env_trans; [|eapply Env_trans; [apply (cancel_Env pf Sharp.quiet quiet_benign)|]].
    + instantiate (1 := set_script (Sharp.hindrances rejections) st). env_frame.
    + env_frame.
Qed.

(** ** The sequential orchestrator under a benign handler *)

Ltac wp_apply lem := eapply wp_mono; [apply lem|]; cbn beta.

Ltac wp_case :=
  match goal with
  | |- context [if ?b then _ else _] => destruct b eqn:?
  end.

Section Stage2.

Variable pf : platform.
Variable handle : Ext -> State -> State.
Hypothesis handle_benign : Benign handle.

Lemma updateProgress_Env current total percent message st :
  wp (Sharp.updateProgress current total percent message) st (fun r st' =>
    r = Ok tt /\ Env st st').
Proof.
  unfold Sharp.updateProgress. wp_simpl. wp_case; wp_simpl; (split; [reflexivity|]).
  - env_frame.
  - apply Env_refl.
Qed.

Lemma updateProcessingStats_Env t st :
  wp (Sharp.updateProcessingStats t) st (fun r st' => r = Ok tt /\ Env st st').
Proof.
  unfold Sharp.updateProcessingStats. wp_simpl. split; [reflexivity|].
  wp_case; env_frame.
Qed.

Lemma calculateETA_pure count st :
  wp (Sharp.calculateETA count) st (fun r st' => (exists s, r = Ok s) /\ st' = st).
Proof.
  unfold Sharp.calculateETA. wp_simpl. repeat wp_case; wp_simpl; eauto.
Qed.

Lemma scanEntries_Env visits imageFiles st :
  wp (Sharp.scanEntries handle visits imageFiles) st (fun _ st' => Env st st').
Proof.
  revert imageFiles st. induction visits as [|visit rest IH]; intros imageFiles st;
    cbn [Sharp.scanEntries]; wp_simpl; [apply Env_refl|].
  destruct (isCancelled st) eqn:Ec; wp_simpl; [apply Env_refl|].
  destruct visit; [apply IH | apply IH |]. wp_simpl. rewrite Ec. wp_simpl.
  wp_apply (fs_readdir_sub_Env handle handle_benign). intros [[]|message] st1 E1; wp_simpl;
    [|exact E1].
  wp_apply IH. intros r st2 E2. eauto using Env_trans.
Qed.

Lemma scanForImages_Env folderPath st :
  wp (Sharp.scanForImages handle folderPath) st (fun _ st' => Env st st').
Proof.
  unfold Sharp.scanForImages. rewrite wp_tryCatch.
  eapply wp_mono with (Q := fun _ st' => Env st st').
  - wp_simpl. destruct (isCancelled st) eqn:Ec; wp_simpl; [apply Env_refl|].
    wp_apply (fs_readdir_Env handle handle_benign). intros [visits|message] st1 E1; wp_simpl;
      [|exact E1].
    wp_apply scanEntries_Env. intros r st2 E2. eauto using Env_trans.
  - cbn beta. intros [found|message] st1 E1; [exact E1|]. wp_simpl. wp_case; wp_simpl; exact E1.
Qed.

Lemma measureInputLoop_Env imageFiles inputData st :
  wp (Sharp.measureInputLoop handle imageFiles inputData) st (fun r st' =>
    (exists d, r = Ok d) /\ Env st st').
Proof.
  revert inputData st. induction imageFiles as [|f rest IH]; intros inputData st.
  - cbn [Sharp.measureInputLoop]. wp_simpl. split; [eauto | apply Env_refl].
  - cbn [Sharp.measureInputLoop]. wp_simpl.
    wp_apply (fs_stat_Env handle handle_benign). intros [stats|message] st1 E1; wp_simpl;
      (wp_apply IH; intros r st2 [Hr E2]; split; [exact Hr | eauto using Env_trans]).
Qed.

Lemma measureInputSizes_Env imageFiles st :
  wp (Sharp.measureInputSizes handle imageFiles) st (fun r st' =>
    (exists d, r = Ok d) /\ Env st st').
Proof.
  unfold Sharp.measureInputSizes. wp_simpl.
  wp_apply measureInputLoop_Env. intros r st1 [[d ->] E1]. wp_simpl.
  split; [eauto|]. eapply Env_trans; [exact E1|]. env_frame.
Qed.

Lemma measureOutputLoop_Env outputPath processingResults outputData st :
  wp (Sharp.measureOutputLoop pf handle outputPath processingResults outputData) st
    (fun r st' => (exists d, r = Ok d) /\ Env st st').
Proof.
  revert outputData st.
  induction processingResults as [|[original compressed finalPath|original error] rest IH];
    intros outputData st.
  - cbn [Sharp.measureOutputLoop]. wp_simpl. split; [eauto | apply Env_refl].
  - cbn [Sharp.measureOutputLoop]. wp_simpl.
    wp_apply (fs_stat_Env handle handle_benign). intros [stats|message] st1 E1; wp_simpl;
      (wp_apply IH; intros r st2 [Hr E2]; split; [exact Hr | eauto using Env_trans]).
  - cbn [Sharp.measureOutputLoop]. apply IH.
Qed.

Lemma measureOutputSizes_Env outputPath processingResults st :
  wp (Sharp.measureOutputSizes pf handle outputPath processingResults) st (fun r st' =>
    (exists d, r = Ok d) /\ Env st st').
Proof.
  unfold Sharp.measureOutputSizes. wp_simpl.
  wp_apply measureOutputLoop_Env. intros r st1 [[d ->] E1]. wp_simpl.
  split; [eauto|]. eapply Env_trans; [exact E1|]. env_frame.
Qed.

Lemma processSharpClean_spec file outputPath st :
  wp (Sharp.processSharpClean pf handle file outputPath) st (fun r st' =>
    Env st st' /\
    forall a, r = Ok a -> isCancelled st' = false /\ originalOf a = name file).
Proof.
  unfold Sharp.processSharpClean. wp_simpl. destruct (isCancelled st) eqn:Ec.
  - wp_simpl. rewrite Ec. cbn [orb]. wp_simpl. split; [apply Env_refl | discriminate].
  - wp_simpl. wp_apply (sharp_toFile_Env handle handle_benign).
    intros [[]|message] st1 E1.
    + wp_simpl. destruct (isCancelled st1) eqn:Ec1.
      * wp_simpl. wp_apply (fs_unlink_Env handle handle_benign).
        intros [[]|message] st2 E2; wp_simpl;
          rewrite (env_flag _ _ E2 Ec1); cbn [orb]; wp_simpl;
          (split; [eauto using Env_trans | discriminate]).
      * wp_simpl. split; [exact E1|]. intros a [= <-]. split; [exact Ec1 | reflexivity].
    + wp_simpl. repeat wp_case; wp_simpl; (split; [exact E1 | discriminate]).
Qed.

Lemma processSharpSanitized_spec file outputPath tempDir st :
  wp (Sharp.processSharpSanitized pf handle file outputPath tempDir) st (fun r st' =>
    Env st st' /\
    forall a, r = Ok a -> isCancelled st' = false /\ originalOf a = name file).
Proof.
  unfold Sharp.processSharpSanitized. wp_simpl. destruct (isCancelled st) eqn:Ec.
  - wp_simpl. rewrite Ec. cbn [orb]. wp_simpl. split; [apply Env_refl | discriminate].
  - wp_simpl. wp_apply (fs_copyFile_Env handle handle_benign).
    intros [[]|message] st1 E1.
    2:{ wp_simpl. repeat wp_case; wp_simpl; (split; [exact E1 | discriminate]). }
    wp_simpl. wp_apply (sharp_toFile_Env handle handle_benign).
    intros [[]|message] st2 E2.
    2:{ wp_simpl. repeat wp_case; wp_simpl; (split; [eauto using Env_trans | discriminate]). }
    wp_simpl. wp_apply (fs_unlink_Env handle handle_benign).
    assert (E02 : Env st st2) by eauto using Env_trans.
    assert (tail : forall st3, Env st2 st3 ->
      wp (c ← gets isCancelled;
          if c : bool then
            tryCatch (fs_unlink handle
                        (join pf [outputPath;
                                  basename pf (name file) (extname pf (name file)) ++ js ".webp"]))
              (fun _ => mret tt);;
            throw (js "Processing cancelled after sanitized Sharp processing")
          else mret (Success (name file)
                       (basename pf (name file) (extname pf (name file)) ++ js ".webp")
                       (Some (join pf [outputPath;
                                       basename pf (name file) (extname pf (name file)) ++
                                       js ".webp"]))))
         st3
         (fun r st' =>
            match r with
            | Ok a => Env st st' /\
                      (forall a0, Ok a = Ok a0 -> isCancelled st' = false /\ originalOf a0 = name file)
            | Throw e =>
                wp (c ← gets isCancelled;
                    if c || includes e (js "cancelled") then throw e
                    else throw (js "Sharp sanitized processing failed for " ++ name file ++
                                js ": " ++ e))
                  st'
                  (fun r st'' => Env st st'' /\
                     (forall a, r = Ok a -> isCancelled st'' = false /\ originalOf a = name file))
            end)).
    { intros st3 E3. wp_simpl. destruct (isCancelled st3) eqn:Ec3.
      - wp_simpl. wp_apply (fs_unlink_Env handle handle_benign).
        intros [[]|message] st4 E4; wp_simpl;
          rewrite (env_flag _ _ E4 Ec3); cbn [orb]; wp_simpl;
          (split; [eauto using Env_trans | discriminate]).
      - wp_simpl. split; [eauto using Env_trans|].
        intros a [= <-]. split; [exact Ec3 | reflexivity]. }
    intros [[]|message] st3 E3; wp_simpl; by apply tail.
Qed.

End Stage2.

Lemma Inv_recount pend st st' :
  isCancelled st = false ->
  isCancelled st' = isCancelled st -> cancelledAt st' = cancelledAt st ->
  created st' = created st -> currentOutputPath st' = currentOutputPath st ->
  tempDirectories st' = tempDirectories st -> dirs st' ⊆ dirs st ->
  Inv pend st -> Inv pend st'.
Proof.
  intros Hc E1 E2 E4 E5 E6 E7 [H1 H2 H3 H4].
  assert (Hn : cancelledAt st = None).
  { destruct (cancelledAt st) eqn:E; [|reflexivity].
    rewrite H1 in Hc by discriminate. discriminate Hc. }
  split; unfold registered; rewrite ?E1, ?E2, ?E4, ?E5, ?E6; auto.
  - rewrite Hn. discriminate.
  - intros q Hq Hd. apply (H3 q Hq). by apply E7.
Qed.

Lemma stepPost_Env file results st st1 r st' :
  Env st st1 -> stepPost file results st1 r st' -> stepPost file results st r st'.
Proof.
  intros E (H1 & H2 & H3). split; [|split].
  - rewrite H1. apply (env_out _ _ E).
  - intros HI. apply H2, (env_inv _ _ E), HI.
  - destruct r as [[c rs|c rs]|]; [| |exact H3]; rewrite <- (env_count _ _ E); exact H3.
Qed.

Lemma stepPost_break file results st tdc :
  stepPost file results st (Ok (Sharp.Break tdc results)) st.
Proof. split; [reflexivity|]. split; [auto|]. split; reflexivity. Qed.

Section Stage3.

Variable pf : platform.
Variable handle : Ext -> State -> State.
Hypothesis handle_benign : Benign handle.

Lemma onFileError_spec file tdc results message st :
  wp (Sharp.onFileError file tdc results message) st (stepPost file results st).
Proof.
  unfold Sharp.onFileError. wp_simpl. destruct (isCancelled st) eqn:Ec; cbn [orb].
  - wp_simpl. apply stepPost_break.
  - wp_case; wp_simpl.
    + apply stepPost_break.
    + split; [reflexivity|]. split.
      * apply Inv_recount; first [reflexivity | exact Ec | set_solver].
      * split; [reflexivity|]. eexists. split; reflexivity.
Qed.

Lemma recordResult_spec file count start tdc results result st :
  isCancelled st = false -> originalOf result = name file ->
  wp (Sharp.recordResult file count start tdc results result) st
    (stepPost file results st).
Proof.
  intros Hc Ho. unfold Sharp.recordResult. wp_simpl.
  unfold Sharp.updateProcessingStats. wp_simpl.
  set (st1 := if (processedCount st =? 0)%Z then _ else _).
  assert (F : isCancelled st1 = isCancelled st /\ cancelledAt st1 = cancelledAt st /\
              created st1 = created st /\ currentOutputPath st1 = currentOutputPath st /\
              tempDirectories st1 = tempDirectories st /\ dirs st1 = dirs st /\
              processedCount st1 = processedCount st).
  { unfold st1. destruct (processedCount st =? 0)%Z; repeat split; reflexivity. }
  destruct F as (F1 & F2 & F3 & F4 & F5 & F6 & F7).
  set (st2 := set_processedCount (processedCount st1 + 1) st1).
  wp_apply calculateETA_pure. intros r st3 [[s ->] ->]. wp_simpl.
  wp_apply updateProgress_Env. intros r st4 [-> E4]. wp_simpl.
  split; [|split; [|split]].
  - rewrite (env_out _ _ E4). exact F4.
  - intros HI. apply (env_inv _ _ E4).
    apply (Inv_recount [] st st2 Hc);
      [exact F1 | exact F2 | exact F3 | exact F4 | exact F5
      | unfold st2; cbn; rewrite F6; set_solver | exact HI].
  - rewrite (env_count _ _ E4). unfold st2. cbn. by rewrite F7.
  - eauto.
Qed.

Lemma preparePost_error file tdc results message st st1 :
  Env st st1 ->
  wp (o ← Sharp.onFileError file tdc results message; mret (inl o)) st1
    (preparePost file results st).
Proof.
  intros E. wp_simpl. wp_apply onFileError_spec. intros [o|e] st2 H; [|destruct H as (_ & _ & [])].
  wp_simpl. cbn. by apply (stepPost_Env file results st st1).
Qed.

Lemma pushed_Inv p st :
  Inv [p] st -> Inv [] (set_tempDirectories (tempDirectories st ++ [p]) st).
Proof.
  intros [H1 H2 H3 H4]. split; try assumption.
  unfold registered. cbn. intros q Hq Hd.
  destruct (H3 q Hq Hd) as [[Hr|Hr]|Hr].
  - left. by left.
  - left. right. apply elem_of_app. by left.
  - apply list_elem_of_singleton in Hr. subst q. left. right. apply elem_of_app. right. left.
Qed.

Lemma prepareFile_spec outputPath tempDir file tdc results st :
  wp (Sharp.prepareFile handle outputPath tempDir file tdc results) st
    (preparePost file results st).
Proof.
  unfold Sharp.prepareFile. wp_simpl. destruct (isCancelled st) eqn:Ec.
  - wp_simpl. cbn. apply stepPost_break.
  - wp_simpl. wp_apply (fs_access_Env handle handle_benign). intros [[]|e] st1 E1.
    2:{ rewrite wp_throw. by apply preparePost_error. }
    wp_simpl. destruct (Sharp.needsSanitization (name file)).
    2:{ wp_simpl. cbn. split; [apply (env_out _ _ E1)|].
        split; [apply (env_inv _ _ E1) | apply (env_count _ _ E1)]. }
    destruct tdc; cbn [negb].
    { wp_simpl. cbn. split; [apply (env_out _ _ E1)|].
      split; [apply (env_inv _ _ E1) | apply (env_count _ _ E1)]. }
    wp_simpl. wp_apply (fs_mkdir_spec handle handle_benign). intros [[]|e] st2 H.
    + destruct H as (st1' & E1' & E2). wp_simpl. cbn.
      split; [|split].
      * rewrite (env_out _ _ E2). cbn. rewrite (env_out _ _ E1'). apply (env_out _ _ E1).
      * intros HI. apply pushed_Inv, (env_inv _ _ E2), made_Inv, (env_inv _ _ E1'),
          (env_inv _ _ E1), HI.
      * rewrite (env_count _ _ E2). cbn. rewrite (env_count _ _ E1'). apply (env_count _ _ E1).
    + apply preparePost_error. eauto using Env_trans.
Qed.

Lemma convertFile_spec outputPath tempDir count file start tdc results st :
  wp (Sharp.convertFile pf handle outputPath tempDir count file start tdc results) st
    (stepPost file results st).
Proof.
  unfold Sharp.convertFile. wp_simpl.
  assert (H : forall (m : M ProcessingResult),
    wp m st (fun r st' => Env st st' /\
      forall a, r = Ok a -> isCancelled st' = false /\ originalOf a = name file) ->
    wp m st (fun r st' =>
      match r with
      | Ok a =>
          wp (Sharp.recordResult file count start tdc results a) st'
            (fun r st'' =>
               match r with
               | Ok a => stepPost file results st (Ok a) st''
               | Throw e => wp (Sharp.onFileError file tdc results e) st''
                              (stepPost file results st)
               end)
      | Throw e => wp (Sharp.onFileError file tdc results e) st' (stepPost file results st)
      end)).
  { intros m Hm. eapply wp_mono; [exact Hm|]. cbn beta. intros [a|e] st1 [E1 Ha].
    - destruct (Ha a eq_refl) as [Hc Ho].
      wp_apply (recordResult_spec file count start tdc results a st1 Hc Ho).
      intros [o|e] st2 Hp; [|destruct Hp as (_ & _ & [])].
      by apply (stepPost_Env file results st st1).
    - wp_apply onFileError_spec. intros r st2 Hp.
      by apply (stepPost_Env file results st st1). }
  destruct (Sharp.needsSanitization (name file)); apply H.
  - apply (processSharpSanitized_spec pf handle handle_benign).
  - apply (processSharpClean_spec pf handle handle_benign).
Qed.

Lemma processFile_spec outputPath tempDir count file tdc results st :
  wp (Sharp.processFile pf handle outputPath tempDir count file tdc results) st
    (stepPost file results st).
Proof.
  unfold Sharp.processFile. wp_simpl. destruct (isCancelled st) eqn:Ec.
  - wp_simpl. apply stepPost_break.
  - wp_simpl. wp_apply prepareFile_spec. intros [[o|tdc']|e] st1 H; cbn in H; [| |destruct H].
    + wp_simpl. exact H.
    + destruct H as (H1 & H2 & H3).
      wp_apply convertFile_spec. intros r st2 (G1 & G2 & G3).
      split; [congruence|]. split; [auto|].
      destruct r as [[c rs|c rs]|]; [| |exact G3]; rewrite <- H3; exact G3.
Qed.

Lemma fileLoop_spec outputPath tempDir count imageFiles tdc results st :
  wp (Sharp.fileLoop pf handle outputPath tempDir count imageFiles tdc results) st
    (loopPost imageFiles results st).
Proof.
  revert tdc results st. induction imageFiles as [|file rest IH]; intros tdc results st.
  - cbn [Sharp.fileLoop]. wp_simpl. split; [reflexivity|]. split; [auto|].
    exists tdc, []. rewrite app_nil_r. cbn. repeat split; [lia | constructor].
  - cbn [Sharp.fileLoop]. wp_simpl. wp_apply processFile_spec.
    intros [[c rs|c rs]|e] st1 (H1 & H2 & H3); [| |destruct H3].
    + destruct H3 as (Hc & x & -> & Hx).
      wp_apply IH. intros r st2 (G1 & G2 & tdc' & added & -> & Gc & GF).
      split; [congruence|]. split; [auto|].
      exists tdc', (x :: added). rewrite <- app_assoc. cbn [app length firstn].
      repeat split; [lia | by constructor].
    + destruct H3 as (Hc & ->). wp_simpl.
      split; [exact H1|]. split; [exact H2|].
      exists c, []. rewrite app_nil_r. cbn. repeat split; [lia | constructor].
Qed.

End Stage3.

Lemma normalize_nonempty pf path : PathJoin.normalize pf path <> [].
Proof.
  unfold PathJoin.normalize. destruct path as [|c0 path]; [discriminate|].
  destruct (PathJoin.intercalate _ _) as [|b body].
  - destruct (isPathSeparator pf c0); [discriminate|].
    destruct (isPathSeparator pf _); discriminate.
  - destruct (isPathSeparator pf c0); discriminate.
Qed.

Lemma join_nonempty pf parts : PathJoin.join pf parts <> [].
Proof.
  unfold PathJoin.join. destruct (List.filter _ parts); [discriminate|].
  apply normalize_nonempty.
Qed.

Lemma not_cancelled_Cleared st : Inv [] st -> isCancelled st = false -> Cleared st.
Proof.
  intros HI Hc Hn. rewrite (inv_flag _ _ HI) in Hc; [discriminate Hc|].
  rewrite Hn. discriminate.
Qed.

Lemma unregistered_Inv p st :
  p ∉ dirs st -> Inv [] st ->
  Inv [] (set_tempDirectories
            (List.filter (fun dir => negb (jseqb dir p)) (tempDirectories st)) st).
Proof.
  intros Hp [H1 H2 H3 H4]. split; try assumption.
  unfold registered. cbn. intros q Hq Hd.
  destruct (H3 q Hq Hd) as [[Hr|Hr]|Hr]; [by left; left| |by apply elem_of_nil in Hr].
  left. right. apply list_elem_of_In, filter_In. split; [by apply list_elem_of_In|].
  apply negb_true_iff. unfold jseqb. apply bool_decide_eq_false. by intros ->.
Qed.

Lemma registered_output_Inv out st :
  out <> [] -> currentOutputPath st = None -> Inv [out] st ->
  Inv [] (set_currentOutputPath (Some out) st).
Proof.
  intros Hne Hn [H1 H2 H3 H4]. split; try assumption.
  - unfold registered. cbn. intros q Hq Hd.
    destruct (H3 q Hq Hd) as [[Hr|Hr]|Hr].
    + rewrite Hn in Hr. discriminate Hr.
    + left. by right.
    + apply list_elem_of_singleton in Hr. subst q. left. by left.
  - cbn. intros [= ->]. contradiction.
Qed.

Section Stage4.

Variable pf : platform.
Variable handle : Ext -> State -> State.
Hypothesis handle_benign : Benign handle.

Lemma processSharpSequential_spec imageFiles outputPath progressInterval st :
  wp (Sharp.processSharpSequential pf handle imageFiles outputPath progressInterval) st
    (fun r st' =>
       currentOutputPath st' = currentOutputPath st /\
       (Inv [] st -> Inv [] st') /\
       exists results,
         r = Ok results /\
         processedCount st' = (processedCount st + Z.of_nat (length results))%Z /\
         Forall2 (fun f x => originalOf x = name f)
                 (firstn (length results) imageFiles) results).
Proof.
  unfold Sharp.processSharpSequential, Sharp.getTempDirName. wp_simpl.
  set (st0 := set_processingStartTime _ st).
  assert (E0 : Env st st0) by (unfold st0; env_frame).
  match goal with |- wp (Sharp.fileLoop _ _ _ ?t _ _ _ _) _ _ => set (tempDir := t) end.
  wp_apply (fileLoop_spec pf handle handle_benign).
  intros r st1 (H1 & H2 & tdc & added & -> & Hc & HF). cbn [app] in *. wp_simpl.
  cbn [fst snd].
  assert (Base : currentOutputPath st1 = currentOutputPath st /\ (Inv [] st -> Inv [] st1) /\
                 processedCount st1 = (processedCount st + Z.of_nat (length added))%Z).
  { split; [exact H1|]. split; [|exact Hc]. intros HI. apply H2, (env_inv _ _ E0), HI. }
  destruct Base as (B1 & B2 & B3).
  destruct (tdc && negb (isCancelled st1)).
  - wp_simpl. wp_apply (fs_rm_spec pf handle handle_benign).
    intros [[]|message] st2 (E2 & Hgone); wp_simpl; (split; [|split]).
    + cbn. rewrite (env_out _ _ E2). exact B1.
    + intros HI. apply unregistered_Inv; [exact Hgone|]. apply (env_inv _ _ E2), B2, HI.
    + exists added. split; [reflexivity|]. split; [|exact HF].
      cbn. rewrite (env_count _ _ E2). exact B3.
    + rewrite (env_out _ _ E2). exact B1.
    + intros HI. apply (env_inv _ _ E2), B2, HI.
    + exists added. split; [reflexivity|]. split; [|exact HF].
      rewrite (env_count _ _ E2). exact B3.
  - wp_simpl. split; [exact B1|]. split; [exact B2|]. eauto.
Qed.

Lemma createOutputFolder_spec inputPath st :
  currentOutputPath st = None ->
  wp (Sharp.createOutputFolder pf handle inputPath) st (fun r st' =>
    (Inv [] st -> Inv [] st') /\ processedCount st' = processedCount st).
Proof.
  intros Hn. unfold Sharp.createOutputFolder. wp_simpl.
  destruct (isCancelled st); wp_simpl; [split; [auto | reflexivity]|].
  wp_apply (fs_stat_Env handle handle_benign). intros [stats|e] st1 E1.
  2:{ split; [apply (env_inv _ _ E1) | apply (env_count _ _ E1)]. }
  wp_simpl.
  match goal with |- wp (fs_access _ ?p) _ _ => set (base := p) end.
  assert (Hbase : base <> []) by (unfold base; destruct (st_isDirectory stats); apply join_nonempty).
  assert (tail : forall out st2, out <> [] -> Env st st2 ->
    wp (fs_mkdir handle out;;
        modify (set_currentOutputPath (Some out));;
        mret out) st2
      (fun r st' => (Inv [] st -> Inv [] st') /\ processedCount st' = processedCount st)).
  { intros out st2 Hout E2. wp_simpl.
    wp_apply (fs_mkdir_spec handle handle_benign). intros [[]|e] st3 H.
    - destruct H as (st2' & E2' & E3). wp_simpl. split.
      + intros HI. apply registered_output_Inv; [exact Hout| |].
        * rewrite (env_out _ _ E3). cbn. rewrite (env_out _ _ E2'), (env_out _ _ E2). exact Hn.
        * apply (env_inv _ _ E3), made_Inv, (env_inv _ _ E2'), (env_inv _ _ E2), HI.
      + cbn. rewrite (env_count _ _ E3). cbn.
        rewrite (env_count _ _ E2'). apply (env_count _ _ E2).
    - assert (E : Env st st3) by eauto using Env_trans.
      split; [apply (env_inv _ _ E) | apply (env_count _ _ E)]. }
  wp_apply (fs_access_Env handle handle_benign). intros [[]|e] st2 E2.
  - rewrite wp_bind, wp_get, wp_ret.
    apply tail; [|eauto using Env_trans]. destruct base; [contradiction | discriminate].
  - cbn beta. rewrite wp_ret. apply tail; [exact Hbase | eauto using Env_trans].
Qed.

Lemma calculateStats_pure st :
  wp Sharp.calculateStats st (fun _ st' => st' = st).
Proof. reflexivity. Qed.

(** The [catch] of [processImages]: whatever brought the run here, no
    directory of a run cancelled before its first file is left. *)
Lemma processImages_handler_spec message st :
  Inv [] st ->
  wp (modify (fun st => set_sizeAnalyzer (SizeAnalyzer.reset (sizeAnalyzer st)) st);;
      c ← gets isCancelled;
      (if c || includes message (js "cancelled")
       then Sharp.performCleanup pf handle else mret tt);;
      throw (js "Image processing failed: " ++ message)) st
    (fun (_ : Res Sharp.RunResult) st' => Cleared st').
Proof.
  intros HI. wp_simpl.
  set (st1 := set_sizeAnalyzer _ st).
  assert (HI1 : Inv [] st1) by (apply (Inv_frame [] st); first [reflexivity | set_solver | exact HI]).
  change (isCancelled st1) with (isCancelled st).
  destruct (isCancelled st || includes message (js "cancelled")) eqn:Ec.
  - wp_apply (performCleanup_spec pf handle handle_benign). intros r st2 (-> & E2 & C).
    wp_simpl. apply (cleanup_Cleared st1); [apply (env_inv _ _ E2), HI1 | exact E2 | exact C].
  - wp_simpl. apply orb_false_iff in Ec as [Ec _].
    by apply not_cancelled_Cleared.
Qed.

Lemma processImages_spec inputPath progressCallback st :
  created st = [] -> cancelledAt st = None ->
  wp (Sharp.processImages pf handle inputPath progressCallback) st
    (fun _ st' => Cleared st').
Proof.
  intros Hcr Hca. unfold Sharp.processImages, Sharp.processImagesTry, Sharp.startRun.
  rewrite wp_bind, wp_modify.
  set (st0 := set_tempDirectories _ _).
  assert (HI0 : Inv [] st0).
  { split; unfold st0; cbn.
    - rewrite Hca. congruence.
    - rewrite Hca. discriminate.
    - rewrite Hcr. intros p Hp. by apply elem_of_nil in Hp.
    - discriminate. }
  assert (Hout0 : currentOutputPath st0 = None) by reflexivity.
  clearbody st0. clear st Hcr Hca.
  (* every exit of the body with an exception goes through the handler *)
  match goal with |- wp (tryCatch _ ?h) _ _ => set (handler := h) end.
  assert (caught : forall message st1, Inv [] st1 ->
            wp (handler message) st1 (fun _ st' => Cleared st')).
  { intros message st1 HI1. by apply processImages_handler_spec. }
  clearbody handler. rewrite wp_tryCatch.
  wp_simpl. wp_apply updateProgress_Env. intros r st1 [-> E1]. wp_simpl.
  wp_apply (scanForImages_Env handle handle_benign). intros [imageFiles|e] st2 E2.
  2:{ apply caught, (env_inv _ _ E2), (env_inv _ _ E1), HI0. }
  assert (E02 : Env st0 st2) by eauto using Env_trans.
  wp_simpl. destruct (isCancelled st2); wp_simpl; [apply caught, (env_inv _ _ E02), HI0|].
  destruct (length imageFiles =? 0)%nat; wp_simpl; [apply caught, (env_inv _ _ E02), HI0|].
  wp_apply updateProgress_Env. intros r st3 [-> E3]. wp_simpl.
  wp_apply (measureInputSizes_Env handle handle_benign). intros r st4 [[d ->] E4].
  assert (E04 : Env st0 st4) by eauto using Env_trans.
  wp_simpl. destruct (isCancelled st4); wp_simpl; [apply caught, (env_inv _ _ E04), HI0|].
  wp_apply updateProgress_Env. intros r st5 [-> E5]. wp_simpl.
  assert (E05 : Env st0 st5) by eauto using Env_trans.
  assert (HI5 : Inv [] st5) by apply (env_inv _ _ E05), HI0.
  wp_apply (createOutputFolder_spec inputPath st5).
  { rewrite (env_out _ _ E05). exact Hout0. }
  intros [outputPath|e] st6 [H6 _]; [|apply caught, H6, HI5].
  wp_simpl. destruct (isCancelled st6); wp_simpl; [apply caught, H6, HI5|].
  wp_apply processSharpSequential_spec.
  intros r st7 (_ & H7 & results & -> & _).
  assert (HI7 : Inv [] st7) by apply H7, H6, HI5.
  wp_simpl. destruct (isCancelled st7) eqn:Ec7.
  - wp_simpl. wp_apply (performCleanup_spec pf handle handle_benign).
    intros r st8 (-> & E8 & _). wp_simpl. apply caught, (env_inv _ _ E8), HI7.
  - wp_simpl. wp_apply updateProgress_Env. intros r st8 [-> E8]. wp_simpl.
    wp_apply (measureOutputSizes_Env pf handle handle_benign). intros r st9 [[d' ->] E9].
    wp_simpl. wp_apply calculateStats_pure. intros [stats|e] st10 ->.
    + wp_simpl. apply (env_cleared _ _ E9); [apply (env_inv _ _ E8), HI7|].
      apply (env_cleared _ _ E8); [exact HI7|]. by apply not_cancelled_Cleared.
    + apply caught, (env_inv _ _ E9), (env_inv _ _ E8), HI7.
Qed.

End Stage4.

(** C6, with its condition. In a run of a fresh processor in which
    cancellation was requested before any file had completed (the counter
    stood at 0 when [cancel()] first ran) and in which [fs.rm] rejected no
    removal, every directory the run has made -- the new output directory
    and the staging directories -- is absent when the run ends. *)
Theorem cancelled_before_first_file_leaves_nothing (pf : platform)
    (dirs0 : gset jsstring) (files0 : gmap jsstring Z)
    (below0 : jsstring -> list Visit) (clock0 : Z) (isoNow0 randomDraw0 : jsstring)
    (script0 : list Tick) (inputPath : jsstring) (progressCallback : bool) :
  let st' := (Sharp.processImages pf (Sharp.onEvent pf) inputPath progressCallback
                (Sharp.newProcessor dirs0 files0 below0 clock0 isoNow0 randomDraw0
                   script0)).2 in
  cancelledAt st' = Some 0%Z ->
  rejected st' = [] ->
  forall p, p ∈ created st' -> p ∉ dirs st'.
Proof.
  intros st'.
  exact (processImages_spec pf (Sharp.onEvent pf) (onEvent_benign pf) inputPath
           progressCallback
           (Sharp.newProcessor dirs0 files0 below0 clock0 isoNow0 randomDraw0 script0)
           eq_refl eq_refl).
Qed.

(** C6, at a concrete run: cancellation arrives while the codec works on
    the first of two pictures; the counter stood at 0, the output directory
    had been made, no removal was rejected, and the directory is gone when
    the run ends. *)
Lemma cancelled_before_first_file_leaves_nothing_witness :
  let st' := (Sharp.processImages Posix (Sharp.onEvent Posix) (js "/photos") true
                (Sharp.newProcessor Examples.dirs0 Examples.files0 Examples.below0
                   Examples.clock0 Examples.isoNow0 Examples.randomDraw0
                   Examples.cancelledInFlight)).2 in
  cancelledAt st' = Some 0%Z /\ rejected st' = [] /\ Examples.outputDir ∈ created st' /\
  Examples.outputDir ∉ dirs st'.
Proof.
  intros st'.
  assert (Hc : cancelledAt st' = Some 0%Z) by (vm_compute; reflexivity).
  assert (Hr : rejected st' = []) by (vm_compute; reflexivity).
  assert (Hm : Examples.outputDir ∈ created st').
  { replace (created st') with [Examples.outputDir] by (vm_compute; reflexivity).
    apply list_elem_of_here. }
  split; [exact Hc|]. split; [exact Hr|]. split; [exact Hm|].
  exact (cancelled_before_first_file_leaves_nothing Posix Examples.dirs0 Examples.files0
           Examples.below0 Examples.clock0 Examples.isoNow0 Examples.randomDraw0
           Examples.cancelledInFlight (js "/photos") true Hc Hr Examples.outputDir Hm).
Defined.

(** C6 as stated does not hold: cancellation arrives while the codec works
    on the first of two pictures, so that no file has completed, but
    [fs.rm] rejects the removal of the output folder each time the cleanup
    attempts it. The rejections are caught and logged, the run ends as
    cancelled, and the output directory it made is still there. *)
Lemma rejected_removal_leaves_output_directory :
  (Examples.run Examples.fresh Examples.cancelledFolderBusy).1 =
    Throw (js "Image processing failed: Processing was cancelled by user") /\
  cancelledAt (Examples.run Examples.fresh Examples.cancelledFolderBusy).2 = Some 0%Z /\
  processedCount (Examples.run Examples.fresh Examples.cancelledFolderBusy).2 = 0%Z /\
  created (Examples.run Examples.fresh Examples.cancelledFolderBusy).2 = [Examples.outputDir] /\
  rejected (Examples.run Examples.fresh Examples.cancelledFolderBusy).2 =
    [Examples.outputDir; Examples.outputDir; Examples.outputDir] /\
  bool_decide (Examples.outputDir ∈ dirs (Examples.run Examples.fresh
                                            Examples.cancelledFolderBusy).2) = true.
Proof. repeat split; vm_compute; reflexivity. Qed.

(** ** The check of the output folder *)

Lemma await_run {A} handle (op : Tick -> M A) st :
  await handle op st =
  let (r, st3) := op (nextTick st) (resumed handle st) in
  (r, interfere handle (after (nextTick st)) st3).
Proof. reflexivity. Qed.

Lemma fs_access_absent handle p st :
  pathExists p (resumed handle st) = false ->
  fs_access handle p st =
  (Throw ENOENT, interfere handle (after (nextTick st)) (resumed handle st)).
Proof.
  intros H. unfold fs_access. rewrite await_run, bind_run. cbn [gets]. rewrite H. reflexivity.
Qed.

Lemma folder_error_reads_cancelled :
  includes (js "Output folder was removed - processing cancelled") (js "cancelled") = true.
Proof. vm_compute. reflexivity. Qed.

(** The loop's [catch] takes the error of the folder check for a
    cancellation, whatever the flag says. *)
Lemma onFileError_folder_error file tdc results st :
  Sharp.onFileError file tdc results
    (js "Output folder was removed - processing cancelled") st =
  (Ok (Sharp.Break tdc results), st).
Proof.
  unfold Sharp.onFileError. rewrite bind_run. cbn [gets].
  rewrite folder_error_reads_cancelled, orb_true_r. reflexivity.
Qed.

(** What the check of the output folder does to the loop. Before a file is
    touched, the existence of the output directory is checked. When the directory is absent at that
    check, the iteration ends in a break: no result is recorded for the
    file (no [Failure] either), neither it nor any later file is attempted,
    and the state is the one the check left behind. The error raised by the
    check reads "Output folder was removed - processing cancelled", and the
    loop's handler treats an error with that text as it treats a
    cancellation. *)
Lemma output_folder_absent_stops_loop (pf : platform) (handle : Ext -> State -> State)
    (outputPath tempDir : jsstring) (count : Z) (file : ImageFile) (rest : list ImageFile)
    (tdc : bool) (results : list ProcessingResult) (st : State) :
  isCancelled st = false ->
  pathExists outputPath (resumed handle st) = false ->
  let st' := interfere handle (after (nextTick st)) (resumed handle st) in
  Sharp.processFile pf handle outputPath tempDir count file tdc results st =
    (Ok (Sharp.Break tdc results), st') /\
  Sharp.fileLoop pf handle outputPath tempDir count (file :: rest) tdc results st =
    (Ok (tdc, results), st') /\
  forall s, Sharp.onFileError file tdc results
              (js "Output folder was removed - processing cancelled") s =
            (Ok (Sharp.Break tdc results), s).
Proof.
  intros Hc Habs st'.
  assert (P : Sharp.prepareFile handle outputPath tempDir file tdc results st =
              (Ok (inl (Sharp.Break tdc results)), st')).
  { unfold Sharp.prepareFile. rewrite tryCatch_run, bind_run. cbn [gets]. rewrite Hc.
    rewrite bind_run, tryCatch_run, (fs_access_absent handle outputPath st Habs).
    cbn [throw]. fold st'. rewrite bind_run, onFileError_folder_error. reflexivity. }
  assert (F : Sharp.processFile pf handle outputPath tempDir count file tdc results st =
              (Ok (Sharp.Break tdc results), st')).
  { unfold Sharp.processFile. rewrite bind_run. cbn [gets]. rewrite Hc.
    rewrite bind_run. cbn [gets]. rewrite bind_run, P. reflexivity. }
  split; [exact F|]. split; [|intros s; apply onFileError_folder_error].
  cbn [Sharp.fileLoop]. rewrite bind_run, F. reflexivity.
Qed.

(** At a concrete state: the output folder is removed while the first of
    two pictures waits for its check; the loop ends with no result. *)
Lemma output_folder_absent_stops_loop_witness :
  isCancelled (Examples.underway [Examples.struck (FolderRemoved Examples.outputDir)]) = false /\
  pathExists Examples.outputDir
    (resumed (Sharp.onEvent Posix)
       (Examples.underway [Examples.struck (FolderRemoved Examples.outputDir)])) = false /\
  (Sharp.fileLoop Posix (Sharp.onEvent Posix) Examples.outputDir Examples.stagingDir 2
     [Examples.photo "a.png"; Examples.photo "b.png"] false []
     (Examples.underway [Examples.struck (FolderRemoved Examples.outputDir)])).1 =
  Ok (false, []).
Proof.
  assert (Hc : isCancelled
                 (Examples.underway [Examples.struck (FolderRemoved Examples.outputDir)]) = false)
    by reflexivity.
  assert (Ha : pathExists Examples.outputDir
                 (resumed (Sharp.onEvent Posix)
                    (Examples.underway [Examples.struck (FolderRemoved Examples.outputDir)]))
               = false)
    by (vm_compute; reflexivity).
  split; [exact Hc|]. split; [exact Ha|].
  destruct (output_folder_absent_stops_loop Posix (Sharp.onEvent Posix) Examples.outputDir
              Examples.stagingDir 2 (Examples.photo "a.png") [Examples.photo "b.png"] false []
              _ Hc Ha) as (_ & F & _).
  rewrite F. reflexivity.
Defined.

(** C3: the code misses what it attempts. The user removes the output
    folder while the second of two pictures waits for its check. The check
    throws "Output folder was removed - processing cancelled" to stop the
    run, but the loop's [catch] takes that text for a cancellation and
    breaks, and [processImages], whose flag is down, does not abort: it
    returns normally, with one result for two files, and the processor is
    not cancelled. *)
Lemma output_folder_removed_run_returns_normally :
  exists r,
    (Examples.run Examples.fresh Examples.folderRemovedBeforeSecond).1 = Ok r /\
    Sharp.results r =
      [Success (js "a.png") (js "a.webp") (Some (js "/photos_compressed/a.webp"))] /\
    Sharp.totalFiles r = 2%Z /\ Sharp.processedFiles r = 1%Z /\
    isCancelled (Examples.run Examples.fresh Examples.folderRemovedBeforeSecond).2 = false /\
    cancelledAt (Examples.run Examples.fresh Examples.folderRemovedBeforeSecond).2 = None /\
    pathExists Examples.outputDir
      (Examples.run Examples.fresh Examples.folderRemovedBeforeSecond).2 = false.
Proof.
  eexists. split; [vm_compute; reflexivity|]. vm_compute. repeat split.
Qed.

(** ** What [cancel()] keeps *)

Lemma interfere_quiet events st : interfere Sharp.quiet events st = st.
Proof. induction events as [|e events IH]; [reflexivity | exact IH]. Qed.

Lemma fs_rm_quiet_run pf p st :
  fs_rm pf Sharp.quiet p st =
  match failure (nextTick st) with
  | Some message =>
      (Throw message,
       set_rejected (rejected (resumed Sharp.quiet st) ++ [p]) (resumed Sharp.quiet st))
  | None => (Ok tt, rm_rf pf p (resumed Sharp.quiet st))
  end.
Proof.
  unfold fs_rm. rewrite await_run. destruct (failure (nextTick st)).
  - rewrite bind_run. cbn [modify throw]. by rewrite interfere_quiet.
  - cbn [modify]. by rewrite interfere_quiet.
Qed.

Lemma resumed_quiet_dirs st : dirs (resumed Sharp.quiet st) = dirs st.
Proof. unfold resumed. by rewrite interfere_quiet. Qed.

Lemma rm_rf_dirs pf p st :
  dirs (rm_rf pf p st) = filter (fun q => under pf p q = false) (dirs st).
Proof. reflexivity. Qed.

Lemma fs_rm_quiet_keeps pf p out st :
  under pf p out = false -> out ∈ dirs st ->
  wp (fs_rm pf Sharp.quiet p) st (fun _ st' => out ∈ dirs st').
Proof.
  intros Hu Hin. unfold wp. rewrite fs_rm_quiet_run. destruct (failure (nextTick st)).
  - change (out ∈ dirs (resumed Sharp.quiet st)). by rewrite resumed_quiet_dirs.
  - cbn [snd]. rewrite rm_rf_dirs.
    apply elem_of_filter. split; [exact Hu|]. by rewrite resumed_quiet_dirs.
Qed.

(** With no tick of its own left to meet, a removal is done. *)
Lemma fs_rm_idle pf p st :
  script st = [] ->
  wp (fs_rm pf Sharp.quiet p) st (fun r st' =>
    r = Ok tt /\ script st' = [] /\ unhindered st st').
Proof.
  intros Hs. unfold wp. rewrite fs_rm_quiet_run. unfold nextTick, resumed, nextTick.
  rewrite Hs. cbn. done.
Qed.

Lemma wp_conj {A} (m : M A) st (Q1 Q2 : Res A -> State -> Prop) :
  wp m st Q1 -> wp m st Q2 -> wp m st (fun r st' => Q1 r st' /\ Q2 r st').
Proof. unfold wp. auto. Qed.

Lemma removeTempDirectories_keeps pf out ds st :
  (forall t, t ∈ ds -> under pf t out = false) -> out ∈ dirs st ->
  wp (Sharp.removeTempDirectories pf Sharp.quiet ds) st (fun _ st' => out ∈ dirs st').
Proof.
  revert st. induction ds as [|d ds IH]; intros st Hds Hin.
  - exact Hin.
  - cbn [Sharp.removeTempDirectories]. wp_simpl.
    eapply wp_mono.
    { apply wp_conj; [apply (fs_rm_spec pf Sharp.quiet quiet_benign)|].
      apply (fs_rm_quiet_keeps pf d out); [apply Hds; left | exact Hin]. }
    cbn beta. intros r st1 [_ Hin1].
    assert (G : wp (Sharp.removeTempDirectories pf Sharp.quiet ds) st1
                  (fun _ st' => out ∈ dirs st')).
    { apply IH; [|exact Hin1]. intros t Ht. apply Hds. by right. }
    destruct r as [[]|message]; wp_simpl; exact G.
Qed.

Lemma removeTempDirectories_idle pf ds st :
  script st = [] ->
  wp (Sharp.removeTempDirectories pf Sharp.quiet ds) st (fun _ st' =>
    script st' = [] /\ unhindered st st').
Proof.
  revert st. induction ds as [|d ds IH]; intros st Hs.
  - cbn [Sharp.removeTempDirectories]. wp_simpl. done.
  - cbn [Sharp.removeTempDirectories]. wp_simpl.
    wp_apply (fs_rm_idle pf d st Hs). intros r st1 (-> & Hs1 & H1). wp_simpl.
    wp_apply (IH st1 Hs1). intros r st2 [Hs2 H2]. split; [exact Hs2|].
    unfold unhindered in *. congruence.
Qed.

Lemma performCleanup_idle pf st :
  script st = [] ->
  wp (Sharp.performCleanup pf Sharp.quiet) st (fun _ st' => unhindered st st').
Proof.
  intros Hs. unfold Sharp.performCleanup. wp_simpl.
  wp_apply (removeTempDirectories_idle pf (tempDirectories st) st Hs).
  intros r st1 [Hs1 H1].
  assert (G : wp (st ← get;
                  match currentOutputPath st with
                  | Some out =>
                      if negb (jseqb out []) && (processedCount st =? 0)%Z
                      then tryCatch (fs_rm pf Sharp.quiet out) (fun _ => mret tt)
                      else mret tt
                  | None => mret tt
                  end) st1 (fun r st' => r = Ok tt /\ unhindered st st')).
  { wp_simpl. destruct (currentOutputPath st1) as [out|]; [|wp_simpl; done].
    destruct (negb (jseqb out []) && (processedCount st1 =? 0)%Z); [|wp_simpl; done].
    wp_simpl. wp_apply (fs_rm_idle pf out st1 Hs1). intros r' st2 (-> & _ & H2).
    split; [reflexivity|]. unfold unhindered in *. congruence. }
  destruct r as [[]|message].
  - eapply wp_mono; [exact G|]. cbn beta. by intros r' st2 [-> H2].
  - wp_simpl. exact H1.
Qed.

Lemma performCleanup_keeps pf out st :
  processedCount st <> 0%Z -> currentOutputPath st = Some out ->
  (forall t, t ∈ tempDirectories st -> under pf t out = false) -> out ∈ dirs st ->
  wp (Sharp.performCleanup pf Sharp.quiet) st (fun _ st' => out ∈ dirs st').
Proof.
  intros Hn Ho Hts Hin. unfold Sharp.performCleanup. wp_simpl.
  eapply wp_mono.
  { apply wp_conj; [apply (removeTempDirectories_spec pf Sharp.quiet quiet_benign)|].
    apply (removeTempDirectories_keeps pf out); [exact Hts | exact Hin]. }
  cbn beta. intros r st1 [(-> & E1 & _) Hin1]. wp_simpl.
  rewrite (env_out _ _ E1), Ho, (env_count _ _ E1).
  replace (processedCount st =? 0)%Z with false by (symmetry; by apply Z.eqb_neq).
  rewrite andb_false_r. wp_simpl. exact Hin1.
Qed.

(** With a counter that is not zero, [cancel()] leaves the output directory
    where it is. *)
Lemma cancel_keeps pf out st :
  processedCount st <> 0%Z -> currentOutputPath st = Some out ->
  (forall t, t ∈ tempDirectories st -> under pf t out = false) -> out ∈ dirs st ->
  out ∈ dirs (Sharp.onEvent pf CancelRequested st).
Proof.
  intros Hn Ho Hts Hin. cbn [Sharp.onEvent].
  change (out ∈ dirs (Sharp.cancel pf Sharp.quiet (set_script [] st)).2).
  unfold Sharp.cancel. rewrite bind_run. cbn [modify].
  by apply (performCleanup_keeps pf out).
Qed.

(** With the counter at zero, [cancel()] removes it. *)
Lemma cancel_removes pf out st :
  processedCount st = 0%Z -> currentOutputPath st = Some out -> out <> [] ->
  out ∉ dirs (Sharp.onEvent pf CancelRequested st).
Proof.
  intros Hz Ho Hne. cbn [Sharp.onEvent].
  change (out ∉ dirs (Sharp.cancel pf Sharp.quiet (set_script [] st)).2).
  pose proof (performCleanup_idle pf (flagged (set_script [] st)) eq_refl) as Hi.
  unfold wp in Hi.
  destruct (cancel_run pf Sharp.quiet quiet_benign (set_script [] st)) as (st' & R & E & C).
  unfold Sharp.cancel in R. rewrite bind_run in R. cbn [modify] in R.
  fold (flagged (set_script [] st)) in R. unfold Sharp.cancel. rewrite bind_run. cbn [modify].
  fold (flagged (set_script [] st)). rewrite R in Hi |- *. cbn [snd] in Hi |- *.
  destruct (C Hi) as [_ C']. apply C'; [|by rewrite (env_out _ _ E)|exact Hne].
  by rewrite (env_count _ _ E).
Qed.



(** The same in a whole run: the first picture fails, cancellation arrives
    before the second is converted. The run ends as cancelled, the output
    folder is still there, and no file lies below it. *)
Lemma failure_then_cancel_run :
  (Examples.run Examples.fresh Examples.failureThenCancel).1 =
    Throw (js "Image processing failed: Processing was cancelled by user") /\
  cancelledAt (Examples.run Examples.fresh Examples.failureThenCancel).2 = Some 1%Z /\
  pathExists Examples.outputDir (Examples.run Examples.fresh Examples.failureThenCancel).2
    = true /\
  forallb (fun kv : jsstring * Z => negb (under Posix Examples.outputDir kv.1))
    (map_to_list (files (Examples.run Examples.fresh Examples.failureThenCancel).2)) = true.
Proof. vm_compute. repeat split. Qed.

(** ** One result per file *)

Lemma originals_of_scan (scanned : list ImageFile) (results : list ProcessingResult) :
  Forall2 (fun f x => originalOf x = name f) scanned results ->
  map originalOf results = map name scanned.
Proof. induction 1 as [|f x fs xs Hx F IH]; [reflexivity|]. cbn. by rewrite Hx, IH. Qed.


(** C1 fails on this run. The folder holds [order_cancelled.png], which the
    codec cannot decode, and [b.png]; nobody cancels and nothing is
    removed. The error for the first file is worded "Unsupported format in
    order_cancelled.png"; the loop's handler finds "cancelled" in it and
    breaks. The run returns normally with no result at all for its two
    files, and the processor is not cancelled. When the first file is
    called [a.png] the same run yields a [Failure] and a [Success]. *)
Theorem file_named_cancelled_ends_run_early :
  (exists r,
     (Examples.run Examples.fresh1 Examples.firstFileCorrupt).1 = Ok r /\
     Sharp.totalFiles r = 2%Z /\ Sharp.results r = []) /\
  isCancelled (Examples.run Examples.fresh1 Examples.firstFileCorrupt).2 = false /\
  cancelledAt (Examples.run Examples.fresh1 Examples.firstFileCorrupt).2 = None /\
  pathExists Examples.outputDir (Examples.run Examples.fresh1 Examples.firstFileCorrupt).2
    = true /\
  (exists r,
     (Examples.run Examples.fresh Examples.firstFileCorrupt).1 = Ok r /\
     Sharp.results r =
       [Failure (js "a.png") (js "Unsupported format in a.png");
        Success (js "b.png") (js "b.webp") (Some (js "/photos_compressed/b.webp"))]).
Proof.
  split; [eexists; split; [vm_compute; reflexivity | vm_compute; split; reflexivity]|].
  split; [vm_compute; reflexivity|]. split; [vm_compute; reflexivity|].
  split; [vm_compute; reflexivity|].
  eexists. split; vm_compute; reflexivity.
Qed.

(** ** Progress events after a cancellation *)

(** C7 fails in the imagemin variant: once [cancel()] has raised the flag,
    [updateProgress] still hands its event to the callback. *)
Theorem imagemin_updateProgress_ignores_cancellation (current total : Z) (percent : Q)
    (message : jsstring) (st : State) :
  let st1 := (Imagemin.cancel (set_progressCallback true st)).2 in
  isCancelled st1 = true /\
  Imagemin.updateProgress current total percent message st1 =
    (Ok tt, set_emitted (emitted st1 ++ [mkProgress current total percent message]) st1).
Proof. split; reflexivity. Qed.

(** X30. The Sharp variant keeps to it: after [cancel()], [updateProgress]
    changes nothing, so no event reaches the callback. *)
Theorem sharp_updateProgress_silent_once_cancelled (pf : platform) (current total : Z)
    (percent : Q) (message : jsstring) (st : State) :
  let st1 := Sharp.onEvent pf CancelRequested st in
  isCancelled st1 = true /\
  Sharp.updateProgress current total percent message st1 = (Ok tt, st1).
Proof.
  intros st1.
  assert (Hc : isCancelled st1 = true).
  { unfold st1. cbn [Sharp.onEvent].
    destruct (cancel_run pf Sharp.quiet quiet_benign (set_script [] st)) as (st' & -> & E & _).
    cbn. apply (env_flag _ _ E). reflexivity. }
  split; [exact Hc|].
  unfold Sharp.updateProgress. rewrite bind_run. cbn [get]. rewrite Hc, andb_false_r.
  reflexivity.
Qed.

(** ** More on the sanitizer *)

Import Quiet.

Lemma separatorFree_plain s : separatorFree s -> plain s.
Proof.
  intros H. unfold plain. eapply List.Forall_impl; [|exact H].
  intros c (H1 & H2 & H3). unfold plainChar.
  apply N.eqb_neq in H1, H2, H3. by rewrite H1, H2, H3.
Qed.

(** X1. Whatever the name, the sanitized name is a base followed by the
    extension of the original, and the base is never empty, holds at most
    100 characters, all of them in the safe class and none of them white
    space, and neither starts nor ends with an underscore. *)
Theorem sanitizeFileName_shape (pf : platform) (name : jsstring) :
  exists base,
    Sanitizer.sanitizeFileName pf name = base ++ extname pf name /\
    base <> [] /\ (length base <= 100)%nat /\
    List.Forall (fun c => Sanitizer.inSafeClass c = true /\ isWhiteSpace c = false) base /\
    head base <> Some UNDERSCORE /\ last base <> Some UNDERSCORE.
Proof.
  exists (sanitizedBase (basename pf name (extname pf name))).
  split; [apply sanitizeFileName_eq|].
  destruct (clean_sanitizedBase (basename pf name (extname pf name))) as (H1 & H2 & H3 & H4 & H5).
  repeat split; assumption.
Qed.

Lemma needsSanitization_app a b :
  Sharp.needsSanitization (a ++ b) = Sharp.needsSanitization a || Sharp.needsSanitization b.
Proof. unfold Sharp.needsSanitization. apply existsb_app. Qed.

Lemma needsSanitization_safe s :
  List.Forall (fun c => Sanitizer.inSafeClass c = true) s -> Sharp.needsSanitization s = false.
Proof.
  unfold Sharp.needsSanitization. induction 1 as [|c s Hc _ IH]; [reflexivity|].
  cbn. rewrite Hc, IH. reflexivity.
Qed.

(** X2. The extension is not sanitized: the sanitized name still fails the
    test [needsSanitization] exactly when the extension of the original
    fails it. *)
Theorem sanitized_name_needs_what_extension_needs (pf : platform) (name : jsstring) :
  Sharp.needsSanitization (Sanitizer.sanitizeFileName pf name) =
  Sharp.needsSanitization (extname pf name).
Proof.
  rewrite sanitizeFileName_eq, needsSanitization_app, needsSanitization_safe; [reflexivity|].
  destruct (clean_sanitizedBase (basename pf name (extname pf name))) as (H & _).
  eapply List.Forall_impl; [|exact H]. by intros c [Hc _].
Qed.

(** X3. Sanitizing is idempotent on every name without separator and
    colon, whether its characters are safe or not. *)
Theorem sanitizeFileName_idempotent_without_separators (pf : platform) (name : jsstring) :
  separatorFree name ->
  Sanitizer.sanitizeFileName pf (Sanitizer.sanitizeFileName pf name) =
  Sanitizer.sanitizeFileName pf name.
Proof. intros H. apply sanitize_idempotent_plain, separatorFree_plain, H. Qed.

Lemma sanitizeFileName_idempotent_without_separators_witness :
  separatorFree (js "50% off! #1.JPG") /\
  Sanitizer.sanitizeFileName Posix (js "50% off! #1.JPG") = js "50__off___1.JPG" /\
  Sanitizer.sanitizeFileName Posix (Sanitizer.sanitizeFileName Posix (js "50% off! #1.JPG")) =
  Sanitizer.sanitizeFileName Posix (js "50% off! #1.JPG").
Proof.
  assert (H : separatorFree (js "50% off! #1.JPG")) by (repeat constructor; discriminate).
  split; [exact H|]. split; [vm_compute; reflexivity|].
  apply (sanitizeFileName_idempotent_without_separators Posix _ H).
Defined.

Lemma extname_sanitized_plain pf name :
  plain name -> extname pf name <> [CHAR_DOT] ->
  extname pf (Sanitizer.sanitizeFileName pf name) = extname pf name.
Proof.
  intros Hn Hdot. destruct (dot_split name) as [Hd|(pre & x & -> & Hx)].
  - rewrite (sanitize_noext pf name Hn (extname_plain_nodot pf name Hn Hd)).
    rewrite (extname_plain_nodot pf name Hn Hd).
    apply extname_plain_nodot; [apply clean_plain, clean_sanitizedBase|].
    apply Forall_sanitizedBase; [discriminate | apply dotFree_fallback | exact Hd].
  - pose proof (extname_plain_dot pf pre x Hn Hx) as He.
    destruct (decide (pre = [] \/ (pre = [CHAR_DOT] /\ x = []))) as [Hy|Hy].
    + rewrite (bool_decide_eq_true_2 _ Hy) in He. rewrite He.
      destruct Hy as [->|[-> ->]].
      * cbn [app] in *. rewrite (sanitize_noext pf _ Hn He).
        destruct (sanitizedBase_leading_dot x Hx) as (y & Ey & Hy).
        pose proof (clean_sanitizedBase (CHAR_DOT :: x)) as Hc.
        apply clean_plain in Hc. rewrite Ey in Hc |- *.
        pose proof (extname_plain_dot pf [] y Hc Hy) as E0. cbn [app] in E0.
        rewrite E0, bool_decide_eq_true_2 by (left; reflexivity). reflexivity.
      * cbn [app]. rewrite sanitize_dotdot. destruct pf; reflexivity.
    + rewrite (bool_decide_eq_false_2 _ Hy) in He.
      assert (Hpre : pre <> []) by (intros ->; apply Hy; left; reflexivity).
      assert (Hxne : x <> []) by (intros ->; apply Hdot; exact He).
      rewrite (sanitizeFileName_eq pf (pre ++ CHAR_DOT :: x)), He.
      rewrite (basename_plain_suffix pf pre (CHAR_DOT :: x) Hn Hpre ltac:(discriminate)).
      pose proof (clean_sanitizedBase pre) as Hc.
      set (b1 := sanitizedBase pre) in *.
      assert (Hp1 : plain (b1 ++ CHAR_DOT :: x)).
      { apply List.Forall_app. split; [by apply clean_plain|].
        apply List.Forall_app in Hn as [_ Hn]. exact Hn. }
      assert (Hb1 : b1 <> []) by (destruct Hc as (_ & _ & _ & _ & H); exact H).
      rewrite (extname_plain_dot pf b1 x Hp1 Hx).
      rewrite bool_decide_eq_false_2; [reflexivity|].
      intros [Hz|[_ Hz]]; contradiction.
Qed.

(** X4. On a name without separator and colon whose extension is not the
    bare dot, [path.extname] reads from the sanitized name the extension it
    reads from the original. *)
Theorem sanitizeFileName_keeps_extension (pf : platform) (name : jsstring) :
  separatorFree name -> extname pf name <> [CHAR_DOT] ->
  extname pf (Sanitizer.sanitizeFileName pf name) = extname pf name.
Proof. intros H. apply extname_sanitized_plain, separatorFree_plain, H. Qed.

Lemma sanitizeFileName_keeps_extension_witness :
  separatorFree (js "R&D@home.v2.PNG") /\
  extname Win32 (js "R&D@home.v2.PNG") <> [CHAR_DOT] /\
  Sanitizer.sanitizeFileName Win32 (js "R&D@home.v2.PNG") = js "R_D_home.v2.PNG" /\
  extname Win32 (Sanitizer.sanitizeFileName Win32 (js "R&D@home.v2.PNG")) = js ".PNG".
Proof.
  assert (H : separatorFree (js "R&D@home.v2.PNG")) by (repeat constructor; discriminate).
  assert (D : extname Win32 (js "R&D@home.v2.PNG") <> [CHAR_DOT]) by (vm_compute; discriminate).
  split; [exact H|]. split; [exact D|]. split; [vm_compute; reflexivity|].
  rewrite (sanitizeFileName_keeps_extension Win32 _ H D). vm_compute. reflexivity.
Defined.

(** The bare dot is the exception: the sanitized [#..] is [..], which has
    no extension. *)
Lemma sanitizeFileName_loses_bare_dot :
  extname Posix (js "#..") = js "." /\
  Sanitizer.sanitizeFileName Posix (js "#..") = js ".." /\
  extname Posix (js "..") = [].
Proof. repeat split; vm_compute; reflexivity. Qed.

Lemma name_splits_plain pf name :
  plain name -> basename pf name (extname pf name) ++ extname pf name = name.
Proof.
  intros Hn. destruct (dot_split name) as [Hd|(pre & x & -> & Hx)].
  - rewrite (extname_plain_nodot pf name Hn Hd), basename_plain_nosuffix by exact Hn.
    apply app_nil_r.
  - rewrite (extname_plain_dot pf pre x Hn Hx).
    destruct (decide (pre = [] \/ (pre = [CHAR_DOT] /\ x = []))) as [Hy|Hy].
    + rewrite (bool_decide_eq_true_2 _ Hy), basename_plain_nosuffix by exact Hn.
      apply app_nil_r.
    + rewrite (bool_decide_eq_false_2 _ Hy).
      assert (Hpre : pre <> []) by (intros ->; apply Hy; left; reflexivity).
      by rewrite (basename_plain_suffix pf pre (CHAR_DOT :: x) Hn Hpre ltac:(discriminate)).
Qed.

(** ** Staging and restoring *)

Lemma restoreLoop_unmapped pf handle processedFiles outputDir acc st :
  tempFileMap st = ∅ ->
  restoreLoop pf handle processedFiles outputDir acc st =
  (Ok (acc ++ map (fun _ => Failure (js "unknown") (js "No mapping found")) processedFiles), st).
Proof.
  intros He. revert acc. induction processedFiles as [|file rest IH]; intros acc.
  - cbn. by rewrite app_nil_r.
  - cbn [restoreLoop]. rewrite bind_run. cbn [gets]. rewrite He, lookup_empty.
    rewrite IH. cbn [map]. by rewrite <- app_assoc.
Qed.

(** X5. [cleanup] never throws. When [fs.rm] removes the staging folder,
    [cleanup] empties the mapping, and whatever is restored after it finds
    no entry: one "No mapping found" failure per descriptor, nothing is
    renamed and the state stays as it is. When [fs.rm] rejects the removal,
    the rejection is caught and the state is the one the rejected removal
    left: the mapping has not been emptied. *)
Theorem restore_after_cleanup (pf : platform) (handle : Ext -> State -> State)
    (tempDir : jsstring) (processedFiles : list CodecOutput) (outputDir : jsstring)
    (st : State) :
  exists st1,
    cleanup pf handle tempDir st = (Ok tt, st1) /\
    match failure (nextTick st) with
    | None =>
        tempFileMap st1 = ∅ /\
        restoreOriginalNames pf handle processedFiles outputDir st1 =
          (Ok (map (fun _ => Failure (js "unknown") (js "No mapping found")) processedFiles),
           st1)
    | Some _ =>
        st1 = interfere handle (after (nextTick st))
                (set_rejected (rejected (resumed handle st) ++ [tempDir]) (resumed handle st))
    end.
Proof.
  unfold cleanup. rewrite tryCatch_run, bind_run.
  unfold fs_rm at 1. rewrite await_run. destruct (failure (nextTick st)) as [message|].
  - rewrite bind_run. cbn [modify throw mret M_ret]. eexists. split; reflexivity.
  - cbn [modify]. eexists. split; [reflexivity|]. split; [reflexivity|].
    unfold restoreOriginalNames. by rewrite restoreLoop_unmapped.
Qed.

(** A staged name whose folder cannot be removed is still in the mapping
    after [cleanup]. *)
Lemma cleanup_rejected_keeps_mapping :
  let st := set_script [Examples.failed Examples.busy] Examples.stagedPosix in
  (cleanup Posix (Imagemin.onEvent Posix) (js "/stage") st).1 = Ok tt /\
  tempFileMap (cleanup Posix (Imagemin.onEvent Posix) (js "/stage") st).2 =
    tempFileMap Examples.stagedPosix /\
  rejected (cleanup Posix (Imagemin.onEvent Posix) (js "/stage") st).2 = [js "/stage"].
Proof. repeat split; vm_compute; reflexivity. Qed.

Lemma restored_length pf handle outputDir processedFiles st results st' :
  restored pf handle outputDir processedFiles st results st' ->
  length results = length processedFiles.
Proof. induction 1; cbn; congruence. Qed.

(** X6. [restoreOriginalNames] reports exactly one result for each
    descriptor, whatever the mapping holds and whatever happens to the
    renames. *)
Theorem restoreOriginalNames_one_result_each (pf : platform)
    (handle : Ext -> State -> State) (processedFiles : list CodecOutput)
    (outputDir : jsstring) (st : State) :
  exists results,
    (restoreOriginalNames pf handle processedFiles outputDir st).1 = Ok results /\
    length results = length processedFiles.
Proof.
  destruct (restoreLoop_spec pf handle outputDir processedFiles [] st) as (results & st' & E & R).
  exists results. unfold restoreOriginalNames. rewrite E. split; [reflexivity|].
  by apply (restored_length pf handle outputDir processedFiles st results st').
Qed.

Lemma createTempLoop_shape pf handle imageFiles tempDir acc st tempFiles st' :
  createTempLoop pf handle imageFiles tempDir acc st = (Ok tempFiles, st') ->
  tempFiles = acc ++
    map (fun f => mkTempFile (name f) (fullPath f) (Sanitizer.sanitizeFileName pf (name f))
                    (join pf [tempDir; Sanitizer.sanitizeFileName pf (name f)]) (extension f))
        imageFiles.
Proof.
  revert acc st. induction imageFiles as [|f rest IH]; intros acc st.
  - cbn. intros [= <- _]. by rewrite app_nil_r.
  - cbn [createTempLoop]. rewrite bind_run.
    destruct (fs_copyFile handle _ _ st) as [[[]|e] st1]; [|discriminate].
    rewrite bind_run. cbn [modify]. intros H. apply IH in H. rewrite H, <- app_assoc.
    reflexivity.
Qed.

(** X7. When [createTempFiles] returns, it returns one descriptor per image
    file, in order, each with the sanitized name and the path of the copy
    inside the staging directory. *)
Theorem createTempFiles_shape (pf : platform) (handle : Ext -> State -> State)
    (imageFiles : list ImageFile) (tempDir : jsstring) (st : State)
    (tempFiles : list TempFile) (st' : State) :
  createTempFiles pf handle imageFiles tempDir st = (Ok tempFiles, st') ->
  tempFiles =
    map (fun f => mkTempFile (name f) (fullPath f) (Sanitizer.sanitizeFileName pf (name f))
                    (join pf [tempDir; Sanitizer.sanitizeFileName pf (name f)]) (extension f))
        imageFiles.
Proof.
  unfold createTempFiles. rewrite bind_run.
  destruct (fs_mkdir handle tempDir st) as [[[]|e] st1]; [|discriminate].
  apply createTempLoop_shape.
Qed.

Import Quiet.

(** *** Awaits during which nothing happens *)

Lemma await_uneventful {A} handle (op : Tick -> M A) st :
  uneventful st -> await handle op st = op (nextTick st) (advanced st).
Proof.
  intros H. rewrite await_run.
  assert (Ht : before (nextTick st) = [] /\ after (nextTick st) = []).
  { unfold nextTick, uneventful in *. destruct (script st) as [|t s]; [by split|].
    inversion H as [|? ? (H1 & _ & H3) _]; subst. by split. }
  destruct Ht as [Hb Ha]. unfold resumed. rewrite Hb, Ha. cbn [interfere fold_left].
  change (set_clock _ _) with (advanced st). by destruct (op (nextTick st) (advanced st)).
Qed.

Lemma nextTick_uneventful st : uneventful st -> failure (nextTick st) = None.
Proof.
  unfold nextTick, uneventful. destruct (script st) as [|t s]; [reflexivity|].
  intros H. inversion H as [|? ? (_ & H2 & _) _]; subst. exact H2.
Qed.

Lemma uneventful_script st st' : script st' = script st -> uneventful st -> uneventful st'.
Proof. unfold uneventful. by intros ->. Qed.

Lemma uneventful_advanced st : uneventful st -> uneventful (advanced st).
Proof.
  unfold uneventful, advanced. cbn. destruct (script st) as [|t s]; [by constructor|].
  intros H. by inversion H.
Qed.

Lemma fs_mkdir_uneventful handle p st :
  uneventful st -> fs_mkdir handle p st = (Ok tt, made p (advanced st)).
Proof.
  intros H. unfold fs_mkdir. rewrite (await_uneventful handle _ st H).
  unfold fallible. by rewrite (nextTick_uneventful st H).
Qed.

Lemma fs_copyFile_uneventful handle src dst n st :
  uneventful st -> files st !! src = Some n ->
  fs_copyFile handle src dst st =
  (Ok tt, set_files (<[dst := n]> (files st)) (advanced st)).
Proof.
  intros H Hs. unfold fs_copyFile. rewrite (await_uneventful handle _ st H).
  unfold fallible. rewrite (nextTick_uneventful st H), bind_run. cbn [get].
  change (files (advanced st)) with (files st). by rewrite Hs.
Qed.

Lemma fs_rename_uneventful handle src dst n st :
  uneventful st -> files st !! src = Some n ->
  fs_rename handle src dst st =
  (Ok tt, set_files (<[dst := n]> (delete src (files st))) (advanced st)).
Proof.
  intros H Hs. unfold fs_rename. rewrite (await_uneventful handle _ st H).
  unfold fallible. rewrite (nextTick_uneventful st H), bind_run. cbn [get].
  change (files (advanced st)) with (files st). by rewrite Hs.
Qed.

Lemma normalizeSourcePath_id p :
  List.Forall (fun c => c <> CHAR_FORWARD_SLASH) p -> normalizeSourcePath p = p.
Proof.
  unfold normalizeSourcePath. induction 1 as [|c p Hc _ IH]; [reflexivity|].
  cbn. apply N.eqb_neq in Hc. by rewrite Hc, IH.
Qed.

(** X8. Round trip of a staged file. While nothing disturbs the
    operations, a file that exists is staged under its sanitized name; if
    the staged path holds no forward slash, and the codec has written its
    artifact, restoring renames the artifact to the original base name with
    [.webp] inside the output directory and reports the success under the
    original name. *)
Theorem staged_name_comes_back (pf : platform) (handle : Ext -> State -> State)
    (imageFile : ImageFile) (tempDir outputDir artifact : jsstring) (n m : Z) (st : State) :
  let sanitizedName := Sanitizer.sanitizeFileName pf (name imageFile) in
  let tempPath := join pf [tempDir; sanitizedName] in
  let newFileName :=
    basename pf (name imageFile) (extname pf (name imageFile)) ++ js ".webp" in
  let newPath := join pf [outputDir; newFileName] in
  uneventful st ->
  files st !! fullPath imageFile = Some n ->
  List.Forall (fun c => c <> CHAR_FORWARD_SLASH) tempPath ->
  exists st1,
    createTempFiles pf handle [imageFile] tempDir st =
      (Ok [mkTempFile (name imageFile) (fullPath imageFile) sanitizedName tempPath
             (extension imageFile)], st1) /\
    files st1 !! tempPath = Some n /\
    exists st3,
      restoreOriginalNames pf handle [mkCodecOutput tempPath artifact] outputDir
        (set_files (<[artifact := m]> (files st1)) st1) =
        (Ok [Success (name imageFile) newFileName (Some newPath)], st3) /\
      files st3 !! newPath = Some m.
Proof.
  intros sanitizedName tempPath newFileName newPath Hu Hf Hp.
  unfold createTempFiles. rewrite bind_run, (fs_mkdir_uneventful handle tempDir st Hu).
  cbn [createTempLoop]. fold sanitizedName. fold tempPath.
  set (st0 := made tempDir (advanced st)).
  assert (Hu0 : uneventful st0)
    by (apply (uneventful_script (advanced st)); [reflexivity | by apply uneventful_advanced]).
  rewrite bind_run, (fs_copyFile_uneventful handle _ tempPath n st0 Hu0 Hf).
  rewrite bind_run. cbn [modify]. cbn [app].
  eexists. split; [reflexivity|]. split; [cbn; apply lookup_insert_eq|].
  match goal with
  | |- context [restoreOriginalNames pf handle _ outputDir ?s] => set (st2 := s)
  end.
  assert (Hu2 : uneventful st2)
    by (apply (uneventful_script (advanced st0)); [reflexivity | by apply uneventful_advanced]).
  unfold restoreOriginalNames. cbn [restoreLoop sourcePath destinationPath].
  rewrite bind_run. cbn [gets]. rewrite (normalizeSourcePath_id tempPath Hp).
  replace (tempFileMap st2 !! tempPath)
    with (Some (mkTempInfo (fullPath imageFile) (name imageFile)))
    by (symmetry; apply lookup_insert_eq).
  cbn [ti_originalName]. fold newFileName. fold newPath.
  rewrite bind_run, tryCatch_run, bind_run.
  rewrite (fs_rename_uneventful handle artifact newPath m st2 Hu2)
    by (cbn; apply lookup_insert_eq).
  cbn [app]. eexists. split; [reflexivity|]. cbn. apply lookup_insert_eq.
Qed.

Lemma createTempFiles_shape_witness :
  createTempFiles Win32 Sharp.quiet [Scenes.winPicture] (js "C:\stage") Scenes.winWorld =
    (Ok [mkTempFile (js "pic#1.png") (js "C:\photos\pic#1.png") (js "pic_1.png")
           (js "C:\stage\pic_1.png") (js ".png")],
     (createTempFiles Win32 Sharp.quiet [Scenes.winPicture] (js "C:\stage") Scenes.winWorld).2) /\
  [mkTempFile (js "pic#1.png") (js "C:\photos\pic#1.png") (js "pic_1.png")
     (js "C:\stage\pic_1.png") (js ".png")] =
  map (fun f => mkTempFile (name f) (fullPath f) (Sanitizer.sanitizeFileName Win32 (name f))
                  (join Win32 [js "C:\stage"; Sanitizer.sanitizeFileName Win32 (name f)])
                  (extension f))
      [Scenes.winPicture].
Proof.
  assert (H : createTempFiles Win32 Sharp.quiet [Scenes.winPicture] (js "C:\stage")
                Scenes.winWorld =
              (Ok [mkTempFile (js "pic#1.png") (js "C:\photos\pic#1.png") (js "pic_1.png")
                     (js "C:\stage\pic_1.png") (js ".png")],
               (createTempFiles Win32 Sharp.quiet [Scenes.winPicture] (js "C:\stage")
                  Scenes.winWorld).2))
    by (vm_compute; reflexivity).
  split; [exact H|].
  exact (createTempFiles_shape Win32 Sharp.quiet [Scenes.winPicture] (js "C:\stage")
           Scenes.winWorld _ _ H).
Defined.

Lemma staged_name_comes_back_witness :
  uneventful Scenes.winWorld /\
  (exists st3,
     restoreOriginalNames Win32 Sharp.quiet
       [mkCodecOutput (js "C:\stage\pic_1.png") (js "C:\out\pic_1.png")] (js "C:\out")
       (set_files
          (<[js "C:\out\pic_1.png" := 1200%Z]>
             (files (createTempFiles Win32 Sharp.quiet [Scenes.winPicture] (js "C:\stage")
                       Scenes.winWorld).2))
          (createTempFiles Win32 Sharp.quiet [Scenes.winPicture] (js "C:\stage")
             Scenes.winWorld).2) =
     (Ok [Success (js "pic#1.png") (js "pic#1.webp") (Some (js "C:\out\pic#1.webp"))], st3) /\
     files st3 !! js "C:\out\pic#1.webp" = Some 1200%Z).
Proof.
  assert (Hu : uneventful Scenes.winWorld) by constructor.
  split; [exact Hu|].
  destruct (staged_name_comes_back Win32 Sharp.quiet Scenes.winPicture (js "C:\stage")
              (js "C:\out") (js "C:\out\pic_1.png") 5000 1200 Scenes.winWorld Hu)
    as (st1 & E1 & _ & st3 & E3 & F3).
  - vm_compute. reflexivity.
  - vm_compute. repeat constructor; discriminate.
  - rewrite E1. cbn [snd]. exists st3. split; [|exact F3].
    etransitivity; [exact E3|]. vm_compute. reflexivity.
Defined.

(** ** The size analyzer's measurements *)

Import Totals.

Lemma sumSizes_app a b : sumSizes (a ++ b) = (sumSizes a + sumSizes b)%Z.
Proof. unfold sumSizes. induction a as [|r a IH]; cbn; [reflexivity|]. rewrite IH. lia. Qed.

Lemma sumSizes_cons r l : sumSizes (r :: l) = (SizeAnalyzer.sr_size r + sumSizes l)%Z.
Proof. reflexivity. Qed.

Lemma measureInputLoop_totals handle imageFiles d0 st :
  exists d st' added,
    Sharp.measureInputLoop handle imageFiles d0 st = (Ok d, st') /\
    SizeAnalyzer.in_totalFiles d = SizeAnalyzer.in_totalFiles d0 /\
    SizeAnalyzer.in_files d = SizeAnalyzer.in_files d0 ++ added /\
    map SizeAnalyzer.sr_name added = map name imageFiles /\
    SizeAnalyzer.in_totalSize d = (SizeAnalyzer.in_totalSize d0 + sumSizes added)%Z /\
    List.Forall (fun r => measured r = false -> SizeAnalyzer.sr_size r = 0%Z) added.
Proof.
  revert d0 st. induction imageFiles as [|f rest IH]; intros d0 st.
  - exists d0, st, []. cbn. rewrite app_nil_r. repeat split; [lia | constructor].
  - cbn [Sharp.measureInputLoop]. rewrite bind_run, tryCatch_run, bind_run.
    destruct (fs_stat handle (fullPath f) st) as [[stats|e] st1].
    + cbn [mret M_ret].
      match goal with |- context [Sharp.measureInputLoop handle rest ?d1 st1] =>
        destruct (IH d1 st1) as (d & st' & added & E & H1 & H2 & H3 & H4 & H5)
      end.
      cbn in H1, H2, H4.
      eexists d, st', (_ :: added). split; [exact E|]. split; [exact H1|].
      split; [rewrite H2, <- app_assoc; reflexivity|].
      split; [cbn; by rewrite H3|]. split; [rewrite sumSizes_cons; cbn [SizeAnalyzer.sr_size]; lia|].
      constructor; [discriminate | exact H5].
    + cbn [mret M_ret].
      match goal with |- context [Sharp.measureInputLoop handle rest ?d1 st1] =>
        destruct (IH d1 st1) as (d & st' & added & E & H1 & H2 & H3 & H4 & H5)
      end.
      cbn in H1, H2, H4.
      eexists d, st', (_ :: added). split; [exact E|]. split; [exact H1|].
      split; [rewrite H2, <- app_assoc; reflexivity|].
      split; [cbn; by rewrite H3|]. split; [rewrite sumSizes_cons; cbn [SizeAnalyzer.sr_size]; lia|].
      constructor; [reflexivity | exact H5].
Qed.

(** What [measureInputSizes] returns and stores. *)
Lemma measureInputSizes_measured (handle : Ext -> State -> State)
    (imageFiles : list ImageFile) (st : State) :
  exists d,
    (Sharp.measureInputSizes handle imageFiles st).1 = Ok d /\
    SizeAnalyzer.inputStats (sizeAnalyzer (Sharp.measureInputSizes handle imageFiles st).2)
      = Some d /\
    SizeAnalyzer.in_totalFiles d = Z.of_nat (length imageFiles) /\
    map SizeAnalyzer.sr_name (SizeAnalyzer.in_files d) = map name imageFiles /\
    SizeAnalyzer.in_totalSize d = sumSizes (SizeAnalyzer.in_files d) /\
    List.Forall (fun r => measured r = false -> SizeAnalyzer.sr_size r = 0%Z)
      (SizeAnalyzer.in_files d).
Proof.
  unfold Sharp.measureInputSizes. rewrite bind_run.
  destruct (measureInputLoop_totals handle imageFiles
              (SizeAnalyzer.mkInputData [] 0 (Z.of_nat (length imageFiles))) st)
    as (d & st' & added & E & H1 & H2 & H3 & H4 & H5).
  rewrite E. cbn in H1, H2, H4.
  exists d. rewrite bind_run. cbn. rewrite H2.
  repeat split; [exact H1 | exact H3 | lia | exact H5].
Qed.

(** X9. [measureInputSizes] never throws. It records one entry per image
    file, in order and under the file's name; [totalFiles] is the number of
    files, [totalSize] the sum of the entries' sizes, an entry whose [stat]
    failed counts 0 bytes; and the snapshot it returns is the one it stores
    as [inputStats]. *)
Theorem measureInputSizes_totals (handle : Ext -> State -> State)
    (imageFiles : list ImageFile) (st : State) :
  exists d,
    (Sharp.measureInputSizes handle imageFiles st).1 = Ok d /\
    SizeAnalyzer.inputStats (sizeAnalyzer (Sharp.measureInputSizes handle imageFiles st).2)
      = Some d /\
    SizeAnalyzer.in_totalFiles d = Z.of_nat (length imageFiles) /\
    map SizeAnalyzer.sr_name (SizeAnalyzer.in_files d) = map name imageFiles /\
    SizeAnalyzer.in_totalSize d = sumSizes (SizeAnalyzer.in_files d) /\
    List.Forall (fun r => measured r = false -> SizeAnalyzer.sr_size r = 0%Z)
      (SizeAnalyzer.in_files d).
Proof. exact (measureInputSizes_measured handle imageFiles st). Qed.

Lemma measureOutputLoop_totals pf handle outputPath results d0 st :
  exists d st' added,
    Sharp.measureOutputLoop pf handle outputPath results d0 st = (Ok d, st') /\
    SizeAnalyzer.out_totalFiles d = SizeAnalyzer.out_totalFiles d0 /\
    SizeAnalyzer.out_files d = SizeAnalyzer.out_files d0 ++ added /\
    length added = length results /\
    SizeAnalyzer.out_totalSize d = (SizeAnalyzer.out_totalSize d0 + sumSizes added)%Z /\
    SizeAnalyzer.out_successfulFiles d =
      (SizeAnalyzer.out_successfulFiles d0 + Z.of_nat (length (List.filter measured added)))%Z /\
    (length (List.filter measured added) <= length (List.filter succeeded results))%nat /\
    List.Forall (fun r => measured r = false -> SizeAnalyzer.sr_size r = 0%Z) added.
Proof.
  revert d0 st.
  induction results as [|[original compressed finalPath|original error] rest IH]; intros d0 st.
  - exists d0, st, []. cbn. rewrite app_nil_r. repeat split; [lia | lia | lia | constructor].
  - cbn [Sharp.measureOutputLoop]. rewrite bind_run, tryCatch_run, bind_run.
    destruct (fs_stat handle _ st) as [[stats|e] st1].
    + cbn [mret M_ret].
      match goal with |- context [Sharp.measureOutputLoop pf handle outputPath rest ?d1 st1] =>
        destruct (IH d1 st1) as (d & st' & added & E & H1 & H2 & H3 & H4 & H5 & H6 & H7)
      end.
      cbn in H1, H2, H4, H5.
      eexists d, st', (_ :: added). split; [exact E|]. split; [exact H1|].
      split; [rewrite H2, <- app_assoc; reflexivity|].
      split; [cbn; by rewrite H3|].
      split; [rewrite sumSizes_cons; cbn [SizeAnalyzer.sr_size]; lia|].
      split; [cbn; lia|]. split; [cbn; lia|].
      constructor; [discriminate | exact H7].
    + cbn [mret M_ret].
      match goal with |- context [Sharp.measureOutputLoop pf handle outputPath rest ?d1 st1] =>
        destruct (IH d1 st1) as (d & st' & added & E & H1 & H2 & H3 & H4 & H5 & H6 & H7)
      end.
      cbn in H1, H2, H4, H5.
      eexists d, st', (_ :: added). split; [exact E|]. split; [exact H1|].
      split; [rewrite H2, <- app_assoc; reflexivity|].
      split; [cbn; by rewrite H3|].
      split; [rewrite sumSizes_cons; cbn [SizeAnalyzer.sr_size]; lia|].
      split; [cbn; lia|]. split; [cbn; lia|].
      constructor; [reflexivity | exact H7].
  - cbn [Sharp.measureOutputLoop].
    match goal with |- context [Sharp.measureOutputLoop pf handle outputPath rest ?d1 st] =>
      destruct (IH d1 st) as (d & st' & added & E & H1 & H2 & H3 & H4 & H5 & H6 & H7)
    end.
    cbn in H1, H2, H4, H5.
    eexists d, st', (_ :: added). split; [exact E|]. split; [exact H1|].
    split; [rewrite H2, <- app_assoc; reflexivity|].
    split; [cbn; by rewrite H3|].
    split; [rewrite sumSizes_cons; cbn [SizeAnalyzer.sr_size]; lia|].
    split; [cbn; lia|]. split; [cbn; lia|].
    constructor; [reflexivity | exact H7].
Qed.

(** What [measureOutputSizes] returns and stores. *)
Lemma measureOutputSizes_measured (pf : platform) (handle : Ext -> State -> State)
    (outputPath : jsstring) (processingResults : list ProcessingResult) (st : State) :
  exists d,
    (Sharp.measureOutputSizes pf handle outputPath processingResults st).1 = Ok d /\
    SizeAnalyzer.outputStats
      (sizeAnalyzer (Sharp.measureOutputSizes pf handle outputPath processingResults st).2)
      = Some d /\
    length (SizeAnalyzer.out_files d) = length processingResults /\
    SizeAnalyzer.out_totalFiles d = Z.of_nat (length processingResults) /\
    SizeAnalyzer.out_totalSize d = sumSizes (SizeAnalyzer.out_files d) /\
    SizeAnalyzer.out_successfulFiles d =
      Z.of_nat (length (List.filter measured (SizeAnalyzer.out_files d))) /\
    (SizeAnalyzer.out_successfulFiles d
       <= Z.of_nat (length (List.filter succeeded processingResults)))%Z /\
    List.Forall (fun r => measured r = false -> SizeAnalyzer.sr_size r = 0%Z)
      (SizeAnalyzer.out_files d).
Proof.
  unfold Sharp.measureOutputSizes. rewrite bind_run.
  destruct (measureOutputLoop_totals pf handle outputPath processingResults
              (SizeAnalyzer.mkOutputData [] 0 0 0) st)
    as (d & st' & added & E & H1 & H2 & H3 & H4 & H5 & H6 & H7).
  rewrite E. cbn in H1, H2, H4, H5.
  eexists. rewrite bind_run. cbn. rewrite H2.
  repeat split;
    cbn [SizeAnalyzer.out_files SizeAnalyzer.out_totalSize SizeAnalyzer.out_totalFiles
         SizeAnalyzer.out_successfulFiles];
    [exact H3 | by rewrite H3 | lia | lia | lia | exact H7].
Qed.

(** X10. [measureOutputSizes] never throws. It records one entry per
    processing result; [totalFiles] is their number, [totalSize] the sum of
    the entries' sizes, [successfulFiles] the number of entries without
    error, which is at most the number of successful results (a success
    whose file cannot be measured becomes an entry with an error and 0
    bytes); and the snapshot it returns is the one it stores as
    [outputStats]. *)
Theorem measureOutputSizes_totals (pf : platform) (handle : Ext -> State -> State)
    (outputPath : jsstring) (processingResults : list ProcessingResult) (st : State) :
  exists d,
    (Sharp.measureOutputSizes pf handle outputPath processingResults st).1 = Ok d /\
    SizeAnalyzer.outputStats
      (sizeAnalyzer (Sharp.measureOutputSizes pf handle outputPath processingResults st).2)
      = Some d /\
    length (SizeAnalyzer.out_files d) = length processingResults /\
    SizeAnalyzer.out_totalFiles d = Z.of_nat (length processingResults) /\
    SizeAnalyzer.out_totalSize d = sumSizes (SizeAnalyzer.out_files d) /\
    SizeAnalyzer.out_successfulFiles d =
      Z.of_nat (length (List.filter measured (SizeAnalyzer.out_files d))) /\
    (SizeAnalyzer.out_successfulFiles d
       <= Z.of_nat (length (List.filter succeeded processingResults)))%Z /\
    List.Forall (fun r => measured r = false -> SizeAnalyzer.sr_size r = 0%Z)
      (SizeAnalyzer.out_files d).
Proof. exact (measureOutputSizes_measured pf handle outputPath processingResults st). Qed.

(** ** Computations that leave the bookkeeping alone *)

Import Frames.

Lemma Still_refl st : Still st st.
Proof. by split. Qed.

Lemma Still_trans st1 st2 st3 : Still st1 st2 -> Still st2 st3 -> Still st1 st3.
Proof. intros [] []. split; congruence. Qed.

Lemma keeps_ret {A} (a : A) : keeps (mret a).
Proof. intros st0 st H. exact H. Qed.

Lemma keeps_throw {A} message : keeps (@throw A message).
Proof. intros st0 st H. exact H. Qed.

Lemma keeps_get : keeps get.
Proof. intros st0 st H. exact H. Qed.

Lemma keeps_gets {A} (f : State -> A) : keeps (gets f).
Proof. intros st0 st H. exact H. Qed.

Lemma keeps_bind {A B} (m : M A) (f : A -> M B) :
  keeps m -> (forall a, keeps (f a)) -> keeps (m ≫= f).
Proof.
  intros Hm Hf st0 st H. rewrite wp_bind. eapply wp_mono; [apply (Hm st0 st H)|].
  cbn beta. intros [a|e] st1 H1; [by apply Hf | exact H1].
Qed.

Lemma keeps_tryCatch {A} (m : M A) (h : jsstring -> M A) :
  keeps m -> (forall e, keeps (h e)) -> keeps (tryCatch m h).
Proof.
  intros Hm Hh st0 st H. rewrite wp_tryCatch. eapply wp_mono; [apply (Hm st0 st H)|].
  cbn beta. intros [a|e] st1 H1; [exact H1 | by apply Hh].
Qed.

Lemma keeps_modify (f : State -> State) :
  (forall st, Still st (f st)) -> keeps (modify f).
Proof. intros Hf st0 st H. rewrite wp_modify. eapply Still_trans; [exact H | apply Hf]. Qed.

Lemma keeps_fallible {A} t (op : M A) : keeps op -> keeps (fallible t op).
Proof. intros H. unfold fallible. destruct (failure t); [apply keeps_throw | exact H]. Qed.

Lemma interfere_Still handle events st :
  Discreet handle -> Still st (interfere handle events st).
Proof.
  intros Hh. revert st. induction events as [|e events IH]; intros st; [apply Still_refl|].
  cbn. eapply Still_trans; [apply Hh | apply IH].
Qed.

Lemma keeps_await {A} handle (op : Tick -> M A) :
  Discreet handle -> (forall t, keeps (op t)) -> keeps (await handle op).
Proof.
  intros Hh Hop st0 st H. unfold wp. rewrite await_run.
  assert (Hr : Still st0 (resumed handle st)).
  { unfold resumed.
    apply (Still_trans _ (interfere handle (before (nextTick st))
                            (set_script (tail (script st)) st))); [|by split].
    eapply Still_trans; [|apply interfere_Still, Hh].
    eapply Still_trans; [exact H | by split]. }
  specialize (Hop (nextTick st) st0 (resumed handle st) Hr). unfold wp in Hop.
  destruct (op (nextTick st) (resumed handle st)) as [r st3]. cbn in Hop |- *.
  eapply Still_trans; [exact Hop | apply interfere_Still, Hh].
Qed.

Create HintDb keeps discriminated.

#[local] Hint Resolve keeps_ret keeps_throw keeps_get keeps_gets : keeps.

Ltac keeps_step :=
  lazymatch goal with
  | |- keeps (mbind _ _) => apply keeps_bind; [|intros ?]
  | |- keeps (tryCatch _ _) => apply keeps_tryCatch; [|intros ?]
  | |- keeps (mret _) => apply keeps_ret
  | |- keeps (throw _) => apply keeps_throw
  | |- keeps get => apply keeps_get
  | |- keeps (gets _) => apply keeps_gets
  | |- keeps (modify _) => apply keeps_modify; intros ?; split; reflexivity
  | |- keeps (await _ _) => apply keeps_await; [assumption|intros ?]
  | |- keeps (fallible _ _) => apply keeps_fallible
  | |- keeps (if ?b then _ else _) => destruct b
  | |- keeps (match ?x with _ => _ end) => destruct x
  end.

Ltac keeps_auto := repeat first [solve [eauto with keeps] | keeps_step].

Section Keeping.

Variable pf : platform.
Variable handle : Ext -> State -> State.
Hypothesis handle_discreet : Discreet handle.

Lemma keeps_fs_access p : keeps (fs_access handle p).
Proof. unfold fs_access. keeps_auto. Qed.

Lemma keeps_fs_stat p : keeps (fs_stat handle p).
Proof. unfold fs_stat. keeps_auto. Qed.

Lemma keeps_fs_mkdir p : keeps (fs_mkdir handle p).
Proof. unfold fs_mkdir. keeps_auto. Qed.

Lemma keeps_fs_rm p : keeps (fs_rm pf handle p).
Proof. unfold fs_rm. keeps_auto. Qed.

Lemma keeps_fs_unlink p : keeps (fs_unlink handle p).
Proof. unfold fs_unlink. keeps_auto. Qed.

Lemma keeps_fs_copyFile src dst : keeps (fs_copyFile handle src dst).
Proof. unfold fs_copyFile. keeps_auto. Qed.

Lemma keeps_fs_rename src dst : keeps (fs_rename handle src dst).
Proof. unfold fs_rename. keeps_auto. Qed.

Lemma keeps_fs_readdir p : keeps (fs_readdir handle p).
Proof. unfold fs_readdir. keeps_auto. Qed.

Lemma keeps_fs_readdir_sub : keeps (fs_readdir_sub handle).
Proof. unfold fs_readdir_sub. keeps_auto. Qed.

Lemma keeps_sharp_toFile src settings dst : keeps (Sharp.sharp_toFile handle src settings dst).
Proof. unfold Sharp.sharp_toFile. keeps_auto. Qed.

Hint Resolve keeps_fs_access keeps_fs_stat keeps_fs_mkdir keeps_fs_rm keeps_fs_unlink
  keeps_fs_copyFile keeps_fs_rename keeps_fs_readdir keeps_fs_readdir_sub
  keeps_sharp_toFile : keeps.

Lemma keeps_updateProgress current total percent message :
  keeps (Sharp.updateProgress current total percent message).
Proof. unfold Sharp.updateProgress. keeps_auto. Qed.

Lemma keeps_updateProcessingStats t : keeps (Sharp.updateProcessingStats t).
Proof.
  unfold Sharp.updateProcessingStats. apply keeps_modify. intros st.
  destruct (processedCount st =? 0)%Z; split; reflexivity.
Qed.

Lemma keeps_calculateETA count : keeps (Sharp.calculateETA count).
Proof. unfold Sharp.calculateETA. keeps_auto. Qed.

Lemma keeps_removeTempDirectories ds : keeps (Sharp.removeTempDirectories pf handle ds).
Proof. induction ds as [|d ds IH]; cbn [Sharp.removeTempDirectories]; keeps_auto. Qed.

Hint Resolve keeps_updateProgress keeps_updateProcessingStats keeps_calculateETA
  keeps_removeTempDirectories : keeps.

Lemma keeps_performCleanup : keeps (Sharp.performCleanup pf handle).
Proof. unfold Sharp.performCleanup. keeps_auto. Qed.

Lemma keeps_cancel : keeps (Sharp.cancel pf handle).
Proof. unfold Sharp.cancel. pose proof keeps_performCleanup. keeps_auto. Qed.

Lemma keeps_scanEntries visits imageFiles : keeps (Sharp.scanEntries handle visits imageFiles).
Proof.
  revert imageFiles. induction visits as [|visit rest IH]; intros imageFiles;
    cbn [Sharp.scanEntries]; keeps_auto.
Qed.

Hint Resolve keeps_scanEntries : keeps.

Lemma keeps_scanForImages folderPath : keeps (Sharp.scanForImages handle folderPath).
Proof. unfold Sharp.scanForImages. keeps_auto. Qed.

Lemma keeps_getTempDirName : keeps Sharp.getTempDirName.
Proof. unfold Sharp.getTempDirName. keeps_auto. Qed.

Lemma keeps_createOutputFolder inputPath : keeps (Sharp.createOutputFolder pf handle inputPath).
Proof. unfold Sharp.createOutputFolder. keeps_auto. Qed.

Lemma keeps_processSharpClean file outputPath :
  keeps (Sharp.processSharpClean pf handle file outputPath).
Proof. unfold Sharp.processSharpClean. keeps_auto. Qed.

Lemma keeps_processSharpSanitized file outputPath tempDir :
  keeps (Sharp.processSharpSanitized pf handle file outputPath tempDir).
Proof. unfold Sharp.processSharpSanitized. keeps_auto. Qed.

Lemma keeps_onFileError file tdc results message :
  keeps (Sharp.onFileError file tdc results message).
Proof. unfold Sharp.onFileError. keeps_auto. Qed.

Hint Resolve keeps_performCleanup keeps_cancel keeps_scanForImages keeps_getTempDirName
  keeps_createOutputFolder keeps_processSharpClean keeps_processSharpSanitized
  keeps_onFileError : keeps.

Lemma keeps_recordResult file count start tdc results result :
  keeps (Sharp.recordResult file count start tdc results result).
Proof. unfold Sharp.recordResult. keeps_auto. Qed.

Hint Resolve keeps_recordResult : keeps.

Lemma keeps_prepareFile outputPath tempDir file tdc results :
  keeps (Sharp.prepareFile handle outputPath tempDir file tdc results).
Proof. unfold Sharp.prepareFile. keeps_auto. Qed.

Lemma keeps_convertFile outputPath tempDir count file start tdc results :
  keeps (Sharp.convertFile pf handle outputPath tempDir count file start tdc results).
Proof. unfold Sharp.convertFile. keeps_auto. Qed.

Hint Resolve keeps_prepareFile keeps_convertFile : keeps.

Lemma keeps_processFile outputPath tempDir count file tdc results :
  keeps (Sharp.processFile pf handle outputPath tempDir count file tdc results).
Proof. unfold Sharp.processFile. keeps_auto. Qed.

Hint Resolve keeps_processFile : keeps.

Lemma keeps_fileLoop outputPath tempDir count imageFiles tdc results :
  keeps (Sharp.fileLoop pf handle outputPath tempDir count imageFiles tdc results).
Proof.
  revert tdc results. induction imageFiles as [|file rest IH]; intros tdc results;
    cbn [Sharp.fileLoop]; keeps_auto.
Qed.

Hint Resolve keeps_fileLoop : keeps.

Lemma keeps_processSharpSequential imageFiles outputPath progressInterval :
  keeps (Sharp.processSharpSequential pf handle imageFiles outputPath progressInterval).
Proof. unfold Sharp.processSharpSequential. keeps_auto. Qed.

Lemma keeps_measureOutputLoop outputPath results d0 :
  keeps (Sharp.measureOutputLoop pf handle outputPath results d0).
Proof.
  revert d0. induction results as [|[original compressed finalPath|original error] rest IH];
    intros d0; cbn [Sharp.measureOutputLoop]; keeps_auto.
Qed.

Lemma keeps_measureInputLoop imageFiles d0 :
  keeps (Sharp.measureInputLoop handle imageFiles d0).
Proof.
  revert d0. induction imageFiles as [|f rest IH]; intros d0;
    cbn [Sharp.measureInputLoop]; keeps_auto.
Qed.

End Keeping.

Lemma quiet_discreet : Discreet Sharp.quiet.
Proof. intros e st. apply Still_refl. Qed.

Lemma rm_rf_Still pf p st : Still st (rm_rf pf p st).
Proof. by split. Qed.

Lemma cancel_with_Still pf ticks st :
  Still st (set_script (script st) (Sharp.cancel pf Sharp.quiet (set_script ticks st)).2).
Proof.
  pose proof (keeps_cancel pf Sharp.quiet quiet_discreet (set_script ticks st)
                (set_script ticks st) (Still_refl _)) as H.
  unfold wp in H.
  apply (Still_trans _ (set_script ticks st)); [by split|].
  apply (Still_trans _ _ _ H). by split.
Qed.

Lemma onEvent_discreet pf : Discreet (Sharp.onEvent pf).
Proof.
  intros [|rejections|p] st; cbn [Sharp.onEvent];
    [apply cancel_with_Still | apply cancel_with_Still | apply rm_rf_Still].
Qed.

(** ** Whole runs *)

Import Frames.

Lemma resumed_Still handle st : Discreet handle -> Still st (resumed handle st).
Proof.
  intros Hh. unfold resumed.
  apply (Still_trans _ (interfere handle (before (nextTick st))
                          (set_script (tail (script st)) st))); [|by split].
  eapply Still_trans; [|apply interfere_Still, Hh]. by split.
Qed.

Lemma wp_keeps {A} (m : M A) st : keeps m -> wp m st (fun _ st' => Still st st').
Proof. intros H. apply H, Still_refl. Qed.

Section Runs.

Variable pf : platform.
Variable handle : Ext -> State -> State.
Hypothesis handle_benign : Benign handle.
Hypothesis handle_discreet : Discreet handle.

Lemma performCleanup_calm st :
  wp (Sharp.performCleanup pf handle) st (fun r st' =>
    r = Ok tt /\ Env st st' /\ Still st st').
Proof.
  eapply wp_mono.
  { apply wp_conj; [apply (performCleanup_spec pf handle handle_benign)|].
    apply wp_keeps, keeps_performCleanup, handle_discreet. }
  cbn beta. intros r st' [(-> & E & _) S]. auto.
Qed.

(** The [catch] of [processImages] always rethrows, with the prefix. *)
Lemma processImages_handler_wraps message st :
  wp (modify (fun st => set_sizeAnalyzer (SizeAnalyzer.reset (sizeAnalyzer st)) st);;
      c ← gets isCancelled;
      (if c || includes message (js "cancelled")
       then Sharp.performCleanup pf handle else mret tt);;
      throw (js "Image processing failed: " ++ message)) st
    (fun (r : Res Sharp.RunResult) st' =>
       r = Throw (js "Image processing failed: " ++ message) /\
       sizeAnalyzer st' = SizeAnalyzer.mkAnalyzer None None /\
       created st' = created st /\ dirs st' ⊆ dirs st).
Proof.
  wp_simpl. set (st1 := set_sizeAnalyzer _ st).
  change (isCancelled st1) with (isCancelled st).
  destruct (isCancelled st || includes message (js "cancelled")).
  - wp_apply performCleanup_calm. intros r st2 (-> & E & S). wp_simpl.
    split; [reflexivity|]. split; [by rewrite (still_analyzer _ _ S)|].
    split; [by rewrite (env_created _ _ E) | apply (env_dirs _ _ E)].
  - wp_simpl. repeat split; reflexivity.
Qed.

Lemma fs_readdir_listing p st :
  wp (fs_readdir handle p) st (fun r st' =>
    Env st st' /\ Still st st' /\
    forall visits, r = Ok visits -> pictures visits = listing st p).
Proof.
  eapply wp_mono.
  { apply wp_conj; [apply (fs_readdir_Env handle handle_benign)|].
    apply wp_conj; [apply wp_keeps, keeps_fs_readdir, handle_discreet|].
    instantiate (1 := fun r _ => forall visits, r = Ok visits -> pictures visits = listing st p).
    unfold wp, fs_readdir. rewrite await_run. unfold fallible.
    destruct (failure (nextTick st)); cbn; [discriminate|].
    intros visits [= <-].
    change (listing (resumed handle st) p = listing st p).
    by rewrite (still_listing _ _ (resumed_Still handle st handle_discreet)). }
  cbn beta. tauto.
Qed.

Lemma fs_readdir_sub_calm st :
  wp (fs_readdir_sub handle) st (fun _ st' => Env st st' /\ Still st st').
Proof.
  apply wp_conj; [apply (fs_readdir_sub_Env handle handle_benign)|].
  apply wp_keeps, keeps_fs_readdir_sub, handle_discreet.
Qed.

(** The walk returns the pictures among its visits, in their order. *)
Lemma scanEntries_pictures visits imageFiles st :
  wp (Sharp.scanEntries handle visits imageFiles) st (fun r st' =>
    Env st st' /\ Still st st' /\
    forall found, r = Ok found -> found = imageFiles ++ pictures visits).
Proof.
  revert imageFiles st. induction visits as [|visit rest IH]; intros imageFiles st;
    cbn [Sharp.scanEntries pictures]; wp_simpl.
  - split; [apply Env_refl|]. split; [apply Still_refl|]. intros ? [= <-]. by rewrite app_nil_r.
  - destruct (isCancelled st) eqn:Ec; wp_simpl.
    { split; [apply Env_refl|]. split; [apply Still_refl | discriminate]. }
    destruct visit.
    + wp_apply IH. intros r st1 (E1 & S1 & F1). split; [exact E1|]. split; [exact S1|].
      intros found Hf. rewrite (F1 found Hf), <- app_assoc. reflexivity.
    + apply IH.
    + wp_simpl. rewrite Ec. wp_simpl. wp_apply fs_readdir_sub_calm.
      intros [[]|message] st1 [E1 S1]; wp_simpl.
      * wp_apply IH. intros r st2 (E2 & S2 & F2).
        split; [eauto using Env_trans|]. split; [eauto using Still_trans | exact F2].
      * split; [exact E1|]. split; [exact S1 | discriminate].
Qed.

Lemma scanForImages_listing folderPath st :
  wp (Sharp.scanForImages handle folderPath) st (fun r st' =>
    Env st st' /\ Still st st' /\ forall found, r = Ok found -> found = listing st folderPath).
Proof.
  unfold Sharp.scanForImages. rewrite wp_tryCatch.
  eapply wp_mono with (Q := fun r st' =>
    Env st st' /\ Still st st' /\ forall found, r = Ok found -> found = listing st folderPath).
  - wp_simpl. destruct (isCancelled st) eqn:Ec; wp_simpl.
    { split; [apply Env_refl|]. split; [apply Still_refl | discriminate]. }
    wp_apply fs_readdir_listing. intros [visits|message] st1 (E1 & S1 & F1); wp_simpl.
    + wp_apply scanEntries_pictures. intros r st2 (E2 & S2 & F2).
      split; [eauto using Env_trans|]. split; [eauto using Still_trans|].
      intros found Hf. rewrite (F2 found Hf). cbn [app]. by apply F1.
    + split; [exact E1|]. split; [exact S1 | discriminate].
  - cbn beta. intros [found|message] st1 (E1 & S1 & F1); [auto|].
    wp_simpl. wp_case; wp_simpl; (split; [exact E1|]; split; [exact S1 | discriminate]).
Qed.

End Runs.

(** X11. A run of [processImages] whose [try] block returns, returns what
    the block returned. A run whose [try] block throws, throws
    "Image processing failed: " followed by the message of that error, and
    leaves the size analyzer reset. *)
Theorem failed_run_is_wrapped (pf : platform) (inputPath : jsstring) (progressCallback : bool)
    (st : State) :
  match Sharp.processImagesTry pf (Sharp.onEvent pf) inputPath
          (Sharp.startRun progressCallback st) with
  | (Ok r, st1) =>
      Sharp.processImages pf (Sharp.onEvent pf) inputPath progressCallback st = (Ok r, st1)
  | (Throw message, _) =>
      (Sharp.processImages pf (Sharp.onEvent pf) inputPath progressCallback st).1 =
        Throw (js "Image processing failed: " ++ message) /\
      sizeAnalyzer (Sharp.processImages pf (Sharp.onEvent pf) inputPath progressCallback st).2 =
        SizeAnalyzer.mkAnalyzer None None
  end.
Proof.
  unfold Sharp.processImages. rewrite bind_run. cbn [modify]. rewrite tryCatch_run.
  destruct (Sharp.processImagesTry pf (Sharp.onEvent pf) inputPath
              (Sharp.startRun progressCallback st)) as [[r|e] st1]; [reflexivity|].
  pose proof (processImages_handler_wraps pf (Sharp.onEvent pf) (onEvent_benign pf)
                (onEvent_discreet pf) e st1) as H.
  unfold wp in H. destruct H as (H1 & H2 & _). by split.
Qed.

(** The messages of a scan that is cancelled. When the request arrives
    during the read of a folder that holds pictures, the walk sees the flag
    at its first entry; when the folder holds nothing, the walk ends
    without a check and [processImages] sees the flag. *)
Lemma cancelled_scan_messages :
  (Examples.run Examples.fresh [Examples.struck CancelRequested]).1 =
    Throw (js "Image processing failed: Folder scanning was cancelled by user") /\
  (Sharp.processImages Posix (Sharp.onEvent Posix) (js "/empty") true
     (set_script [Examples.struck CancelRequested] Scenes.emptyWorld)).1 =
    Throw (js "Image processing failed: Processing cancelled during scan").
Proof. split; vm_compute; reflexivity. Qed.

(** The same inside a walk. The album is read, then its first sub-folder,
    then its last, empty one: the scan returns the two pictures in the
    order of the walk. A request that arrives during the read of the first
    sub-folder is seen at the next entry; one that arrives during the read
    of the last sub-folder is seen by [processImages] only. *)
Lemma cancelled_walk_messages :
  (Sharp.scanForImages (Sharp.onEvent Posix) (js "/album") Scenes.albumWorld).1 =
    Ok (listing Scenes.albumWorld (js "/album")) /\
  map name (listing Scenes.albumWorld (js "/album")) = [js "a.png"; js "b.jpg"] /\
  (Sharp.processImages Posix (Sharp.onEvent Posix) (js "/album") true
     (set_script [Examples.calm; Examples.struck CancelRequested] Scenes.albumWorld)).1 =
    Throw (js "Image processing failed: Folder scanning was cancelled by user") /\
  (Sharp.processImages Posix (Sharp.onEvent Posix) (js "/album") true
     (set_script [Examples.calm; Examples.calm; Examples.struck CancelRequested]
        Scenes.albumWorld)).1 =
    Throw (js "Image processing failed: Processing cancelled during scan").
Proof. repeat split; vm_compute; reflexivity. Qed.

Import Frames Totals.

Lemma wp_still {A} (m : M A) st (Q : Res A -> State -> Prop) :
  wp m st Q -> keeps m -> wp m st (fun r st' => Q r st' /\ Still st st').
Proof. intros H K. apply wp_conj; [exact H | by apply wp_keeps]. Qed.

Lemma wp_any {A} (m : M A) st : wp m st (fun _ _ => True).
Proof. exact I. Qed.

(** When [createOutputFolder] returns a path, that path is the registered
    output path. *)
Lemma createOutputFolder_registers pf handle inputPath st :
  wp (Sharp.createOutputFolder pf handle inputPath) st (fun r st' =>
    forall out, r = Ok out -> currentOutputPath st' = Some out).
Proof.
  unfold Sharp.createOutputFolder. wp_simpl.
  destruct (isCancelled st); wp_simpl; [discriminate|].
  wp_apply (wp_any (fs_stat handle inputPath)). intros [stats|e] st1 _; [|discriminate].
  wp_simpl.
  assert (tail : forall out st2,
    wp (fs_mkdir handle out;;
        modify (set_currentOutputPath (Some out));;
        mret out) st2
      (fun r st' => forall out0, r = Ok out0 -> currentOutputPath st' = Some out0)).
  { intros out st2. wp_simpl. wp_apply (wp_any (fs_mkdir handle out)).
    intros [[]|e] st3 _; [|discriminate]. wp_simpl. by intros ? [= <-]. }
  match goal with |- wp (fs_access _ ?p) _ _ => set (base := p) end.
  wp_apply (wp_any (fs_access handle base)). intros [[]|e] st2 _.
  - rewrite wp_bind, wp_get, wp_ret. apply tail.
  - cbn beta. rewrite wp_ret. apply tail.
Qed.

Section Completed.

Variable pf : platform.
Variable handle : Ext -> State -> State.
Hypothesis handle_benign : Benign handle.
Hypothesis handle_discreet : Discreet handle.

Lemma updateProgress_calm current total percent message st :
  wp (Sharp.updateProgress current total percent message) st (fun r st' =>
    r = Ok tt /\ Env st st' /\ Still st st').
Proof.
  eapply wp_mono; [apply wp_still; [apply updateProgress_Env | apply keeps_updateProgress]|].
  cbn beta. tauto.
Qed.

Lemma measureInputSizes_calm imageFiles st :
  wp (Sharp.measureInputSizes handle imageFiles) st (fun r st' =>
    Env st st' /\
    exists d, r = Ok d /\ SizeAnalyzer.inputStats (sizeAnalyzer st') = Some d /\
              SizeAnalyzer.in_totalFiles d = Z.of_nat (length imageFiles)).
Proof.
  eapply wp_mono.
  { apply wp_conj; [apply (measureInputSizes_Env handle handle_benign)|].
    instantiate (1 := fun r st' =>
      exists d, r = Ok d /\ SizeAnalyzer.inputStats (sizeAnalyzer st') = Some d /\
                SizeAnalyzer.in_totalFiles d = Z.of_nat (length imageFiles)).
    unfold wp. destruct (measureInputSizes_measured handle imageFiles st)
      as (d & E1 & E2 & E3 & _). eauto. }
  cbn beta. tauto.
Qed.

Lemma createOutputFolder_calm inputPath st :
  currentOutputPath st = None ->
  wp (Sharp.createOutputFolder pf handle inputPath) st (fun r st' =>
    Still st st' /\ processedCount st' = processedCount st /\
    forall out, r = Ok out -> currentOutputPath st' = Some out).
Proof.
  intros Hn. eapply wp_mono.
  { apply wp_conj; [apply (createOutputFolder_spec pf handle handle_benign inputPath st Hn)|].
    apply wp_still; [apply createOutputFolder_registers|].
    apply keeps_createOutputFolder, handle_discreet. }
  cbn beta. tauto.
Qed.

Lemma processSharpSequential_calm imageFiles outputPath progressInterval st :
  wp (Sharp.processSharpSequential pf handle imageFiles outputPath progressInterval) st
    (fun r st' =>
       Still st st' /\ currentOutputPath st' = currentOutputPath st /\
       exists results,
         r = Ok results /\
         processedCount st' = (processedCount st + Z.of_nat (length results))%Z /\
         map originalOf results = map name (firstn (length results) imageFiles)).
Proof.
  eapply wp_mono.
  { apply wp_still;
      [apply (processSharpSequential_spec pf handle handle_benign)|].
    apply keeps_processSharpSequential, handle_discreet. }
  cbn beta. intros r st' [(H1 & _ & results & -> & H2 & H3) S].
  split; [exact S|]. split; [exact H1|]. exists results.
  split; [reflexivity|]. split; [exact H2 | by apply originals_of_scan].
Qed.

Lemma measureOutputSizes_calm outputPath results st :
  wp (Sharp.measureOutputSizes pf handle outputPath results) st (fun r st' =>
    Env st st' /\
    exists d, r = Ok d /\
      sizeAnalyzer st' =
        SizeAnalyzer.mkAnalyzer (SizeAnalyzer.inputStats (sizeAnalyzer st)) (Some d) /\
      (0 <= SizeAnalyzer.out_successfulFiles d
         <= Z.of_nat (length (List.filter succeeded results)))%Z).
Proof.
  eapply wp_mono.
  { apply wp_conj; [apply (measureOutputSizes_Env pf handle handle_benign)|].
    instantiate (1 := fun r st' =>
      exists d, r = Ok d /\
        sizeAnalyzer st' =
          SizeAnalyzer.mkAnalyzer (SizeAnalyzer.inputStats (sizeAnalyzer st)) (Some d) /\
        (0 <= SizeAnalyzer.out_successfulFiles d
           <= Z.of_nat (length (List.filter succeeded results)))%Z).
    destruct (measureOutputSizes_measured pf handle outputPath results st)
      as (d & E1 & _ & _ & _ & _ & E6 & E7 & _).
    unfold wp. rewrite E1. exists d. split; [reflexivity|]. split; [|lia].
    revert E1. unfold Sharp.measureOutputSizes. rewrite !bind_run.
    pose proof (wp_keeps _ st (keeps_measureOutputLoop pf handle handle_discreet outputPath
                                 results (SizeAnalyzer.mkOutputData [] 0 0 0))) as K.
    unfold wp in K.
    destruct (Sharp.measureOutputLoop pf handle outputPath results _ st) as [[d1|e] st1];
      [|discriminate].
    rewrite bind_run. cbn in K |- *. intros [= <-]. by rewrite (still_analyzer _ _ K). }
  cbn beta. tauto.
Qed.

End Completed.

Import Frames Totals.

Section RunTheorems.

Variable pf : platform.
Variable handle : Ext -> State -> State.
Hypothesis handle_benign : Benign handle.
Hypothesis handle_discreet : Discreet handle.

Lemma processImages_empty inputPath progressCallback st :
  listing st inputPath = [] ->
  wp (Sharp.processImages pf handle inputPath progressCallback) st
    (fun r st' => (exists message, r = Throw message) /\
                  created st' = created st /\ dirs st' ⊆ dirs st).
Proof.
  intros Hl. unfold Sharp.processImages, Sharp.processImagesTry, Sharp.startRun. rewrite wp_bind, wp_modify.
  set (st0 := set_tempDirectories _ _).
  change (created st) with (created st0). change (dirs st) with (dirs st0).
  assert (Hl0 : listing st0 inputPath = []) by exact Hl. clearbody st0.
  match goal with |- wp (tryCatch _ ?h) _ _ => set (handler := h) end.
  assert (caught : forall message st1, Env st0 st1 ->
            wp (handler message) st1
              (fun r st' => (exists message, r = Throw message) /\
                            created st' = created st0 /\ dirs st' ⊆ dirs st0)).
  { intros message st1 E1.
    wp_apply (processImages_handler_wraps pf handle handle_benign handle_discreet message st1).
    intros r st2 (-> & _ & Hc & Hd). split; [eauto|].
    split; [by rewrite Hc, (env_created _ _ E1)|].
    pose proof (env_dirs _ _ E1). set_solver. }
  clearbody handler. rewrite wp_tryCatch. wp_simpl.
  wp_apply updateProgress_calm. intros r st1 (-> & E1 & S1). wp_simpl.
  wp_apply (scanForImages_listing handle handle_benign handle_discreet).
  intros [found|e] st2 (E2 & S2 & F2).
  2:{ apply caught. eauto using Env_trans. }
  assert (E02 : Env st0 st2) by eauto using Env_trans.
  rewrite (F2 found eq_refl), (still_listing _ _ S1), Hl0.
  wp_simpl. destruct (isCancelled st2); wp_simpl; by apply caught.
Qed.

(** What a returned result says, in terms of the state the run started
    from and the state it ends in. *)
Lemma processImages_completed inputPath progressCallback st :
  wp (Sharp.processImages pf handle inputPath progressCallback) st
    (fun r st' => forall run, r = Ok run ->
       Sharp.totalFiles run = Z.of_nat (length (listing st inputPath)) /\
       listing st inputPath <> [] /\
       map originalOf (Sharp.results run) =
         map name (firstn (length (Sharp.results run)) (listing st inputPath)) /\
       Sharp.processedFiles run =
         Z.of_nat (length (List.filter succeeded (Sharp.results run))) /\
       processedCount st' = Z.of_nat (length (Sharp.results run)) /\
       currentOutputPath st' = Some (Sharp.outputPath run) /\
       SizeAnalyzer.inputFiles (Sharp.compressionStats run) = Sharp.totalFiles run /\
       (0 <= SizeAnalyzer.outputFiles (Sharp.compressionStats run)
          <= Sharp.processedFiles run)%Z /\
       SizeAnalyzer.failedFiles (Sharp.compressionStats run) =
         (Sharp.totalFiles run - SizeAnalyzer.outputFiles (Sharp.compressionStats run))%Z).
Proof.
  unfold Sharp.processImages, Sharp.processImagesTry, Sharp.startRun. rewrite wp_bind, wp_modify.
  set (st0 := set_tempDirectories _ _).
  change (listing st inputPath) with (listing st0 inputPath).
  assert (Hout0 : currentOutputPath st0 = None) by reflexivity.
  assert (Hc0 : processedCount st0 = 0%Z) by reflexivity.
  clearbody st0. clear st.
  match goal with |- wp (tryCatch _ ?h) _ ?Q => set (handler := h); set (post := Q) end.
  assert (caught : forall message st1, wp (handler message) st1 post).
  { intros message st1.
    wp_apply (processImages_handler_wraps pf handle handle_benign handle_discreet message st1).
    intros r st2 (-> & _). unfold post. discriminate. }
  clearbody handler. rewrite wp_tryCatch. wp_simpl.
  wp_apply updateProgress_calm. intros r st1 (-> & E1 & S1). wp_simpl.
  wp_apply (scanForImages_listing handle handle_benign handle_discreet).
  intros [imageFiles|e] st2 (E2 & S2 & F2); [|apply caught].
  assert (Hfiles : imageFiles = listing st0 inputPath)
    by (rewrite (F2 imageFiles eq_refl), (still_listing _ _ S1); reflexivity).
  wp_simpl. destruct (isCancelled st2); wp_simpl; [apply caught|].
  destruct (length imageFiles =? 0)%nat eqn:Elen; wp_simpl; [apply caught|].
  wp_apply updateProgress_calm. intros r st3 (-> & E3 & S3). wp_simpl.
  wp_apply (measureInputSizes_calm handle handle_benign).
  intros r st4 (E4 & d & -> & Hin & Htot). wp_simpl.
  destruct (isCancelled st4); wp_simpl; [apply caught|].
  wp_apply updateProgress_calm. intros r st5 (-> & E5 & S5). wp_simpl.
  assert (E05 : Env st0 st5) by eauto 6 using Env_trans.
  wp_apply (createOutputFolder_calm pf handle handle_benign handle_discreet inputPath st5).
  { rewrite (env_out _ _ E05). exact Hout0. }
  intros [outputPath|e] st6 (S6 & C6 & O6); [|apply caught].
  specialize (O6 outputPath eq_refl).
  wp_simpl. destruct (isCancelled st6); wp_simpl; [apply caught|].
  wp_apply (processSharpSequential_calm pf handle handle_benign handle_discreet).
  intros r st7 (S7 & O7 & results & -> & C7 & R7). wp_simpl.
  destruct (isCancelled st7).
  { wp_simpl. wp_apply (performCleanup_calm pf handle handle_benign handle_discreet).
    intros r st8 _. destruct r as [[]|e]; wp_simpl; apply caught. }
  wp_simpl. wp_apply updateProgress_calm. intros r st8 (-> & E8 & S8). wp_simpl.
  wp_apply (measureOutputSizes_calm pf handle handle_benign handle_discreet).
  intros r st9 (E9 & o & -> & A9 & B9). wp_simpl.
  unfold Sharp.calculateStats. unfold wp at 1. cbn [fst snd].
  assert (Hin9 : SizeAnalyzer.inputStats (sizeAnalyzer st8) = Some d).
  { rewrite (still_analyzer _ _ S8), (still_analyzer _ _ S7), (still_analyzer _ _ S6),
      (still_analyzer _ _ S5). exact Hin. }
  rewrite A9, Hin9. cbn [SizeAnalyzer.calculateStats SizeAnalyzer.inputStats
                          SizeAnalyzer.outputStats].
  wp_simpl. unfold post. intros run [= <-].
  cbn [Sharp.totalFiles Sharp.results Sharp.processedFiles Sharp.outputPath
       Sharp.compressionStats SizeAnalyzer.inputFiles SizeAnalyzer.outputFiles
       SizeAnalyzer.failedFiles].
  subst imageFiles.
  split; [reflexivity|]. split.
  { intros Hnil. rewrite Hnil in Elen. discriminate Elen. }
  split; [exact R7|]. split; [reflexivity|]. split.
  { rewrite (env_count _ _ E9), (env_count _ _ E8), C7, C6, (env_count _ _ E05), Hc0. lia. }
  split.
  { by rewrite (env_out _ _ E9), (env_out _ _ E8), O7. }
  split; [exact Htot|]. split; [exact B9|]. by rewrite Htot.
Qed.

End RunTheorems.

(** X12. On a folder in which the scan finds no supported image, the run
    never returns a result, and it creates no directory, whatever happens
    around it. *)
Theorem empty_folder_creates_nothing (pf : platform) (inputPath : jsstring)
    (progressCallback : bool) (st : State) :
  listing st inputPath = [] ->
  (exists message,
     (Sharp.processImages pf (Sharp.onEvent pf) inputPath progressCallback st).1 =
       Throw message) /\
  created (Sharp.processImages pf (Sharp.onEvent pf) inputPath progressCallback st).2 =
    created st /\
  dirs (Sharp.processImages pf (Sharp.onEvent pf) inputPath progressCallback st).2 ⊆ dirs st.
Proof.
  intros Hl.
  exact (processImages_empty pf (Sharp.onEvent pf) (onEvent_benign pf) (onEvent_discreet pf)
           inputPath progressCallback st Hl).
Qed.


Import Frames Totals.

Lemma empty_folder_creates_nothing_witness :
  listing Scenes.emptyWorld (js "/empty") = [] /\
  (Sharp.processImages Posix (Sharp.onEvent Posix) (js "/empty") true Scenes.emptyWorld).1 =
    Throw (js "Image processing failed: No supported image files found in the selected folder. Supported formats: JPG, PNG, GIF, SVG, TIFF, BMP") /\
  created (Sharp.processImages Posix (Sharp.onEvent Posix) (js "/empty") true
             Scenes.emptyWorld).2 = created Scenes.emptyWorld.
Proof.
  assert (H : listing Scenes.emptyWorld (js "/empty") = []) by reflexivity.
  destruct (empty_folder_creates_nothing Posix (js "/empty") true Scenes.emptyWorld H)
    as (_ & Hc & _).
  split; [exact H|]. split; [vm_compute; reflexivity | exact Hc].
Defined.


(** What a call of [cancel()] does, whatever the handler of the events
    that arrive during its awaits. *)
Lemma cancel_effect pf handle st :
  Benign handle -> Discreet handle ->
  (Sharp.cancel pf handle st).1 = Ok tt /\
  isCancelled (Sharp.cancel pf handle st).2 = true /\
  dirs (Sharp.cancel pf handle st).2 ⊆ dirs st /\
  created (Sharp.cancel pf handle st).2 = created st /\
  processedCount (Sharp.cancel pf handle st).2 = processedCount st /\
  tempDirectories (Sharp.cancel pf handle st).2 = tempDirectories st /\
  currentOutputPath (Sharp.cancel pf handle st).2 = currentOutputPath st /\
  sizeAnalyzer (Sharp.cancel pf handle st).2 = sizeAnalyzer st /\
  (rejected (Sharp.cancel pf handle st).2 = rejected st ->
   (forall t, t ∈ tempDirectories st -> t ∉ dirs (Sharp.cancel pf handle st).2) /\
   (processedCount st = 0%Z ->
    forall out, currentOutputPath st = Some out -> out <> [] ->
                out ∉ dirs (Sharp.cancel pf handle st).2)).
Proof.
  intros Hb Hd.
  pose proof (keeps_cancel pf handle Hd st st (Still_refl st)) as HS. unfold wp in HS.
  destruct (cancel_run pf handle Hb st) as (st' & E & Env' & C).
  rewrite E in *. cbn [fst snd] in *.
  split; [reflexivity|].
  split; [apply (env_flag _ _ Env'); reflexivity|].
  split; [apply (env_dirs _ _ Env')|].
  split; [apply (env_created _ _ Env')|].
  split; [apply (env_count _ _ Env')|].
  split; [apply (env_temps _ _ Env')|].
  split; [apply (env_out _ _ Env')|].
  split; [apply (still_analyzer _ _ HS)|].
  intros Hr. destruct (C Hr) as [Ct Co]. split.
  - intros t Ht. apply Ct. rewrite (env_temps _ _ Env'). exact Ht.
  - intros Hz out Ho Hne. apply (Co); [|by rewrite (env_out _ _ Env')|exact Hne].
    by rewrite (env_count _ _ Env').
Qed.

(** X14. A call of [cancel()] never fails, whatever happens during its
    awaits: events handled, removals rejected. It raises the flag, creates
    nothing and leaves no folder that was not there, and it leaves the
    counter, the registered paths and the measurements as they are. When
    [fs.rm] has rejected none of its removals, no registered staging
    directory exists afterwards, nor the registered output directory when
    the counter stands at zero; a rejected removal is caught, and that
    directory may stay. *)
Theorem cancel_request_effect (pf : platform) (st : State) :
  (Sharp.cancel pf (Sharp.onEvent pf) st).1 = Ok tt /\
  isCancelled (Sharp.cancel pf (Sharp.onEvent pf) st).2 = true /\
  dirs (Sharp.cancel pf (Sharp.onEvent pf) st).2 ⊆ dirs st /\
  created (Sharp.cancel pf (Sharp.onEvent pf) st).2 = created st /\
  processedCount (Sharp.cancel pf (Sharp.onEvent pf) st).2 = processedCount st /\
  tempDirectories (Sharp.cancel pf (Sharp.onEvent pf) st).2 = tempDirectories st /\
  currentOutputPath (Sharp.cancel pf (Sharp.onEvent pf) st).2 = currentOutputPath st /\
  sizeAnalyzer (Sharp.cancel pf (Sharp.onEvent pf) st).2 = sizeAnalyzer st /\
  (rejected (Sharp.cancel pf (Sharp.onEvent pf) st).2 = rejected st ->
   (forall t, t ∈ tempDirectories st -> t ∉ dirs (Sharp.cancel pf (Sharp.onEvent pf) st).2) /\
   (processedCount st = 0%Z ->
    forall out, currentOutputPath st = Some out -> out <> [] ->
                out ∉ dirs (Sharp.cancel pf (Sharp.onEvent pf) st).2)).
Proof.
  exact (cancel_effect pf (Sharp.onEvent pf) st (onEvent_benign pf) (onEvent_discreet pf)).
Qed.

(** A call of [cancel()] whose one removal is rejected: the call returns,
    the flag is up, and the staging directory is still there. *)
Lemma cancel_rejected_keeps_staging_directory :
  let st := set_tempDirectories [js "/stage"]
              (set_dirs {[ js "/stage" ]} (Examples.fresh [Examples.failed Examples.busy])) in
  (Sharp.cancel Posix (Sharp.onEvent Posix) st).1 = Ok tt /\
  isCancelled (Sharp.cancel Posix (Sharp.onEvent Posix) st).2 = true /\
  rejected (Sharp.cancel Posix (Sharp.onEvent Posix) st).2 = [js "/stage"] /\
  bool_decide (js "/stage" ∈ dirs (Sharp.cancel Posix (Sharp.onEvent Posix) st).2) = true.
Proof. repeat split; vm_compute; reflexivity. Qed.

(** The same holds of a cancellation request that arrives as an event,
    with the outcomes the event gives to its removals. *)
Lemma cancel_event_effect pf rejections st :
  let st1 := Sharp.onEvent pf (CancelHindered rejections) st in
  isCancelled st1 = true /\ dirs st1 ⊆ dirs st /\ created st1 = created st /\
  processedCount st1 = processedCount st /\ tempDirectories st1 = tempDirectories st /\
  currentOutputPath st1 = currentOutputPath st /\ sizeAnalyzer st1 = sizeAnalyzer st /\
  script st1 = script st /\
  (rejected st1 = rejected st -> forall t, t ∈ tempDirectories st -> t ∉ dirs st1).
Proof.
  intros st1. unfold st1. cbn [Sharp.onEvent].
  destruct (cancel_effect pf Sharp.quiet (set_script (Sharp.hindrances rejections) st)
              quiet_benign quiet_discreet) as (_ & H1 & H2 & H3 & H4 & H5 & H6 & H7 & H8).
  repeat split; try assumption.
  intros Hr. apply (proj1 (H8 Hr)).
Qed.

(** ** Conversions *)

Import Quiet Frames.

Lemma sharp_toFile_uneventful handle src settings dst st :
  uneventful st ->
  Sharp.sharp_toFile handle src settings dst st =
  (Ok tt, set_files (<[dst := bytes (nextTick st)]> (files st)) (advanced st)).
Proof.
  intros H. unfold Sharp.sharp_toFile. rewrite (await_uneventful handle _ st H).
  unfold fallible. by rewrite (nextTick_uneventful st H).
Qed.

Lemma processSharpClean_uneventful pf handle file outputPath st :
  uneventful st -> isCancelled st = false ->
  Sharp.processSharpClean pf handle file outputPath st =
  (Ok (Success (name file)
         (basename pf (name file) (extname pf (name file)) ++ js ".webp")
         (Some (join pf [outputPath;
                         basename pf (name file) (extname pf (name file)) ++ js ".webp"]))),
   set_files (<[join pf [outputPath;
                         basename pf (name file) (extname pf (name file)) ++ js ".webp"]
                := bytes (nextTick st)]> (files st)) (advanced st)).
Proof.
  intros Hu Hc. unfold Sharp.processSharpClean.
  rewrite tryCatch_run, bind_run. cbn [gets]. rewrite Hc.
  rewrite bind_run, (sharp_toFile_uneventful handle _ _ _ st Hu).
  rewrite bind_run. cbn [gets]. change (isCancelled (set_files _ (advanced st))) with (isCancelled st).
  rewrite Hc. reflexivity.
Qed.

(** X15. The output file is named after the base name alone. When nothing
    disturbs the conversions and the processor is not cancelled, two
    pictures whose names have the same base (the same name in two
    sub-folders, or names that differ in the extension only) are converted
    to the same path: both conversions succeed, and the file holds what the
    second one wrote. *)
Theorem same_base_overwrites (pf : platform) (handle : Ext -> State -> State)
    (first second : ImageFile) (outputPath : jsstring) (st : State) :
  let webp := basename pf (name first) (extname pf (name first)) ++ js ".webp" in
  let target := join pf [outputPath; webp] in
  uneventful st -> isCancelled st = false ->
  basename pf (name first) (extname pf (name first)) =
    basename pf (name second) (extname pf (name second)) ->
  exists st1 st2,
    Sharp.processSharpClean pf handle first outputPath st =
      (Ok (Success (name first) webp (Some target)), st1) /\
    Sharp.processSharpClean pf handle second outputPath st1 =
      (Ok (Success (name second) webp (Some target)), st2) /\
    files st1 = <[target := bytes (nextTick st)]> (files st) /\
    files st2 = <[target := bytes (nextTick (advanced st))]> (files st).
Proof.
  intros webp target Hu Hc Hb.
  eexists _, _. split; [apply (processSharpClean_uneventful pf handle first outputPath st Hu Hc)|].
  match goal with |- Sharp.processSharpClean _ _ _ _ ?s = _ /\ _ => set (st1 := s) end.
  assert (Hu1 : uneventful st1)
    by (apply (uneventful_script (advanced st)); [reflexivity | by apply uneventful_advanced]).
  rewrite (processSharpClean_uneventful pf handle second outputPath st1 Hu1 Hc), <- Hb.
  split; [reflexivity|]. split; [reflexivity|]. apply insert_insert_eq.
Qed.

Lemma same_base_overwrites_witness :
  uneventful (Examples.underway [Examples.wrote 400; Examples.wrote 800]) /\
  exists st1 st2,
    Sharp.processSharpClean Posix Sharp.quiet (Examples.photo "a.png") Examples.outputDir
      (Examples.underway [Examples.wrote 400; Examples.wrote 800]) =
      (Ok (Success (js "a.png") (js "a.webp") (Some (js "/photos_compressed/a.webp"))), st1) /\
    Sharp.processSharpClean Posix Sharp.quiet
      (mkImageFile (js "a.jpg") (js "/photos/old/a.jpg") (js ".jpg") (js "old/a.jpg"))
      Examples.outputDir st1 =
      (Ok (Success (js "a.jpg") (js "a.webp") (Some (js "/photos_compressed/a.webp"))), st2) /\
    files st2 !! js "/photos_compressed/a.webp" = Some 800%Z.
Proof.
  assert (Hu : uneventful (Examples.underway [Examples.wrote 400; Examples.wrote 800]))
    by (repeat constructor).
  split; [exact Hu|].
  destruct (same_base_overwrites Posix Sharp.quiet (Examples.photo "a.png")
              (mkImageFile (js "a.jpg") (js "/photos/old/a.jpg") (js ".jpg") (js "old/a.jpg"))
              Examples.outputDir _ Hu eq_refl)
    as (st1 & st2 & E1 & E2 & F1 & F2).
  { vm_compute. reflexivity. }
  exists st1, st2. split; [|split].
  - etransitivity; [exact E1|]. vm_compute. reflexivity.
  - etransitivity; [exact E2|]. vm_compute. reflexivity.
  - rewrite F2.
    replace (js "/photos_compressed/a.webp")
      with (join Posix [Examples.outputDir;
                        basename Posix (name (Examples.photo "a.png"))
                          (extname Posix (name (Examples.photo "a.png"))) ++ js ".webp"])
      by (vm_compute; reflexivity).
    rewrite lookup_insert_eq. vm_compute. reflexivity.
Defined.

Import Quiet Frames.

Ltac wp_skip := eapply wp_mono; [apply wp_any|]; cbn beta.

Lemma processSharpClean_success pf handle file outputPath st :
  wp (Sharp.processSharpClean pf handle file outputPath) st (fun r st' =>
    forall a, r = Ok a ->
      isCancelled st' = false /\
      a = Success (name file)
            (basename pf (name file) (extname pf (name file)) ++ js ".webp")
            (Some (join pf [outputPath;
                            basename pf (name file) (extname pf (name file)) ++ js ".webp"]))).
Proof.
  unfold Sharp.processSharpClean. wp_simpl.
  assert (rethrown : forall e st1,
    wp (c ← gets isCancelled;
        if c || includes e (js "cancelled") then throw e
        else if includes e (js "Input file is missing")
        then throw (js "File not found: " ++ name file)
        else if includes e (js "Input file contains unsupported image format")
        then throw (js "Unsupported format in " ++ name file)
        else if includes e (js "Input image exceeds pixel limit")
        then throw (js "Image too large: " ++ name file)
        else throw (js "Sharp processing failed for " ++ name file ++ js ": " ++ e)) st1
      (fun (r : Res ProcessingResult) st' => forall a, r = Ok a ->
         isCancelled st' = false /\
         a = Success (name file)
               (basename pf (name file) (extname pf (name file)) ++ js ".webp")
               (Some (join pf [outputPath;
                               basename pf (name file) (extname pf (name file)) ++ js ".webp"])))).
  { intros e st1. wp_simpl. repeat wp_case; wp_simpl; discriminate. }
  destruct (isCancelled st) eqn:Ec.
  - wp_simpl. apply rethrown.
  - wp_simpl. wp_skip.
    intros [[]|e] st1 _; [|apply rethrown].
    wp_simpl. destruct (isCancelled st1) eqn:Ec1.
    + wp_simpl. wp_skip.
      intros [[]|e] st2 _; wp_simpl; apply rethrown.
    + wp_simpl. intros a [= <-]. by split.
Qed.

Lemma processSharpSanitized_success pf handle file outputPath tempDir st :
  wp (Sharp.processSharpSanitized pf handle file outputPath tempDir) st (fun r st' =>
    forall a, r = Ok a ->
      isCancelled st' = false /\
      a = Success (name file)
            (basename pf (name file) (extname pf (name file)) ++ js ".webp")
            (Some (join pf [outputPath;
                            basename pf (name file) (extname pf (name file)) ++ js ".webp"]))).
Proof.
  unfold Sharp.processSharpSanitized. wp_simpl.
  assert (rethrown : forall e st1,
    wp (c ← gets isCancelled;
        if c || includes e (js "cancelled") then throw e
        else throw (js "Sharp sanitized processing failed for " ++ name file ++ js ": " ++ e))
      st1
      (fun (r : Res ProcessingResult) st' => forall a, r = Ok a ->
         isCancelled st' = false /\
         a = Success (name file)
               (basename pf (name file) (extname pf (name file)) ++ js ".webp")
               (Some (join pf [outputPath;
                               basename pf (name file) (extname pf (name file)) ++ js ".webp"])))).
  { intros e st1. wp_simpl. repeat wp_case; wp_simpl; discriminate. }
  destruct (isCancelled st) eqn:Ec.
  - wp_simpl. apply rethrown.
  - wp_simpl. wp_skip.
    intros [[]|e] st1 _; [|apply rethrown].
    wp_simpl. wp_skip.
    intros [[]|e] st2 _; [|apply rethrown].
    wp_simpl. wp_skip.
    assert (tail : forall st3,
      wp (c ← gets isCancelled;
          if c : bool then
            tryCatch (fs_unlink handle
                        (join pf [outputPath;
                                  basename pf (name file) (extname pf (name file)) ++ js ".webp"]))
              (fun _ => mret tt);;
            throw (js "Processing cancelled after sanitized Sharp processing")
          else mret (Success (name file)
                       (basename pf (name file) (extname pf (name file)) ++ js ".webp")
                       (Some (join pf [outputPath;
                                       basename pf (name file) (extname pf (name file)) ++
                                       js ".webp"]))))
         st3
         (fun r st' =>
            match r with
            | Ok a => forall a0, Ok a = Ok a0 ->
                isCancelled st' = false /\
                a0 = Success (name file)
                       (basename pf (name file) (extname pf (name file)) ++ js ".webp")
                       (Some (join pf [outputPath;
                                       basename pf (name file) (extname pf (name file)) ++
                                       js ".webp"]))
            | Throw e =>
                wp (c ← gets isCancelled;
                    if c || includes e (js "cancelled") then throw e
                    else throw (js "Sharp sanitized processing failed for " ++ name file ++
                                js ": " ++ e))
                  st'
                  (fun (r : Res ProcessingResult) st'' => forall a, r = Ok a ->
                     isCancelled st'' = false /\
                     a = Success (name file)
                           (basename pf (name file) (extname pf (name file)) ++ js ".webp")
                           (Some (join pf [outputPath;
                                           basename pf (name file) (extname pf (name file)) ++
                                           js ".webp"])))
            end)).
    { intros st3. wp_simpl. destruct (isCancelled st3) eqn:Ec3.
      - wp_simpl. wp_skip.
        intros [[]|e] st4 _; wp_simpl; apply rethrown.
      - wp_simpl. intros a [= <-]. by split. }
    intros [[]|e] st3 _; wp_simpl; apply tail.
Qed.

(** X16. Whichever way a file is converted, a success is reported only
    when the flag of cancellation is down at that moment; it names the
    original file, and the compressed file has the original's base name
    with [.webp], directly inside the output folder. *)
Theorem conversion_success_shape (pf : platform) (handle : Ext -> State -> State)
    (file : ImageFile) (outputPath tempDir : jsstring) (st : State)
    (result : ProcessingResult) (st' : State) :
  Sharp.processSharpClean pf handle file outputPath st = (Ok result, st') \/
  Sharp.processSharpSanitized pf handle file outputPath tempDir st = (Ok result, st') ->
  isCancelled st' = false /\
  result = Success (name file)
             (basename pf (name file) (extname pf (name file)) ++ js ".webp")
             (Some (join pf [outputPath;
                             basename pf (name file) (extname pf (name file)) ++ js ".webp"])).
Proof.
  intros [H|H].
  - pose proof (processSharpClean_success pf handle file outputPath st) as W.
    unfold wp in W. rewrite H in W. by apply W.
  - pose proof (processSharpSanitized_success pf handle file outputPath tempDir st) as W.
    unfold wp in W. rewrite H in W. by apply W.
Qed.

Lemma conversion_success_shape_witness :
  let file := Examples.photo "a.png" in
  let st := Examples.underway [Examples.wrote 400] in
  let result := Success (js "a.png") (js "a.webp") (Some (js "/photos_compressed/a.webp")) in
  let st' := (Sharp.processSharpClean Posix Sharp.quiet file Examples.outputDir st).2 in
  (Sharp.processSharpClean Posix Sharp.quiet file Examples.outputDir st = (Ok result, st') \/
   Sharp.processSharpSanitized Posix Sharp.quiet file Examples.outputDir [] st =
     (Ok result, st')) /\
  isCancelled st' = false /\
  result = Success (name file)
             (basename Posix (name file) (extname Posix (name file)) ++ js ".webp")
             (Some (join Posix [Examples.outputDir;
                                basename Posix (name file) (extname Posix (name file)) ++
                                js ".webp"])).
Proof.
  intros file st result st'.
  assert (H : Sharp.processSharpClean Posix Sharp.quiet file Examples.outputDir st =
                (Ok result, st') \/
              Sharp.processSharpSanitized Posix Sharp.quiet file Examples.outputDir [] st =
                (Ok result, st'))
    by (left; vm_compute; reflexivity).
  split; [exact H|].
  exact (conversion_success_shape Posix Sharp.quiet file Examples.outputDir [] st result st' H).
Defined.

Import Quiet Frames.

Lemma fs_stat_uneventful handle p st :
  uneventful st ->
  fs_stat handle p st =
  (if bool_decide (p ∈ dirs st) then Ok (mkStats 0 true)
   else match files st !! p with
        | Some n => Ok (mkStats n false)
        | None => Throw ENOENT
        end, advanced st).
Proof.
  intros H. unfold fs_stat. rewrite (await_uneventful handle _ st H).
  unfold fallible. rewrite (nextTick_uneventful st H), bind_run. cbn [get].
  change (dirs (advanced st)) with (dirs st). change (files (advanced st)) with (files st).
  destruct (bool_decide (p ∈ dirs st)); [reflexivity|].
  by destruct (files st !! p).
Qed.

Lemma fs_access_uneventful handle p st :
  uneventful st ->
  fs_access handle p st =
  (if pathExists p st then Ok tt else Throw ENOENT, advanced st).
Proof.
  intros H. unfold fs_access. rewrite (await_uneventful handle _ st H), bind_run.
  cbn [gets]. change (pathExists p (advanced st)) with (pathExists p st).
  by destruct (pathExists p st).
Qed.

Lemma createOutputFolder_uneventful pf handle inputPath st :
  let preferred :=
    if bool_decide (inputPath ∈ dirs st)
    then join pf [dirname pf inputPath; basename pf inputPath [] ++ js "_compressed"]
    else join pf [dirname pf inputPath; js "compressed_images"] in
  let chosen :=
    if pathExists preferred st then preferred ++ js "_" ++ Sharp.timestamp st
    else preferred in
  uneventful st -> isCancelled st = false -> pathExists inputPath st = true ->
  Sharp.createOutputFolder pf handle inputPath st =
    (Ok chosen,
     set_currentOutputPath (Some chosen) (made chosen (advanced (advanced (advanced st))))).
Proof.
  intros preferred chosen Hu Hc He.
  pose proof (uneventful_advanced st Hu) as Hu1.
  pose proof (uneventful_advanced _ Hu1) as Hu2.
  unfold Sharp.createOutputFolder. rewrite bind_run. cbn [gets]. rewrite Hc.
  rewrite bind_run, (fs_stat_uneventful handle inputPath st Hu).
  assert (Hs : exists n,
    (if bool_decide (inputPath ∈ dirs st) then Ok (mkStats 0 true)
     else match files st !! inputPath with
          | Some n => Ok (mkStats n false)
          | None => Throw ENOENT
          end) = Ok (mkStats n (bool_decide (inputPath ∈ dirs st)))).
  { unfold pathExists in He. destruct (bool_decide (inputPath ∈ dirs st)); [by exists 0%Z|].
    cbn in He. apply bool_decide_eq_true_1 in He as [n Hn]. rewrite Hn. by exists n. }
  destruct Hs as [n ->]. cbn [st_isDirectory]. fold preferred.
  rewrite bind_run, tryCatch_run, bind_run, (fs_access_uneventful handle preferred _ Hu1).
  change (pathExists preferred (advanced st)) with (pathExists preferred st).
  subst chosen. destruct (pathExists preferred st).
  - rewrite bind_run. cbn [get]. cbn [mret M_ret].
    change (Sharp.timestamp (advanced (advanced st))) with (Sharp.timestamp st).
    rewrite bind_run, (fs_mkdir_uneventful handle _ _ Hu2). reflexivity.
  - cbn [mret M_ret]. rewrite bind_run, (fs_mkdir_uneventful handle _ _ Hu2). reflexivity.
Qed.

(** X17. With nothing interfering and the processor not cancelled, the
    output folder of an existing input is made next to it: [<folder>_compressed] for a folder,
    [compressed_images] for a single file; when that path is already
    taken, the time stamp is appended (and that second name is not
    checked).  The folder is created, registered as the current output
    path, and no file is touched. *)
Theorem output_folder_name (pf : platform) (handle : Ext -> State -> State)
    (inputPath : jsstring) (st : State) :
  let preferred :=
    if bool_decide (inputPath ∈ dirs st)
    then join pf [dirname pf inputPath; basename pf inputPath [] ++ js "_compressed"]
    else join pf [dirname pf inputPath; js "compressed_images"] in
  let chosen :=
    if pathExists preferred st then preferred ++ js "_" ++ Sharp.timestamp st
    else preferred in
  uneventful st -> isCancelled st = false -> pathExists inputPath st = true ->
  exists st',
    Sharp.createOutputFolder pf handle inputPath st = (Ok chosen, st') /\
    dirs st' = {[chosen]} ∪ dirs st /\
    files st' = files st /\
    created st' = created st ++ [chosen] /\
    currentOutputPath st' = Some chosen.
Proof.
  intros preferred chosen Hu Hc He. eexists. split.
  - apply (createOutputFolder_uneventful pf handle inputPath st Hu Hc He).
  - by repeat split.
Qed.

Lemma output_folder_name_witness :
  let st := set_dirs ({[Examples.outputDir]} ∪ Examples.dirs0) (Examples.fresh []) in
  let chosen := js "/photos_compressed_2026-11-03T07-05-00" in
  (uneventful st /\ isCancelled st = false /\ pathExists (js "/photos") st = true) /\
  exists st',
    Sharp.createOutputFolder Posix Sharp.quiet (js "/photos") st = (Ok chosen, st') /\
    created st' = [chosen].
Proof.
  intros st chosen.
  assert (Hu : uneventful st) by constructor.
  assert (He : pathExists (js "/photos") st = true) by (vm_compute; reflexivity).
  split; [by repeat split|].
  destruct (output_folder_name Posix Sharp.quiet (js "/photos") st Hu eq_refl He)
    as (st' & E & _ & _ & C & _).
  exists st'. split.
  - etransitivity; [exact E|]. f_equal; vm_compute; reflexivity.
  - etransitivity; [exact C|]. vm_compute. reflexivity.
Defined.

Lemma Qceiling_sixtieth (s : Z) : (60 < s)%Z -> (2 <= Qceiling (inject_Z s / 60))%Z.
Proof.
  intros H. change 2%Z with (Qceiling (61 # 60)).
  apply Qceiling_resp_le. unfold Qle, Qdiv, Qmult, Qinv, inject_Z. cbn. lia.
Qed.

(** X18. [calculateETA] leaves the processor as it is and answers with one
    of five messages after the bullet: a number of seconds is shown only
    from 6 to 60, a number of minutes only from 2 upwards. *)
Theorem calculateETA_messages (totalFiles : Z) (st : State) :
  exists message,
    Sharp.calculateETA totalFiles st = (Ok (Sharp.bullet ++ message), st) /\
    (message = js "calculating time..." \/
     message = js "finishing..." \/
     message = js "almost done..." \/
     (exists seconds, (6 <= seconds <= 60)%Z /\
        message = js "~" ++ Sharp.showZ seconds ++ js "s remaining") \/
     (exists minutes, (2 <= minutes)%Z /\
        message = js "~" ++ Sharp.showZ minutes ++ js "min remaining")).
Proof.
  unfold Sharp.calculateETA. rewrite bind_run. cbn [get].
  destruct ((processedCount st =? 0)%Z || _ || isCancelled st).
  { eexists. split; [reflexivity|]. by left. }
  destruct (totalFiles - processedCount st <=? 0)%Z.
  { eexists. split; [reflexivity|]. right. by left. }
  set (seconds := Qceiling _).
  destruct (60 <? seconds)%Z eqn:E60.
  { eexists. split; [reflexivity|]. do 4 right. eexists. split; [|reflexivity].
    apply Qceiling_sixtieth. lia. }
  destruct (5 <? seconds)%Z eqn:E5.
  { eexists. split; [reflexivity|]. do 3 right. left. exists seconds.
    split; [lia|reflexivity]. }
  eexists. split; [reflexivity|]. right. right. by left.
Qed.

(** ** Runs that nothing disturbs *)

Import Quiet Frames.

Lemma wp_run {A} (m : M A) st r st' (Q : Res A -> State -> Prop) :
  m st = (r, st') -> Q r st' -> wp m st Q.
Proof. unfold wp. by intros ->. Qed.

Lemma Onward_refl st : Onward st st.
Proof. split; try reflexivity; [by exists 0%nat | auto]. Qed.

Lemma Onward_trans st1 st2 st3 : Onward st1 st2 -> Onward st2 st3 -> Onward st1 st3.
Proof.
  intros [] []. split; try congruence; [|auto].
  destruct onward_script0 as [n Hn], onward_script1 as [m Hm].
  exists (n + m)%nat. by rewrite Hm, Hn, drop_drop.
Qed.

Lemma Onward_advanced st : Onward st (advanced st).
Proof.
  split; try reflexivity; [|auto].
  exists 1%nat. cbn. by destruct (script st).
Qed.

Lemma Onward_uneventful st st' : Onward st st' -> uneventful st -> uneventful st'.
Proof.
  intros [_ [n Hn] _ _ _ _ _ _ _ _ _ _]. unfold uneventful. rewrite Hn.
  apply Forall_drop.
Qed.

Lemma calculateETA_run totalFiles st :
  exists message, Sharp.calculateETA totalFiles st = (Ok message, st).
Proof.
  unfold Sharp.calculateETA. rewrite bind_run. cbn [get].
  repeat match goal with
         | |- context [if ?b then _ else _] => destruct b
         end; eexists; reflexivity.
Qed.

Lemma updateProgress_onward current total percent message st :
  exists st', Sharp.updateProgress current total percent message st = (Ok tt, st') /\
              Onward st st' /\ files st' = files st /\
              processedCount st' = processedCount st.
Proof.
  unfold Sharp.updateProgress. rewrite bind_run. cbn [get].
  destruct (progressCallback st && negb (isCancelled st)).
  - eexists. split; [reflexivity|]. split; [|by split].
    split; try reflexivity; [by exists 0%nat | auto].
  - exists st. split; [reflexivity|]. split; [apply Onward_refl | by split].
Qed.

Lemma updateProcessingStats_run processingTime st :
  exists average,
    Sharp.updateProcessingStats processingTime st =
      (Ok tt, set_avgProcessingTime average st).
Proof.
  unfold Sharp.updateProcessingStats, modify.
  destruct (processedCount st =? 0)%Z; eexists; reflexivity.
Qed.

Section Undisturbed.

Variable pf : platform.
Variable handle : Ext -> State -> State.

Lemma processFile_undisturbed outputPath tempDir count file tempDirCreated results st :
  uneventful st -> isCancelled st = false -> outputPath ∈ dirs st ->
  Sharp.needsSanitization (name file) = false ->
  exists st',
    Sharp.processFile pf handle outputPath tempDir count file tempDirCreated results st =
      (Ok (Sharp.Next tempDirCreated (results ++ [converted pf outputPath file])), st') /\
    Onward st st' /\
    processedCount st' = (processedCount st + 1)%Z /\
    is_Some (files st' !! join pf [outputPath;
                                  basename pf (name file) (extname pf (name file)) ++
                                  js ".webp"]).
Proof.
  intros Hu Hc Hd Hn.
  pose proof (uneventful_advanced st Hu) as Hu1.
  assert (Hp : pathExists outputPath st = true).
  { unfold pathExists. by rewrite (bool_decide_eq_true_2 _ Hd). }
  unfold Sharp.processFile. rewrite bind_run. cbn [gets]. rewrite Hc.
  rewrite bind_run. cbn [gets]. rewrite bind_run.
  unfold Sharp.prepareFile. rewrite tryCatch_run, bind_run. cbn [gets]. rewrite Hc.
  rewrite bind_run, tryCatch_run, (fs_access_uneventful handle outputPath st Hu), Hp, Hn.
  cbn [mret M_ret].
  unfold Sharp.convertFile. rewrite tryCatch_run, bind_run, Hn.
  rewrite (processSharpClean_uneventful pf handle file outputPath (advanced st) Hu1 Hc).
  unfold Sharp.recordResult. rewrite bind_run. cbn [gets].
  rewrite bind_run.
  match goal with |- context [Sharp.updateProcessingStats ?t ?s] =>
    destruct (updateProcessingStats_run t s) as [average ->]
  end.
  rewrite bind_run. cbn [modify]. rewrite bind_run. cbn [gets]. rewrite bind_run.
  match goal with |- context [Sharp.calculateETA count ?s] =>
    destruct (calculateETA_run count s) as [eta ->]; set (st2 := s)
  end.
  rewrite bind_run.
  match goal with |- context [Sharp.updateProgress ?a ?b ?c ?d st2] =>
    destruct (updateProgress_onward a b c d st2) as (st3 & -> & O3 & F3 & P3)
  end.
  cbn [mret M_ret]. exists st3. split; [reflexivity|].
  assert (O2 : Onward st st2).
  { subst st2. split; try reflexivity.
    - exists 2%nat. cbn. destruct (script st) as [|? [|? ?]]; reflexivity.
    - intros p Hs. cbn.
      destruct (decide (p = join pf [outputPath;
                                     basename pf (name file) (extname pf (name file)) ++
                                     js ".webp"])) as [->|Hne];
        [by rewrite lookup_insert_eq | by rewrite lookup_insert_ne]. }
  split; [exact (Onward_trans _ _ _ O2 O3)|]. split.
  - rewrite P3. reflexivity.
  - rewrite F3. subst st2. cbn. by rewrite lookup_insert_eq.
Qed.


Lemma fileLoop_undisturbed outputPath tempDir count imageFiles tempDirCreated results st :
  uneventful st -> isCancelled st = false -> outputPath ∈ dirs st ->
  List.Forall (fun f => Sharp.needsSanitization (name f) = false) imageFiles ->
  exists st',
    Sharp.fileLoop pf handle outputPath tempDir count imageFiles tempDirCreated results st =
      (Ok (tempDirCreated, results ++ map (converted pf outputPath) imageFiles), st') /\
    Onward st st' /\
    processedCount st' = (processedCount st + Z.of_nat (length imageFiles))%Z /\
    List.Forall (fun f => is_Some (files st' !! join pf
                   [outputPath;
                    basename pf (name f) (extname pf (name f)) ++ js ".webp"])) imageFiles.
Proof.
  revert results st. induction imageFiles as [|f rest IH]; intros results st Hu Hc Hd Hn.
  - exists st. cbn. rewrite app_nil_r. split; [reflexivity|].
    split; [apply Onward_refl|]. split; [lia | constructor].
  - inversion Hn as [|? ? Hf Hrest]; subst.
    cbn [Sharp.fileLoop]. rewrite bind_run.
    destruct (processFile_undisturbed outputPath tempDir count f tempDirCreated results st
                Hu Hc Hd Hf) as (st1 & -> & O1 & P1 & F1).
    destruct (IH (results ++ [converted pf outputPath f]) st1) as (st' & E & O & P & F).
    + exact (Onward_uneventful _ _ O1 Hu).
    + by rewrite (onward_flag _ _ O1).
    + by rewrite (onward_dirs _ _ O1).
    + exact Hrest.
    + exists st'. split; [rewrite E, <- app_assoc; reflexivity|].
      split; [exact (Onward_trans _ _ _ O1 O)|].
      split; [rewrite P, P1; cbn [length]; lia|].
      constructor; [exact (onward_files _ _ O _ F1) | exact F].
Qed.

Lemma processSharpSequential_undisturbed imageFiles outputPath progressInterval st :
  uneventful st -> isCancelled st = false -> outputPath ∈ dirs st ->
  List.Forall (fun f => Sharp.needsSanitization (name f) = false) imageFiles ->
  exists st',
    Sharp.processSharpSequential pf handle imageFiles outputPath progressInterval st =
      (Ok (map (converted pf outputPath) imageFiles), st') /\
    Onward st st' /\
    processedCount st' = (processedCount st + Z.of_nat (length imageFiles))%Z /\
    List.Forall (fun f => is_Some (files st' !! join pf
                   [outputPath;
                    basename pf (name f) (extname pf (name f)) ++ js ".webp"])) imageFiles.
Proof.
  intros Hu Hc Hd Hn. unfold Sharp.processSharpSequential.
  rewrite bind_run. cbn [modify]. rewrite bind_run. unfold Sharp.getTempDirName at 1.
  rewrite bind_run. cbn [get mret M_ret]. rewrite bind_run.
  match goal with |- context [Sharp.fileLoop pf handle outputPath ?t ?c imageFiles false [] ?s] =>
    destruct (fileLoop_undisturbed outputPath t c imageFiles false [] s)
      as (st' & -> & O & P & F); [exact Hu | exact Hc | exact Hd | exact Hn |]
  end.
  cbn [fst snd]. rewrite bind_run. cbn [gets]. cbn [andb]. rewrite bind_run.
  cbn [mret M_ret app]. exists st'. split; [reflexivity|].
  split; [|split; [exact P | exact F]].
  eapply Onward_trans; [|exact O]. split; try reflexivity; [by exists 0%nat | auto].
Qed.

Lemma fs_readdir_uneventful p st :
  uneventful st -> fs_readdir handle p st = (Ok (below st p), advanced st).
Proof.
  intros H. unfold fs_readdir. rewrite (await_uneventful handle _ st H).
  unfold fallible. by rewrite (nextTick_uneventful st H).
Qed.

Lemma fs_readdir_sub_uneventful st :
  uneventful st -> fs_readdir_sub handle st = (Ok tt, advanced st).
Proof.
  intros H. unfold fs_readdir_sub. rewrite (await_uneventful handle _ st H).
  unfold fallible. by rewrite (nextTick_uneventful st H).
Qed.

Lemma scanEntries_undisturbed visits imageFiles st :
  uneventful st -> isCancelled st = false ->
  exists st',
    Sharp.scanEntries handle visits imageFiles st = (Ok (imageFiles ++ pictures visits), st') /\
    Onward st st' /\ files st' = files st.
Proof.
  revert imageFiles st. induction visits as [|visit rest IH]; intros imageFiles st Hu Hc.
  - exists st. cbn. rewrite app_nil_r. split; [reflexivity|]. split; [apply Onward_refl | done].
  - cbn [Sharp.scanEntries pictures]. rewrite bind_run. cbn [gets]. rewrite Hc.
    destruct visit.
    + destruct (IH (imageFiles ++ [file]) st Hu Hc) as (st' & -> & O & F).
      exists st'. rewrite <- app_assoc. auto.
    + apply (IH imageFiles st Hu Hc).
    + rewrite bind_run. cbn [gets]. rewrite Hc.
      rewrite bind_run, (fs_readdir_sub_uneventful st Hu).
      destruct (IH imageFiles (advanced st) (uneventful_advanced st Hu) Hc) as (st' & -> & O & F).
      exists st'. split; [reflexivity|].
      split; [exact (Onward_trans _ _ _ (Onward_advanced st) O) | exact F].
Qed.

Lemma scanForImages_undisturbed folderPath st :
  uneventful st -> isCancelled st = false ->
  exists st',
    Sharp.scanForImages handle folderPath st = (Ok (listing st folderPath), st') /\
    Onward st st' /\ files st' = files st.
Proof.
  intros Hu Hc. unfold Sharp.scanForImages.
  rewrite tryCatch_run, bind_run. cbn [gets]. rewrite Hc.
  rewrite bind_run, (fs_readdir_uneventful folderPath st Hu).
  destruct (scanEntries_undisturbed (below st folderPath) [] (advanced st)
              (uneventful_advanced st Hu) Hc) as (st' & -> & O & F).
  exists st'. split; [reflexivity|].
  split; [exact (Onward_trans _ _ _ (Onward_advanced st) O) | exact F].
Qed.

Lemma fs_stat_advances p st :
  uneventful st -> exists r, fs_stat handle p st = (r, advanced st).
Proof. intros H. rewrite (fs_stat_uneventful handle p st H). by eexists. Qed.

Lemma measureInputLoop_undisturbed imageFiles d0 st :
  uneventful st ->
  exists d st',
    Sharp.measureInputLoop handle imageFiles d0 st = (Ok d, st') /\
    Onward st st' /\ files st' = files st /\
    SizeAnalyzer.in_totalFiles d = SizeAnalyzer.in_totalFiles d0.
Proof.
  revert d0 st. induction imageFiles as [|f rest IH]; intros d0 st Hu.
  - exists d0, st. split; [reflexivity|]. split; [apply Onward_refl | by split].
  - cbn [Sharp.measureInputLoop]. rewrite bind_run, tryCatch_run, bind_run.
    destruct (fs_stat_advances (fullPath f) st Hu) as [[stats|e] ->];
      pose proof (uneventful_advanced st Hu) as Hu1;
      cbn [mret M_ret];
      match goal with |- context [Sharp.measureInputLoop handle rest ?d1 (advanced st)] =>
        destruct (IH d1 (advanced st) Hu1) as (d & st' & -> & O & F & T)
      end;
      (exists d, st'; split; [reflexivity|];
       split; [exact (Onward_trans _ _ _ (Onward_advanced st) O)|];
       split; [by rewrite F | exact T]).
Qed.

End Undisturbed.

Import Quiet Frames.

Section UndisturbedRun.

Variable pf : platform.
Variable handle : Ext -> State -> State.

Lemma fs_stat_present p st :
  uneventful st -> pathExists p st = true ->
  exists stats, fs_stat handle p st = (Ok stats, advanced st).
Proof.
  intros Hu Hp. rewrite (fs_stat_uneventful handle p st Hu). unfold pathExists in Hp.
  destruct (bool_decide (p ∈ dirs st)); [by eexists|].
  cbn in Hp. apply bool_decide_eq_true_1 in Hp as [n ->]. by eexists.
Qed.

Lemma measureOutputLoop_undisturbed outputPath imageFiles d0 st :
  uneventful st ->
  List.Forall (fun f => pathExists (join pf
                 [outputPath; basename pf (name f) (extname pf (name f)) ++ js ".webp"]) st
                 = true) imageFiles ->
  exists d st',
    Sharp.measureOutputLoop pf handle outputPath (map (converted pf outputPath) imageFiles)
      d0 st = (Ok d, st') /\
    Onward st st' /\ files st' = files st /\
    SizeAnalyzer.out_successfulFiles d =
      (SizeAnalyzer.out_successfulFiles d0 + Z.of_nat (length imageFiles))%Z.
Proof.
  revert d0 st. induction imageFiles as [|f rest IH]; intros d0 st Hu Hall.
  - exists d0, st. split; [reflexivity|]. split; [apply Onward_refl|]. split; [reflexivity|].
    cbn. lia.
  - inversion Hall as [|? ? Hf Hrest]; subst.
    cbn [map converted Sharp.measureOutputLoop].
    rewrite bind_run, tryCatch_run, bind_run.
    match goal with |- context [fs_stat handle ?p st] =>
      assert (Hp : p = join pf [outputPath;
                                basename pf (name f) (extname pf (name f)) ++ js ".webp"])
        by (destruct (join pf _); [destruct (_ ++ _)|]; reflexivity);
      rewrite Hp
    end.
    destruct (fs_stat_present _ st Hu Hf) as [stats ->].
    cbn [mret M_ret].
    match goal with |- context [Sharp.measureOutputLoop pf handle outputPath _ ?d1 _] =>
      destruct (IH d1 (advanced st) (uneventful_advanced st Hu) Hrest)
        as (d & st' & -> & O & F & T)
    end.
    exists d, st'. split; [reflexivity|].
    split; [exact (Onward_trans _ _ _ (Onward_advanced st) O)|].
    split; [by rewrite F|]. rewrite T. cbn [SizeAnalyzer.out_successfulFiles length]. lia.
Qed.


Lemma converted_all_succeeded outputPath imageFiles :
  List.filter succeeded (map (converted pf outputPath) imageFiles) =
  map (converted pf outputPath) imageFiles.
Proof. induction imageFiles as [|f rest IH]; [reflexivity|]. cbn. by rewrite IH. Qed.

Lemma Onward_pathExists st st' p :
  Onward st st' -> pathExists p st = true -> pathExists p st' = true.
Proof.
  intros O. unfold pathExists. rewrite (onward_dirs _ _ O).
  destruct (bool_decide (p ∈ dirs st)); [reflexivity|]. cbn.
  intros H. apply bool_decide_eq_true_1 in H. apply bool_decide_eq_true_2.
  exact (onward_files _ _ O p H).
Qed.

End UndisturbedRun.

(** X19. A run that nothing disturbs converts every picture. When no event
    arrives and no operation is made to fail, the folder exists and holds
    at least one picture, and no name needs sanitizing, the run returns
    normally: one success per scanned file, in scan order, each written as
    [<base>.webp] into the output folder ([<folder>_compressed], with the
    time stamp appended when that path is taken); all files count as
    processed, none as failed, and every reported output file exists. *)
Theorem undisturbed_run_converts_every_file (pf : platform)
    (handle : Ext -> State -> State) (inputPath : jsstring) (callback : bool) (st : State) :
  let imageFiles := listing st inputPath in
  let preferred :=
    join pf [dirname pf inputPath; basename pf inputPath [] ++ js "_compressed"] in
  let chosen :=
    if pathExists preferred st then preferred ++ js "_" ++ Sharp.timestamp st
    else preferred in
  uneventful st -> inputPath ∈ dirs st -> imageFiles <> [] ->
  List.Forall (fun f => Sharp.needsSanitization (name f) = false) imageFiles ->
  exists run st',
    Sharp.processImages pf handle inputPath callback st = (Ok run, st') /\
    Sharp.results run = map (converted pf chosen) imageFiles /\
    Sharp.outputPath run = chosen /\
    Sharp.totalFiles run = Z.of_nat (length imageFiles) /\
    Sharp.processedFiles run = Z.of_nat (length imageFiles) /\
    SizeAnalyzer.failedFiles (Sharp.compressionStats run) = 0%Z /\
    isCancelled st' = false /\
    List.Forall (fun f => is_Some (files st' !! join pf
                   [chosen; basename pf (name f) (extname pf (name f)) ++ js ".webp"]))
      imageFiles.
Proof.
  intros imageFiles preferred chosen Hu Hd Hne Hclean.
  unfold Sharp.processImages, Sharp.processImagesTry, Sharp.startRun. rewrite bind_run. cbn [modify].
  match goal with |- context [tryCatch _ _ ?s] => set (s0 := s) end.
  assert (Hu0 : uneventful s0) by exact Hu.
  rewrite tryCatch_run, bind_run.
  destruct (updateProgress_onward 0 0 0 (js "Scanning for images...") s0)
    as (s1 & -> & O1 & F1 & _).
  pose proof (Onward_uneventful _ _ O1 Hu0) as Hu1.
  assert (Hc1 : isCancelled s1 = false) by (by rewrite (onward_flag _ _ O1)).
  rewrite bind_run.
  destruct (scanForImages_undisturbed handle inputPath s1 Hu1 Hc1) as (s1' & -> & O1' & F1').
  rewrite bind_run. cbn [gets]. rewrite (onward_flag _ _ O1'), Hc1.
  assert (Hl : listing s1 inputPath = imageFiles) by (by rewrite (onward_listing _ _ O1)).
  rewrite Hl.
  destruct (length imageFiles =? 0)%nat eqn:El.
  { apply Nat.eqb_eq in El. by destruct imageFiles. }
  rewrite bind_run.
  match goal with |- context [Sharp.updateProgress ?a ?b ?c ?d s1'] =>
    destruct (updateProgress_onward a b c d s1') as (s2 & -> & O2 & F2 & _)
  end.
  pose proof (Onward_trans _ _ _ (Onward_trans _ _ _ O1 O1') O2) as O02.
  pose proof (Onward_uneventful _ _ O02 Hu0) as Hu2.
  rewrite bind_run. unfold Sharp.measureInputSizes at 1. rewrite bind_run.
  match goal with |- context [Sharp.measureInputLoop handle imageFiles ?d0 s2] =>
    destruct (measureInputLoop_undisturbed handle imageFiles d0 s2 Hu2)
      as (din & s3 & -> & O3 & F3 & T3)
  end.
  rewrite bind_run. cbn [modify mret M_ret].
  match goal with |- context [set_sizeAnalyzer ?a s3] => set (s4 := set_sizeAnalyzer a s3) end.
  pose proof (Onward_trans _ _ _ O02 O3) as O03.
  assert (Hc4 : isCancelled s4 = false) by exact (onward_flag _ _ O03).
  rewrite bind_run. cbn [gets]. rewrite Hc4.
  rewrite bind_run.
  match goal with |- context [Sharp.updateProgress ?a ?b ?c ?d s4] =>
    destruct (updateProgress_onward a b c d s4) as (s5 & -> & O5 & F5 & _)
  end.
  assert (Hu5 : uneventful s5).
  { apply (Onward_uneventful _ _ O5). exact (Onward_uneventful _ _ O03 Hu0). }
  assert (Hc5 : isCancelled s5 = false) by (by rewrite (onward_flag _ _ O5)).
  assert (Hd5 : dirs s5 = dirs st).
  { rewrite (onward_dirs _ _ O5). exact (onward_dirs _ _ O03). }
  assert (Hf5 : files s5 = files st).
  { rewrite F5. change (files s4) with (files s3). rewrite F3, F2.
    by rewrite F1', F1. }
  assert (He5 : pathExists inputPath s5 = true).
  { unfold pathExists. rewrite Hd5, (bool_decide_eq_true_2 _ Hd). reflexivity. }
  rewrite bind_run.
  rewrite (createOutputFolder_uneventful pf handle inputPath s5 Hu5 Hc5 He5).
  rewrite Hd5, (bool_decide_eq_true_2 _ Hd). fold preferred.
  replace (pathExists preferred s5) with (pathExists preferred st)
    by (unfold pathExists; by rewrite Hd5, Hf5).
  replace (Sharp.timestamp s5) with (Sharp.timestamp st).
  2:{ unfold Sharp.timestamp. rewrite (onward_iso _ _ O5).
      change (isoNow s4) with (isoNow s3). by rewrite (onward_iso _ _ O03). }
  fold chosen.
  set (s6 := set_currentOutputPath (Some chosen)
               (made chosen (advanced (advanced (advanced s5))))).
  rewrite bind_run. cbn [gets]. change (isCancelled s6) with (isCancelled s5). rewrite Hc5.
  assert (Hu6 : uneventful s6).
  { apply (uneventful_script (advanced (advanced (advanced s5)))); [reflexivity|].
    by do 3 apply uneventful_advanced. }
  assert (Hd6 : chosen ∈ dirs s6) by (apply elem_of_union_l; by apply elem_of_singleton_2).
  rewrite bind_run.
  match goal with |- context [Sharp.processSharpSequential pf handle imageFiles chosen ?i s6] =>
    destruct (processSharpSequential_undisturbed pf handle imageFiles chosen i s6 Hu6 Hc5 Hd6
                Hclean) as (s7 & -> & O7 & P7 & F7)
  end.
  assert (Hc7 : isCancelled s7 = false) by (by rewrite (onward_flag _ _ O7)).
  rewrite bind_run. cbn [gets]. rewrite Hc7.
  rewrite bind_run.
  match goal with |- context [Sharp.updateProgress ?a ?b ?c ?d s7] =>
    destruct (updateProgress_onward a b c d s7) as (s8 & -> & O8 & F8 & _)
  end.
  pose proof (Onward_trans _ _ _ O7 O8) as O68.
  pose proof (Onward_uneventful _ _ O68 Hu6) as Hu8.
  rewrite bind_run. unfold Sharp.measureOutputSizes at 1. rewrite bind_run.
  assert (Hall : List.Forall (fun f => pathExists (join pf
                   [chosen; basename pf (name f) (extname pf (name f)) ++ js ".webp"]) s8
                   = true) imageFiles).
  { eapply Forall_impl; [exact F7|]. intros f Hf. cbn beta in *.
    unfold pathExists. rewrite F8. rewrite (bool_decide_eq_true_2 _ Hf). apply orb_true_r. }
  match goal with |- context [Sharp.measureOutputLoop pf handle chosen _ ?d0 s8] =>
    destruct (measureOutputLoop_undisturbed pf handle chosen imageFiles d0 s8 Hu8 Hall)
      as (dout & s9 & -> & O9 & F9 & T9)
  end.
  rewrite bind_run. cbn [modify mret M_ret]. rewrite bind_run.
  unfold Sharp.calculateStats at 1.
  cbn [sizeAnalyzer set_sizeAnalyzer].
  assert (Hin : SizeAnalyzer.inputStats (sizeAnalyzer s9) = Some din).
  { rewrite (onward_analyzer _ _ O9), (onward_analyzer _ _ O68).
    change (sizeAnalyzer s6) with (sizeAnalyzer s5). rewrite (onward_analyzer _ _ O5).
    reflexivity. }
  unfold SizeAnalyzer.calculateStats.
  cbn [SizeAnalyzer.inputStats SizeAnalyzer.outputStats]. rewrite Hin.
  cbn [mret M_ret SizeAnalyzer.out_totalSize SizeAnalyzer.out_successfulFiles
       SizeAnalyzer.in_totalFiles].
  eexists _, _. split; [reflexivity|].
  cbn [Sharp.results Sharp.outputPath Sharp.totalFiles Sharp.processedFiles
       Sharp.compressionStats SizeAnalyzer.failedFiles].
  split; [reflexivity|]. split; [reflexivity|]. split; [reflexivity|].
  split; [by rewrite converted_all_succeeded, length_map|].
  split; [rewrite T3, T9; cbn; lia|].
  split.
  - cbn [isCancelled set_sizeAnalyzer]. rewrite (onward_flag _ _ O9), (onward_flag _ _ O8).
    exact Hc7.
  - eapply Forall_impl; [exact F7|]. intros f Hf. cbn beta in *.
    cbn [files set_sizeAnalyzer]. rewrite F9, F8. exact Hf.
Qed.

Lemma undisturbed_run_converts_every_file_witness :
  let st := Examples.fresh (Examples.prelude ++
                            [Examples.calm; Examples.wrote 400;
                             Examples.calm; Examples.wrote 800]) in
  uneventful st /\
  exists run st',
    Sharp.processImages Posix (Sharp.onEvent Posix) (js "/photos") true st = (Ok run, st') /\
    Sharp.results run =
      [Success (js "a.png") (js "a.webp") (Some (js "/photos_compressed/a.webp"));
       Success (js "b.png") (js "b.webp") (Some (js "/photos_compressed/b.webp"))].
Proof.
  intros st.
  assert (Hu : uneventful st) by (repeat constructor).
  split; [exact Hu|].
  destruct (undisturbed_run_converts_every_file Posix (Sharp.onEvent Posix) (js "/photos")
              true st Hu) as (run & st' & E & R & _).
  - apply (bool_decide_eq_true_1 _). vm_compute. reflexivity.
  - intros H. vm_compute in H. discriminate.
  - repeat constructor.
  - exists run, st'. split; [exact E|].
    etransitivity; [exact R|]. vm_compute. reflexivity.
Defined.

Import Quiet Frames.

Lemma fs_unlink_uneventful handle p n st :
  uneventful st -> files st !! p = Some n ->
  fs_unlink handle p st = (Ok tt, set_files (delete p (files st)) (advanced st)).
Proof.
  intros H Hp. unfold fs_unlink. rewrite (await_uneventful handle _ st H).
  unfold fallible. rewrite (nextTick_uneventful st H), bind_run. cbn [get].
  change (files (advanced st)) with (files st). by rewrite Hp.
Qed.

(** X20. A conversion through the staging directory, when nothing disturbs
    it, the processor is not cancelled and the picture is there: it succeeds, reports the original name
    and [<original base>.webp] in the output folder like a direct
    conversion, writes that file, and the sanitized copy it made in the
    staging directory is gone afterwards. *)
Theorem sanitized_conversion_removes_its_copy (pf : platform)
    (handle : Ext -> State -> State) (file : ImageFile) (outputPath tempDir : jsstring)
    (size : Z) (st : State) :
  let tempPath := join pf [tempDir; Sanitizer.sanitizeFileName pf (name file)] in
  let target :=
    join pf [outputPath; basename pf (name file) (extname pf (name file)) ++ js ".webp"] in
  uneventful st -> isCancelled st = false -> files st !! fullPath file = Some size ->
  exists st',
    Sharp.processSharpSanitized pf handle file outputPath tempDir st =
      (Ok (converted pf outputPath file), st') /\
    files st' =
      delete tempPath (<[target := bytes (nextTick (advanced st))]> (files st)) /\
    files st' !! tempPath = None /\
    dirs st' = dirs st /\ isCancelled st' = false.
Proof.
  intros tempPath target Hu Hc Hs.
  pose proof (uneventful_advanced st Hu) as Hu1.
  set (st1 := set_files (<[tempPath := size]> (files st)) (advanced st)).
  assert (Hu1' : uneventful st1) by exact Hu1.
  set (st2 := set_files (<[target := bytes (nextTick st1)]> (files st1)) (advanced st1)).
  assert (Hu2 : uneventful st2) by exact (uneventful_advanced st1 Hu1').
  assert (Ht : exists n, files st2 !! tempPath = Some n).
  { unfold st2, st1. cbn [files set_files advanced set_clock set_script].
    destruct (decide (target = tempPath)) as [->|Hne].
    - rewrite lookup_insert_eq. by eexists.
    - rewrite lookup_insert_ne by exact Hne. rewrite lookup_insert_eq. by eexists. }
  destruct Ht as [n Ht].
  exists (set_files (delete tempPath (files st2)) (advanced st2)).
  split; [|split; [|split; [|by split]]].
  - unfold Sharp.processSharpSanitized. rewrite tryCatch_run, bind_run. cbn [gets].
    rewrite Hc. fold tempPath. fold target.
    rewrite bind_run, (fs_copyFile_uneventful handle _ tempPath size st Hu Hs).
    fold st1. rewrite bind_run, (sharp_toFile_uneventful handle _ _ target st1 Hu1').
    fold st2. rewrite bind_run, tryCatch_run.
    rewrite (fs_unlink_uneventful handle tempPath n st2 Hu2 Ht).
    rewrite bind_run. cbn [gets].
    change (isCancelled (set_files _ (advanced st2))) with (isCancelled st). rewrite Hc.
    reflexivity.
  - unfold st2, st1. cbn [files set_files advanced set_clock set_script].
    apply map_eq. intros k. destruct (decide (k = tempPath)) as [->|Hk].
    + by rewrite !lookup_delete_eq.
    + rewrite !lookup_delete_ne by (by apply not_eq_sym).
      destruct (decide (k = target)) as [->|Hkt].
      * by rewrite !lookup_insert_eq.
      * rewrite !lookup_insert_ne by (by apply not_eq_sym). reflexivity.
  - cbn [files set_files]. apply lookup_delete_eq.
Qed.

Lemma sanitized_conversion_removes_its_copy_witness :
  let file := mkImageFile (js "pic#1.png") (js "/photos/pic#1.png") (js ".png")
                (js "pic#1.png") in
  let st := set_files {[ js "/photos/pic#1.png" := 5000%Z ]}
              (Examples.underway [Examples.calm; Examples.wrote 400; Examples.calm]) in
  (uneventful st /\ files st !! fullPath file = Some 5000%Z) /\
  exists st',
    Sharp.processSharpSanitized Posix Sharp.quiet file Examples.outputDir
      Examples.stagingDir st =
      (Ok (Success (js "pic#1.png") (js "pic#1.webp")
             (Some (js "/photos_compressed/pic#1.webp"))), st') /\
    files st' !! js "/temp_imagemin_2026-11-03T07-05-00_3r4t5y/pic_1.png" = None /\
    files st' !! js "/photos_compressed/pic#1.webp" = Some 400%Z.
Proof.
  intros file st.
  assert (Hu : uneventful st) by (repeat constructor).
  assert (Hs : files st !! fullPath file = Some 5000%Z) by (vm_compute; reflexivity).
  split; [by split|].
  destruct (sanitized_conversion_removes_its_copy Posix Sharp.quiet file Examples.outputDir
              Examples.stagingDir 5000 st Hu eq_refl Hs) as (st' & E & F & T & _).
  exists st'. split; [|split].
  - etransitivity; [exact E|]. f_equal; vm_compute; reflexivity.
  - etransitivity; [|exact T]. f_equal; vm_compute; reflexivity.
  - rewrite F.
    replace (js "/photos_compressed/pic#1.webp")
      with (join Posix [Examples.outputDir;
                        basename Posix (name file) (extname Posix (name file)) ++ js ".webp"])
      by (vm_compute; reflexivity).
    rewrite lookup_delete_ne by (vm_compute; discriminate).
    rewrite lookup_insert_eq. vm_compute. reflexivity.
Defined.

(** ** The imagemin variant: one result at least for every file *)

Import ImageminRun.

Lemma imagemin_updateProgress_ok current total percent message st :
  wp (Imagemin.updateProgress current total percent message) st (fun r _ => r = Ok tt).
Proof.
  unfold Imagemin.updateProgress. wp_simpl. destruct (progressCallback st); by wp_simpl.
Qed.

Lemma restoreOriginalNames_length pf handle processedFiles outputDir st :
  wp (restoreOriginalNames pf handle processedFiles outputDir) st (fun r _ =>
    exists results, r = Ok results /\ length results = length processedFiles).
Proof.
  destruct (restoreLoop_spec pf handle outputDir processedFiles [] st)
    as (results & st' & E & R).
  unfold wp, restoreOriginalNames. rewrite E. exists results. split; [reflexivity|].
  by apply (restored_length pf handle outputDir processedFiles st results st').
Qed.

Section Covering.

Variable pf : platform.
Variable handle : Ext -> State -> State.
Variable imagemin : list jsstring -> jsstring -> M (list CodecOutput).
Variable initializeImagemin : M unit.

Lemma sanitizeOne_spec imageFile outputPath tempDir results st :
  wp (sanitizeOne pf handle imagemin imageFile outputPath tempDir results) st (fun r _ =>
    (exists added, r = Ok (inl (results ++ added)) /\ added <> []) \/
    (exists sanitizerError, r = Ok (inr sanitizerError))).
Proof.
  unfold sanitizeOne. wp_simpl. wp_skip. intros [tempFiles|e] st1 _; wp_simpl.
  2:{ right. by eexists. }
  wp_skip. intros [[|file sanitizedFiles]|e] st2 _; wp_simpl.
  - left. eexists. split; [reflexivity | discriminate].
  - wp_apply restoreOriginalNames_length. intros r st3 (restored & -> & L). wp_simpl.
    left. exists restored. split; [reflexivity|]. by destruct restored.
  - right. by eexists.
Qed.

Lemma processOne_spec outputPath currentOffset totalFiles count i imageFile results st :
  wp (processOne pf handle imagemin outputPath currentOffset totalFiles count i imageFile
        results) st (fun r _ =>
    exists added, r = Ok (results ++ added) /\ added <> []).
Proof.
  unfold processOne. wp_simpl. wp_apply imagemin_updateProgress_ok. intros r st1 ->.
  wp_simpl. wp_skip. intros [[|file files]|e] st2 _; wp_simpl.
  - unfold Sharp.getTempDirName. wp_simpl. wp_apply sanitizeOne_spec.
    intros r st3 [(added & -> & Ha)|(sanitizerError & ->)]; wp_simpl.
    + wp_skip. intros [[]|e] st4 _; wp_simpl; [by exists added|].
      wp_skip. intros [[]|e'] st5 _; wp_simpl;
        (eexists (added ++ [_]); split; [by rewrite app_assoc | by destruct added]).
    + wp_skip. intros [[]|e] st4 _; wp_simpl; eexists; (split; [reflexivity | discriminate]).
  - destruct (jseqb (destinationPath file) (toWebp (destinationPath file))); wp_simpl.
    + eexists. split; [reflexivity | discriminate].
    + wp_skip. intros [[]|e] st3 _; wp_simpl; eexists; (split; [reflexivity | discriminate]).
  - eexists. split; [reflexivity | discriminate].
Qed.

Lemma individualLoop_spec imageFiles outputPath currentOffset totalFiles count i results st :
  wp (individualLoop pf handle imagemin imageFiles outputPath currentOffset totalFiles count i
        results) st (fun r _ =>
    exists groups, r = Ok (results ++ concat groups) /\
      Forall2 (fun _ group => group <> []) imageFiles groups).
Proof.
  revert i results st. induction imageFiles as [|f rest IH]; intros i results st.
  - cbn [individualLoop]. wp_simpl. exists []. split; [by rewrite app_nil_r | constructor].
  - cbn [individualLoop]. wp_simpl. wp_apply processOne_spec.
    intros r st1 (added & -> & Ha). wp_apply IH.
    intros r st2 (groups & -> & F). exists (added :: groups).
    split; [cbn; by rewrite app_assoc | by constructor].
Qed.

Lemma processIndividually_spec imageFiles outputPath currentOffset totalFiles st :
  wp (processIndividually pf handle imagemin imageFiles outputPath currentOffset totalFiles)
    st (fun r _ =>
    exists groups, r = Ok (concat groups) /\
      Forall2 (fun _ group => group <> []) imageFiles groups).
Proof. unfold processIndividually. wp_apply individualLoop_spec. by intros r st' H. Qed.

Lemma groups_count {A} (imageFiles : list ImageFile) (groups : list (list A)) :
  Forall2 (fun _ group => group <> []) imageFiles groups ->
  (length imageFiles <= length (concat groups))%nat.
Proof.
  induction 1 as [|f g fs gs Hg _ IH]; [reflexivity|].
  cbn. rewrite length_app. destruct g; [done | cbn; lia].
Qed.

Lemma processIndividually_count imageFiles outputPath currentOffset totalFiles st :
  wp (processIndividually pf handle imagemin imageFiles outputPath currentOffset totalFiles)
    st (fun r _ =>
    exists results, r = Ok results /\ (length imageFiles <= length results)%nat).
Proof.
  wp_apply processIndividually_spec. intros r st' (groups & -> & F).
  eexists. split; [reflexivity | by apply groups_count].
Qed.

Lemma announceAll_ok files currentOffset totalFiles index st :
  wp (announceAll pf files currentOffset totalFiles index) st (fun r _ => r = Ok tt).
Proof.
  revert index st. induction files as [|file rest IH]; intros index st; cbn [announceAll].
  - by wp_simpl.
  - wp_simpl. wp_apply imagemin_updateProgress_ok. intros r st1 ->. apply IH.
Qed.

Lemma renameOne_ok file st :
  exists result st', renameOne pf handle file st = (Ok result, st').
Proof.
  unfold renameOne. destruct (jseqb (destinationPath file) (toWebp (destinationPath file))).
  - by eexists _, _.
  - rewrite tryCatch_run, bind_run.
    destruct (fs_rename handle _ _ st) as [[[]|e] st1]; by eexists _, _.
Qed.

Lemma renameAll_spec files st :
  wp (renameAll pf handle files) st (fun r _ =>
    exists results, r = Ok results /\ length results = length files).
Proof.
  unfold wp. revert st. induction files as [|file rest IH]; intros st; cbn [renameAll].
  - by exists [].
  - rewrite bind_run. destruct (renameOne_ok file st) as (result & st1 & ->).
    rewrite bind_run. destruct (IH st1) as (results & E & L).
    destruct (renameAll pf handle rest st1) as [r st2]. cbn [fst] in E. subst r.
    eexists. split; [reflexivity|]. cbn. by rewrite L.
Qed.

Lemma processChunk_spec imageFiles outputPath currentOffset totalFiles st :
  wp (processChunk pf handle imagemin initializeImagemin imageFiles outputPath currentOffset
        totalFiles) st (fun r _ =>
    (exists results, r = Ok results /\ (length imageFiles <= length results)%nat) \/
    (exists e, (initializeImagemin st).1 = Throw e /\ r = Throw e)).
Proof.
  unfold processChunk. rewrite wp_bind. unfold wp at 1.
  destruct (initializeImagemin st) as [[[]|e] st1]; cbn [fst snd]; [|right; by exists e].
  wp_simpl. wp_skip. intros [files|e] st2 _; wp_simpl.
  - destruct (length files <? length imageFiles)%nat eqn:El.
    + wp_apply processIndividually_count. intros r st3 (results & -> & L). left.
      by exists results.
    + apply Nat.ltb_ge in El. wp_simpl. wp_apply announceAll_ok. intros r st3 ->.
      wp_apply renameAll_spec. intros r st4 (results & -> & L). left. exists results.
      split; [reflexivity | lia].
  - wp_apply processIndividually_count. intros r st3 (results & -> & L). left.
    by exists results.
Qed.

End Covering.


Lemma processIndividually_ok pf handle imagemin imageFiles outputPath currentOffset totalFiles st :
  exists results st',
    processIndividually pf handle imagemin imageFiles outputPath currentOffset totalFiles st =
      (Ok results, st').
Proof.
  pose proof (processIndividually_count pf handle imagemin imageFiles outputPath currentOffset
                totalFiles st) as H.
  unfold wp in H.
  destruct (processIndividually pf handle imagemin imageFiles outputPath currentOffset
              totalFiles st) as [r st'].
  destruct H as (results & H & _). cbn in H. subst r. by exists results, st'.
Qed.


Section CoveringRun.

Variable pf : platform.
Variable handle : Ext -> State -> State.
Variable imagemin : list jsstring -> jsstring -> M (list CodecOutput).
Variable initializeImagemin : M unit.
Hypothesis initialised : forall st, exists st', initializeImagemin st = (Ok tt, st').

Lemma processChunk_initialised imageFiles outputPath currentOffset totalFiles st :
  wp (processChunk pf handle imagemin initializeImagemin imageFiles outputPath currentOffset
        totalFiles) st (fun r _ =>
    exists results, r = Ok results /\ (length imageFiles <= length results)%nat).
Proof.
  wp_apply processChunk_spec. intros r st' [H|(e & E & _)]; [exact H|].
  destruct (initialised st) as [st1 E1]. rewrite E1 in E. discriminate.
Qed.

Lemma chunkLoop_spec steps imageFiles outputPath chunkSize i processedFiles results st :
  (1 <= chunkSize)%nat -> (length imageFiles - i <= steps)%nat ->
  wp (chunkLoop pf handle imagemin initializeImagemin steps imageFiles outputPath chunkSize i
        processedFiles results) st (fun r st' =>
    exists processedFiles' results',
      r = Ok (processedFiles', results') /\
      (isCancelled st' = true \/
       (length results + (length imageFiles - i) <= length results')%nat)).
Proof.
  intros Hc. revert i processedFiles results st.
  induction steps as [|steps IH]; intros i processedFiles results st Hs; cbn [chunkLoop].
  - wp_simpl. eexists _, _. split; [reflexivity|]. right. lia.
  - destruct (i <? length imageFiles)%nat eqn:Ei.
    2:{ apply Nat.ltb_ge in Ei. wp_simpl. eexists _, _. split; [reflexivity|]. right. lia. }
    apply Nat.ltb_lt in Ei. wp_simpl. destruct (isCancelled st) eqn:Eflag; wp_simpl.
    { eexists _, _. split; [reflexivity|]. by left. }
    wp_apply imagemin_updateProgress_ok. intros r st1 ->. wp_simpl.
    wp_apply processChunk_initialised. intros r st2 (chunkResults & -> & L). wp_simpl.
    wp_apply imagemin_updateProgress_ok. intros r st3 ->. wp_simpl. cbn [fst snd].
    wp_apply IH; [lia|].
    intros r st4 (p' & results' & -> & H). eexists _, _. split; [reflexivity|].
    destruct H as [H|H]; [by left|]. right.
    rewrite length_app in H. rewrite length_firstn, length_skipn in L. lia.
Qed.

Lemma processImages_covering totalMemory freeMemory inputPath progressCallback st :
  wp (processImages pf handle imagemin initializeImagemin totalMemory freeMemory inputPath
        progressCallback) st (fun r _ =>
    forall run, r = Ok run ->
      (0 < Sharp.totalFiles run)%Z /\
      (Sharp.totalFiles run <= Z.of_nat (length (Sharp.results run)))%Z /\
      Sharp.processedFiles run =
        Z.of_nat (length (List.filter succeeded (Sharp.results run)))).
Proof.
  unfold processImages. wp_simpl.
  wp_apply imagemin_updateProgress_ok. intros r st1 ->. wp_simpl.
  wp_skip. intros [[]|e] st2 _; wp_simpl; [|discriminate].
  wp_apply imagemin_updateProgress_ok. intros r st3 ->. wp_simpl.
  wp_skip. intros [imageFiles|e] st4 _; wp_simpl; [|discriminate].
  destruct (length imageFiles =? 0)%nat eqn:En; wp_simpl; [discriminate|].
  apply Nat.eqb_neq in En.
  wp_apply imagemin_updateProgress_ok. intros r st5 ->. wp_simpl.
  wp_skip. intros [inputData|e] st6 _; wp_simpl; [|discriminate].
  wp_apply imagemin_updateProgress_ok. intros r st7 ->. wp_simpl.
  wp_skip. intros [outputPath|e] st8 _; wp_simpl; [|discriminate].
  wp_apply chunkLoop_spec.
  { unfold Imagemin.getOptimalChunkSize. lia. }
  { lia. }
  intros r st9 (processedFiles & results & -> & H). wp_simpl. cbn [fst snd].
  destruct (isCancelled st9) eqn:Eflag; wp_simpl; [discriminate|].
  destruct H as [H|H]; [discriminate|].
  wp_apply imagemin_updateProgress_ok. intros r st10 ->. wp_simpl.
  wp_skip. intros [outputData|e] st11 _; wp_simpl; [|discriminate].
  unfold Sharp.calculateStats at 1. unfold wp at 1. cbn [fst snd].
  destruct (SizeAnalyzer.calculateStats (sizeAnalyzer st11)) as [stats|e]; wp_simpl;
    [|discriminate].
  intros run [= <-]. cbn [Sharp.totalFiles Sharp.results Sharp.processedFiles].
  split; [lia|]. split; [cbn in H; lia | reflexivity].
Qed.

End CoveringRun.



(** ** The file-by-file comparison *)

Import Comparison.

Lemma outputMap_fold_lookup files m n o :
  fold_left setOutput files m !! n = Some o ->
  m !! n = Some o \/
  (o ∈ files /\ SizeAnalyzer.sr_originalName o = Some n /\ n <> []).
Proof.
  revert m. induction files as [|f files IH]; intros m H; [by left|].
  cbn [fold_left] in H. apply IH in H as [H|(H1 & H2 & H3)].
  - unfold setOutput in H. destruct (SizeAnalyzer.sr_originalName f) as [[|c k]|] eqn:E; [by left| |by left].
    destruct (decide (c :: k = n)) as [<-|Hne].
    + rewrite lookup_insert_eq in H. injection H as <-. right.
      repeat split; [apply list_elem_of_here | exact E | discriminate].
    + rewrite lookup_insert_ne in H by exact Hne. by left.
  - right. repeat split; [by apply list_elem_of_further | exact H2 | exact H3].
Qed.

Lemma outputMap_lookup files n o :
  outputMap files !! n = Some o ->
  o ∈ files /\ SizeAnalyzer.sr_originalName o = Some n /\ n <> [].
Proof.
  intros H. apply outputMap_fold_lookup in H as [H|H]; [|exact H].
  by rewrite lookup_empty in H.
Qed.

Lemma outputMap_fold_last pre o post m n :
  SizeAnalyzer.sr_originalName o = Some n -> n <> [] ->
  List.Forall (fun r => SizeAnalyzer.sr_originalName r <> Some n) post ->
  fold_left setOutput (pre ++ o :: post) m !! n = Some o.
Proof.
  intros Ho Hn Hpost. rewrite fold_left_app. cbn [fold_left]. unfold setOutput at 2. rewrite Ho.
  destruct n as [|c n]; [done|].
  generalize (fold_left setOutput pre m). intros m0.
  assert (G : forall m1, m1 !! (c :: n) = Some o ->
    fold_left setOutput post m1 !! (c :: n) = Some o).
  { induction Hpost as [|r post Hr _ IH]; intros m1 H1; [exact H1|].
    cbn [fold_left]. apply IH. unfold setOutput.
    destruct (SizeAnalyzer.sr_originalName r) as [[|c' k]|]; [exact H1| |exact H1].
    rewrite lookup_insert_ne; [exact H1|]. intros E. apply Hr. by rewrite E. }
  apply G. apply lookup_insert_eq.
Qed.

(** The entries of [measureOutputSizes] that carry an [originalName] carry
    no [error]. *)
Lemma measureOutputLoop_records pf handle outputPath results d0 st :
  List.Forall (fun r => SizeAnalyzer.sr_originalName r <> None ->
                        SizeAnalyzer.sr_error r = None) (SizeAnalyzer.out_files d0) ->
  exists d st',
    Sharp.measureOutputLoop pf handle outputPath results d0 st = (Ok d, st') /\
    List.Forall (fun r => SizeAnalyzer.sr_originalName r <> None ->
                          SizeAnalyzer.sr_error r = None) (SizeAnalyzer.out_files d).
Proof.
  revert d0 st.
  induction results as [|[original compressed finalPath|original error] rest IH];
    intros d0 st H0.
  - by exists d0, st.
  - cbn [Sharp.measureOutputLoop]. rewrite bind_run, tryCatch_run, bind_run.
    destruct (fs_stat handle _ st) as [[stats|e] st1]; cbn [mret M_ret]; apply IH;
      cbn [SizeAnalyzer.out_files]; apply Forall_app; (split; [exact H0|]);
      constructor; try constructor; done.
  - cbn [Sharp.measureOutputLoop]. apply IH.
    cbn [SizeAnalyzer.out_files]. apply Forall_app. split; [exact H0|].
    constructor; [done | constructor].
Qed.

(** X24. After [measureOutputSizes], the comparison is [null] only when the
    inputs were never measured. Otherwise it has one row per measured input
    file, in order and under its name, and a row that is not a success
    always carries the reason "Processing failed": the message recorded
    for the failure never shows in it. *)
Theorem comparison_failure_reason_is_generic (formatBytes : Z -> jsstring)
    (toFixed1 : Q -> jsstring) (pf : platform) (handle : Ext -> State -> State)
    (outputPath : jsstring) (processingResults : list ProcessingResult) (st : State) :
  let st' := (Sharp.measureOutputSizes pf handle outputPath processingResults st).2 in
  match getDetailedComparison formatBytes toFixed1 (sizeAnalyzer st') with
  | Some rows =>
      exists i, SizeAnalyzer.inputStats (sizeAnalyzer st') = Some i /\
        map filename rows = map SizeAnalyzer.sr_name (SizeAnalyzer.in_files i) /\
        List.Forall (fun row =>
                       (success row = true /\ error row = None) \/
                       (success row = false /\ error row = Some (js "Processing failed")))
          rows
  | None => SizeAnalyzer.inputStats (sizeAnalyzer st') = None
  end.
Proof.
  unfold Sharp.measureOutputSizes. rewrite bind_run.
  destruct (measureOutputLoop_records pf handle outputPath processingResults
              (SizeAnalyzer.mkOutputData [] 0 0 0) st) as (d & st1 & E & F); [constructor|].
  rewrite E, bind_run. cbn [modify mret M_ret snd sizeAnalyzer set_sizeAnalyzer].
  unfold getDetailedComparison.
  cbn [SizeAnalyzer.inputStats SizeAnalyzer.outputStats SizeAnalyzer.out_files].
  destruct (SizeAnalyzer.inputStats (sizeAnalyzer st1)) as [i|]; [|reflexivity].
  exists i. split; [reflexivity|]. split.
  - rewrite map_map. apply map_ext. intros f. unfold compareFile.
    destruct (outputMap (SizeAnalyzer.out_files d) !! SizeAnalyzer.sr_name f) as [o|];
      [destruct (truthy (SizeAnalyzer.sr_error o))|]; reflexivity.
  - apply Forall_map. apply Forall_forall. intros f _. unfold compareFile.
    destruct (outputMap (SizeAnalyzer.out_files d) !! SizeAnalyzer.sr_name f) as [o|] eqn:L;
      [|by right].
    apply outputMap_lookup in L as (Ho & Hn & _).
    rewrite Forall_forall in F. rewrite (F o Ho) by (by rewrite Hn). by left.
Qed.

(** X25. Entries are matched by file name alone: when several output
    entries carry the same original name (not the empty string), every
    input file of that name is compared with the last of them. *)
Theorem comparison_takes_last_output_of_a_name (formatBytes : Z -> jsstring)
    (toFixed1 : Q -> jsstring) (i : SizeAnalyzer.InputData)
    (before after : list SizeAnalyzer.SizeRecord) (o : SizeAnalyzer.SizeRecord)
    (totalSize totalFiles successfulFiles : Z) (n : jsstring) :
  SizeAnalyzer.sr_originalName o = Some n -> n <> [] ->
  List.Forall (fun r => SizeAnalyzer.sr_originalName r <> Some n) after ->
  exists rows,
    getDetailedComparison formatBytes toFixed1
      (SizeAnalyzer.mkAnalyzer (Some i)
         (Some (SizeAnalyzer.mkOutputData (before ++ o :: after) totalSize totalFiles
                  successfulFiles))) = Some rows /\
    length rows = length (SizeAnalyzer.in_files i) /\
    forall k inputFile,
      SizeAnalyzer.in_files i !! k = Some inputFile ->
      SizeAnalyzer.sr_name inputFile = n ->
      rows !! k = Some (compareFile formatBytes toFixed1 {[ n := o ]} inputFile).
Proof.
  intros Ho Hn Hafter. eexists. split; [reflexivity|]. split; [apply length_map|].
  intros k f Hk Hf. rewrite list_lookup_fmap, Hk. cbn. f_equal.
  unfold compareFile, outputMap.
  rewrite Hf, (outputMap_fold_last before o after ∅ n Ho Hn Hafter), lookup_singleton_eq.
  reflexivity.
Qed.

Lemma comparison_takes_last_output_of_a_name_witness :
  let first := SizeAnalyzer.mkSizeRecord (js "a.webp") (Some (js "/out/a.webp")) 400 None
                 (Some (js "a.png")) None in
  let second := SizeAnalyzer.mkSizeRecord (js "a.webp") (Some (js "/out/a.webp")) 800 None
                  (Some (js "a.png")) None in
  let i := SizeAnalyzer.mkInputData
             [SizeAnalyzer.mkSizeRecord (js "a.png") (Some (js "/photos/a.png")) 1000
                (Some (js ".png")) None None;
              SizeAnalyzer.mkSizeRecord (js "a.png") (Some (js "/photos/old/a.png")) 3000
                (Some (js ".png")) None None] 4000 2 in
  exists rows,
    getDetailedComparison Sharp.showZ (fun _ => js "?")
      (SizeAnalyzer.mkAnalyzer (Some i)
         (Some (SizeAnalyzer.mkOutputData ([first] ++ second :: []) 1200 2 2))) = Some rows /\
    compressedSize <$> rows !! 0%nat = Some (js "800") /\
    compressedSize <$> rows !! 1%nat = Some (js "800").
Proof.
  intros first second i.
  destruct (comparison_takes_last_output_of_a_name Sharp.showZ (fun _ => js "?") i
              [first] [] second 1200 2 2 (js "a.png") eq_refl)
    as (rows & E & _ & R); [discriminate | constructor |].
  exists rows. split; [exact E|]. split.
  - rewrite (R 0%nat _ eq_refl eq_refl). vm_compute. reflexivity.
  - rewrite (R 1%nat _ eq_refl eq_refl). vm_compute. reflexivity.
Defined.

(** ** The throttled progress callback *)

Import Throttle.

Lemma Spaced_pairs last l :
  Spaced last l ->
  (forall t d, List.last l (last, mkProgress 0 0 0 []) = (t, d) -> t = last) /\
  forall k t1 d1 t2 d2,
    l !! k = Some (t1, d1) -> l !! S k = Some (t2, d2) ->
    (PROGRESS_THROTTLE <= t2 - t1)%Z \/ (100 <= percent d2)%Q.
Proof.
  induction 1 as [last|last l t d Hl [IHl IHp] Hd].
  - split; [cbn; intros ? ? [= <- _]; reflexivity | intros k ? ? ? ? H; by destruct k].
  - split; [intros t' d'; rewrite last_last; by intros [= <- _]|].
    intros k t1 d1 t2 d2 H1 H2.
    destruct (decide (S k < length l)%nat) as [Hk|Hk].
    + rewrite lookup_app_l in H1 by lia. rewrite lookup_app_l in H2 by lia.
      by apply (IHp k t1 d1 t2 d2).
    + assert (Hlen : S k = length l).
      { apply lookup_lt_Some in H2. rewrite length_app in H2. cbn in H2. lia. }
      rewrite lookup_app_r in H2 by lia. rewrite Hlen, Nat.sub_diag in H2.
      injection H2 as <- <-.
      rewrite lookup_app_l in H1 by lia.
      assert (Ht : t1 = last).
      { apply (IHl t1 d1). destruct l as [|x l] using rev_ind; [by destruct k|].
        rewrite last_last. rewrite length_app in Hlen. cbn in Hlen.
        rewrite lookup_app_r in H1 by lia.
        replace (k - length l)%nat with 0%nat in H1 by lia. by injection H1. }
      by subst t1.
Qed.

Lemma progressCallback_Spaced c now d s :
  Spaced (lastProgressSent s) (sent s) ->
  Spaced (lastProgressSent (progressCallback c now d s)) (sent (progressCallback c now d s)).
Proof.
  intros H. unfold progressCallback. destruct c; [exact H|].
  destruct ((PROGRESS_THROTTLE <=? now - lastProgressSent s)%Z || Qle_bool 100 (percent d))
    eqn:E; [|exact H].
  cbn. apply (Spaced_snoc (lastProgressSent s)); [exact H|].
  apply orb_true_iff in E as [E|E]; [left; lia | right; by apply Qle_bool_iff].
Qed.

Lemma callbacks_Spaced calls s :
  Spaced (lastProgressSent s) (sent s) ->
  Spaced (lastProgressSent (callbacks calls s)) (sent (callbacks calls s)).
Proof.
  revert s. induction calls as [|c calls IH]; intros s H; [exact H|].
  cbn [callbacks fold_left]. apply IH. by apply progressCallback_Spaced.
Qed.

(** X26. Whatever the sequence of progress updates, two events that go to
    the window one after the other were sent at least 100 ms apart, unless
    the later one reports 100 percent or more. *)
Theorem progress_is_throttled (calls : list Call) (k : nat) (t1 t2 : Z)
    (d1 d2 : ProgressEvent) :
  sent (callbacks calls start) !! k = Some (t1, d1) ->
  sent (callbacks calls start) !! S k = Some (t2, d2) ->
  (PROGRESS_THROTTLE <= t2 - t1)%Z \/ (100 <= percent d2)%Q.
Proof.
  intros H1 H2.
  pose proof (callbacks_Spaced calls start (Spaced_nil 0)) as Hs.
  apply Spaced_pairs in Hs as [_ Hs]. exact (Hs k t1 d1 t2 d2 H1 H2).
Qed.

Lemma progress_is_throttled_witness :
  let calls := [mkCall false 1000 (mkProgress 0 2 0 (js "a"));
                mkCall false 1040 (mkProgress 1 2 50 (js "b"));
                mkCall false 1130 (mkProgress 1 2 50 (js "c"));
                mkCall false 1150 (mkProgress 2 2 100 (js "d"))] in
  (sent (callbacks calls start) !! 0%nat = Some (1000%Z, mkProgress 0 2 0 (js "a")) /\
   sent (callbacks calls start) !! 1%nat = Some (1130%Z, mkProgress 1 2 50 (js "c"))) /\
  ((PROGRESS_THROTTLE <= 1130 - 1000)%Z \/ (100 <= percent (mkProgress 1 2 50 (js "c")))%Q).
Proof.
  intros calls.
  assert (H1 : sent (callbacks calls start) !! 0%nat = Some (1000%Z, mkProgress 0 2 0 (js "a")))
    by reflexivity.
  assert (H2 : sent (callbacks calls start) !! 1%nat = Some (1130%Z, mkProgress 1 2 50 (js "c")))
    by reflexivity.
  split; [by split|].
  exact (progress_is_throttled calls 0 _ _ _ _ H1 H2).
Defined.

Lemma progressCallback_sublist c now d s (offered : list ProgressEvent) :
  map snd (sent s) `sublist_of` offered ->
  map snd (sent (progressCallback c now d s))
    `sublist_of` offered ++ (if c then [] else [d]).
Proof.
  intros H. unfold progressCallback. destruct c; [by rewrite app_nil_r|].
  destruct ((PROGRESS_THROTTLE <=? now - lastProgressSent s)%Z || Qle_bool 100 (percent d)).
  - cbn. rewrite map_app. by apply sublist_app.
  - cbn. by apply sublist_inserts_r.
Qed.

Lemma callbacks_sublist calls s (offered : list ProgressEvent) :
  map snd (sent s) `sublist_of` offered ->
  map snd (sent (callbacks calls s))
    `sublist_of` offered ++ map data (List.filter (fun c => negb (flag c)) calls).
Proof.
  revert s offered. induction calls as [|c calls IH]; intros s offered H.
  - cbn. by rewrite app_nil_r.
  - cbn [callbacks fold_left].
    pose proof (IH _ _ (progressCallback_sublist (flag c) (time c) (data c) s offered H)) as G.
    cbn [List.filter]. destruct (flag c); cbn [negb map].
    + by rewrite app_nil_r in G.
    + by rewrite <- app_assoc in G.
Qed.

(** X27. What reaches the window through the callback is a subsequence of
    the updates that arrived while the processor was not cancelled: nothing
    is sent twice or out of order, and no update that arrives after the
    cancellation is sent. *)
Theorem progress_sent_is_a_subsequence (calls : list Call) :
  map snd (sent (callbacks calls start))
    `sublist_of` map data (List.filter (fun c => negb (flag c)) calls).
Proof. apply (callbacks_sublist calls start []). constructor. Qed.

(** X28. When the callback has just sent an update and 100 ms or more pass
    before the run is over, [sendFinalProgress] sends that same update a
    second time. *)
Theorem final_progress_repeats_last_sent (s : Sender) (now later : Z) (d : ProgressEvent) :
  (PROGRESS_THROTTLE <= now - lastProgressSent s)%Z \/ (100 <= percent d)%Q ->
  (PROGRESS_THROTTLE <= later - now)%Z ->
  sent (sendFinalProgress false later (progressCallback false now d s)) =
    sent s ++ [(now, d); (later, d)].
Proof.
  intros H1 H2. unfold progressCallback.
  assert (E : (PROGRESS_THROTTLE <=? now - lastProgressSent s)%Z || Qle_bool 100 (percent d)
              = true).
  { apply orb_true_iff. destruct H1 as [H1|H1]; [left; lia | right; by apply Qle_bool_iff]. }
  rewrite E. unfold sendFinalProgress. cbn [lastProgressData lastProgressSent sent].
  replace (PROGRESS_THROTTLE <=? later - now)%Z with true by (symmetry; lia).
  cbn. by rewrite <- app_assoc.
Qed.

Lemma final_progress_repeats_last_sent_witness :
  ((PROGRESS_THROTTLE <= 1762153500000 - lastProgressSent start)%Z \/
   (100 <= percent (mkProgress 2 2 100 (js "Calculating compression statistics...")))%Q) /\
  (PROGRESS_THROTTLE <= 1762153500250 - 1762153500000)%Z /\
  sent (sendFinalProgress false 1762153500250
          (progressCallback false 1762153500000
             (mkProgress 2 2 100 (js "Calculating compression statistics...")) start)) =
    sent start ++
    [(1762153500000%Z, mkProgress 2 2 100 (js "Calculating compression statistics..."));
     (1762153500250%Z, mkProgress 2 2 100 (js "Calculating compression statistics..."))].
Proof.
  assert (H1 : (PROGRESS_THROTTLE <= 1762153500000 - lastProgressSent start)%Z \/
               (100 <= percent (mkProgress 2 2 100
                                  (js "Calculating compression statistics...")))%Q)
    by (left; vm_compute; discriminate).
  assert (H2 : (PROGRESS_THROTTLE <= 1762153500250 - 1762153500000)%Z)
    by (vm_compute; discriminate).
  split; [exact H1|]. split; [exact H2|].
  exact (final_progress_repeats_last_sent start _ _ _ H1 H2).
Defined.
